(** * The Idea of Us: chat-log parser and relationship analysis

    A shallow embedding of [custom-chat-parser.js], [data-analyzer.js], the
    guard of [process-chat.js] and, of [visualization-prep.js], the data of
    the relationship and of the language views, with the properties of the
    parser, of the analyses, of the orchestrator and of these views stated
    and proved over it.

    Conventions of the embedding.
    - A JavaScript string is the list of its UTF-16 code units ([list Z]).
    - A [Date] is its time value: [Some t] (milliseconds since the epoch,
      UTC) or [None] for an Invalid Date.
    - A JavaScript Number that results from a division is a [number]: an
      exact rational, an infinity or NaN.  Rounding of IEEE-754 doubles is
      not modelled: arithmetic on finite values is exact.
    - An object used as a dictionary is a [gmap] keyed by strings; where the
      source observes the order of the properties ([Object.values]) it is a
      list of entries in property order.  Only own properties are modelled:
      no key is the name of a property of [Object.prototype].
    - A [throw] is the [Throw] case of [completion].
    - Reading and writing files, and what is printed, are left out, but for
      the warnings of the parser. *)

From Stdlib Require Import ZArith QArith Qcanon Qcabs Lia Ascii String.
From stdpp Require Import sorting numbers.
From stdpp Require Import base option strings gmap list.

Local Open Scope Z_scope.

(** ** JavaScript strings *)

Module JsString.

Abbreviation jsstring := (list Z).

Definition code (a : ascii) : Z := Z.of_N (N_of_ascii a).

(** The line feed, ['\n']. *)
Definition LF : Z := 10.

(** A string literal of the source, as code units (ASCII literals only). *)
Fixpoint lit (s : string) : list Z :=
  match s with
  | EmptyString => []
  | String a s' => code a :: lit s'
  end.

(** [\d] *)
Definition isDigit (c : Z) : bool := (48 <=? c) && (c <=? 57).

(** LineTerminator: LF, CR, LS, PS. *)
Definition isLineTerminator (c : Z) : bool :=
  (c =? 10) || (c =? 13) || (c =? 8232) || (c =? 8233).

(** WhiteSpace: TAB, VT, FF, SP, NBSP, ZWNBSP and the category Zs. *)
Definition isWhiteSpace (c : Z) : bool :=
  (c =? 9) || (c =? 11) || (c =? 12) || (c =? 32) || (c =? 160) ||
  (c =? 65279) || (c =? 5760) || ((8192 <=? c) && (c <=? 8202)) ||
  (c =? 8239) || (c =? 8287) || (c =? 12288).

(** [\s], also the characters removed by [trim]. *)
Definition isSpace (c : Z) : bool := isWhiteSpace c || isLineTerminator c.

(** [.] without the [s] flag. *)
Definition isDot (c : Z) : bool := negb (isLineTerminator c).

Fixpoint trimStart (s : list Z) : list Z :=
  match s with
  | c :: s' => if isSpace c then trimStart s' else s
  | [] => []
  end.

Definition trimEnd (s : list Z) : list Z := reverse (trimStart (reverse s)).

Definition trim (s : list Z) : list Z := trimEnd (trimStart s).

Fixpoint startsWith (p s : list Z) : bool :=
  match p, s with
  | [], _ => true
  | a :: p', b :: s' => (a =? b) && startsWith p' s'
  | _ :: _, [] => false
  end.

(** [s.includes(p)] *)
Fixpoint includes (p s : list Z) : bool :=
  startsWith p s ||
  match s with
  | [] => false
  | _ :: s' => includes p s'
  end.

(** [s.split(sep)] for a one-character separator: the pieces, with the
    piece under construction carried in [cur]. *)
Fixpoint split_go (sep : Z) (cur s : list Z) : list (list Z) :=
  match s with
  | [] => [cur]
  | c :: s' => if c =? sep then cur :: split_go sep [] s'
               else split_go sep (cur ++ [c]) s'
  end.

Definition split (sep : Z) (s : list Z) : list (list Z) := split_go sep [] s.

(** [pieces.join(sep)] *)
Fixpoint join (sep : Z) (pieces : list (list Z)) : list Z :=
  match pieces with
  | [] => []
  | [p] => p
  | p :: ps => p ++ sep :: join sep ps
  end.

(** Value of a digit in radix 16, for [parseInt]. *)
Definition hexValue (c : Z) : option Z :=
  if isDigit c then Some (c - 48)
  else if (97 <=? c) && (c <=? 102) then Some (c - 87)
  else if (65 <=? c) && (c <=? 70) then Some (c - 55)
  else None.

Definition digitValue (radix c : Z) : option Z :=
  match hexValue c with
  | Some v => if v <? radix then Some v else None
  | None => None
  end.

(** The longest prefix of digits of [s] in [radix], folded into a value:
    [None] when [s] starts with no digit. *)
Fixpoint digits (radix : Z) (acc : option Z) (s : list Z) : option Z :=
  match s with
  | [] => acc
  | c :: s' =>
      match digitValue radix c with
      | Some v => digits radix (Some (default 0 acc * radix + v)) s'
      | None => acc
      end
  end.

(** [parseInt(s)] with no radix argument: leading white space, a sign, the
    prefix [0x] or [0X] of a hexadecimal numeral, then digits; [None] is
    NaN. *)
Definition parseInt (s : list Z) : option Z :=
  let s := trimStart s in
  let '(sign, s) :=
    match s with
    | c :: s' =>
        if c =? code "-" then (-1, s')
        else if c =? code "+" then (1, s')
        else (1, s)
    | [] => (1, s)
    end in
  let '(radix, s) :=
    match s with
    | a :: b :: s' =>
        if (a =? code "0") && ((b =? code "x") || (b =? code "X"))
        then (16, s') else (10, s)
    | _ => (10, s)
    end in
  (λ v, sign * v) <$> digits radix None s.

(** Decimal digits of a natural number, zero-padded to [width]. *)
Fixpoint padDigits (width : nat) (n : Z) : list Z :=
  match width with
  | O => []
  | S w => padDigits w (n / 10) ++ [48 + n mod 10]
  end.

(** Lexicographic order on code units, the order of [Array.prototype.sort]
    on strings when no comparator is given. *)
Fixpoint str_leb (a b : list Z) : bool :=
  match a, b with
  | [], _ => true
  | _ :: _, [] => false
  | x :: a', y :: b' => (x <? y) || ((x =? y) && str_leb a' b')
  end.

Definition str_le (a b : list Z) : Prop := str_leb a b = true.

#[global] Instance str_le_dec : RelDecision str_le.
Proof. intros a b. unfold str_le. apply _. Defined.

End JsString.

Export JsString.

(** ** Completions: a JavaScript call returns or throws *)

Inductive error := TypeError | RangeError.

Inductive completion (A : Type) : Type :=
  | Normal (a : A)
  | Throw (e : error).
Arguments Normal {A} a.
Arguments Throw {A} e.

#[global] Instance completion_ret : MRet completion := @Normal.
#[global] Instance completion_bind : MBind completion := λ A B f c,
  match c with
  | Normal a => f a
  | Throw e => Throw e
  end.

#[global] Instance completion_fmap : FMap completion := λ A B f c,
  match c with
  | Normal a => Normal (f a)
  | Throw e => Throw e
  end.

(** [try { ... } catch (error) { return null }] *)
Definition catchNull {A} (c : completion A) : option A :=
  match c with
  | Normal a => Some a
  | Throw _ => None
  end.

(** ** What the host provides: the local time zone and the [sentiment]
    package's scoring of a text. *)

Class Host := {
  (** LocalTZA(t, isUTC) of ECMA-262, in milliseconds *)
  LocalTZA : Z → bool → Z;
  (** [new sentiment().analyze(content)]: the score and the comparative
      score of a text *)
  sentimentAnalyze : list Z → Qc * Qc
}.

(** ** Dates (ECMA-262, Date objects) *)

Module JsDate.

Definition msPerDay : Z := 86400000.
Definition msPerHour : Z := 3600000.
Definition msPerMinute : Z := 60000.
Definition msPerSecond : Z := 1000.

Definition Day (t : Z) : Z := t / msPerDay.

Definition DaysInYear (y : Z) : Z :=
  if negb (y mod 4 =? 0) then 365
  else if negb (y mod 100 =? 0) then 366
  else if negb (y mod 400 =? 0) then 365
  else 366.

Definition DayFromYear (y : Z) : Z :=
  365 * (y - 1970) + (y - 1969) / 4 - (y - 1901) / 100 + (y - 1601) / 400.

(** The largest [y] with [DayFromYear y <= Day t]: an estimate from the mean
    length of a year, moved by one where it misses. *)
Definition YearFromTime (t : Z) : Z :=
  let d := Day t in
  let y := 1970 + d * 400 / 146097 in
  if d <? DayFromYear y then y - 1
  else if DayFromYear (y + 1) <=? d then y + 1
  else y.

Definition InLeapYear (y : Z) : Z := if DaysInYear y =? 366 then 1 else 0.

(** Number of days of the year before month [m] (0-based). *)
Definition daysBeforeMonth (leap m : Z) : Z :=
  match m with
  | 0 => 0
  | 1 => 31
  | 2 => 59 + leap
  | 3 => 90 + leap
  | 4 => 120 + leap
  | 5 => 151 + leap
  | 6 => 181 + leap
  | 7 => 212 + leap
  | 8 => 243 + leap
  | 9 => 273 + leap
  | 10 => 304 + leap
  | 11 => 334 + leap
  | _ => 365 + leap
  end.

Definition DayWithinYear (t : Z) : Z := Day t - DayFromYear (YearFromTime t).

Definition MonthFromTime (t : Z) : Z :=
  let d := DayWithinYear t in
  let leap := InLeapYear (YearFromTime t) in
  if d <? daysBeforeMonth leap 1 then 0
  else if d <? daysBeforeMonth leap 2 then 1
  else if d <? daysBeforeMonth leap 3 then 2
  else if d <? daysBeforeMonth leap 4 then 3
  else if d <? daysBeforeMonth leap 5 then 4
  else if d <? daysBeforeMonth leap 6 then 5
  else if d <? daysBeforeMonth leap 7 then 6
  else if d <? daysBeforeMonth leap 8 then 7
  else if d <? daysBeforeMonth leap 9 then 8
  else if d <? daysBeforeMonth leap 10 then 9
  else if d <? daysBeforeMonth leap 11 then 10
  else 11.

Definition DateFromTime (t : Z) : Z :=
  DayWithinYear t
  - daysBeforeMonth (InLeapYear (YearFromTime t)) (MonthFromTime t) + 1.

Definition HourFromTime (t : Z) : Z := (t / msPerHour) mod 24.
Definition MinFromTime (t : Z) : Z := (t / msPerMinute) mod 60.
Definition SecFromTime (t : Z) : Z := (t / msPerSecond) mod 60.
Definition msFromTime (t : Z) : Z := t mod msPerSecond.

Definition MakeTime (hour min sec ms : Z) : Z :=
  hour * msPerHour + min * msPerMinute + sec * msPerSecond + ms.

(** Months outside 0..11 carry into the year; the day of the month is an
    offset from the first of that month, whatever its value. *)
Definition MakeDay (year month date : Z) : Z :=
  let ym := year + month / 12 in
  let mn := month mod 12 in
  DayFromYear ym + daysBeforeMonth (InLeapYear ym) mn + date - 1.

Definition MakeDate (day time : Z) : Z := day * msPerDay + time.

Definition TimeClip (t : Z) : option Z :=
  if 8640000000000000 <? Z.abs t then None else Some t.

Definition MakeFullYear (y : Z) : Z :=
  if (0 <=? y) && (y <=? 99) then 1900 + y else y.

Section host.
Context `{Host}.

Definition UTC (t : Z) : Z := t - LocalTZA t false.
Definition LocalTime (t : Z) : Z := t + LocalTZA t true.

(** [new Date(year, month, date, hours, minutes, seconds)]; an argument that
    is NaN ([None]) gives an Invalid Date. *)
Definition newDate (year month date hours minutes seconds : option Z)
    : option Z :=
  y ← year; m ← month; dt ← date; h ← hours; mi ← minutes; s ← seconds;
  TimeClip (UTC (MakeDate (MakeDay (MakeFullYear y) m dt) (MakeTime h mi s 0))).

(** [d.getHours()]; [None] is NaN. *)
Definition getHours (d : option Z) : option Z :=
  t ← d; Some (HourFromTime (LocalTime t)).

End host.

(** The year of an ISO text: four digits, or a sign and six digits for a
    year outside 0..9999. *)
Definition isoYear (y : Z) : list Z :=
  if (0 <=? y) && (y <=? 9999) then padDigits 4 y
  else (if y <? 0 then 45 else 43) :: padDigits 6 (Z.abs y).

(** The text of a valid time value, [YYYY-MM-DDTHH:mm:ss.sssZ]. *)
Definition isoText (t : Z) : list Z :=
  isoYear (YearFromTime t) ++ lit "-" ++
  padDigits 2 (MonthFromTime t + 1) ++ lit "-" ++
  padDigits 2 (DateFromTime t) ++ lit "T" ++
  padDigits 2 (HourFromTime t) ++ lit ":" ++
  padDigits 2 (MinFromTime t) ++ lit ":" ++
  padDigits 2 (SecFromTime t) ++ lit "." ++
  padDigits 3 (msFromTime t) ++ lit "Z".

(** [d.toISOString()], which throws on an Invalid Date. *)
Definition toISOString (d : option Z) : completion (list Z) :=
  match d with
  | None => Throw RangeError
  | Some t => Normal (isoText t)
  end.

(** [s.slice(0, n)] *)
Definition slice0 (n : nat) (s : list Z) : list Z := take n s.

End JsDate.

Export JsDate.


(** ** Numbers that come out of a division *)

Module JsNumber.

Inductive number :=
  | Num (q : Qc)
  | PosInf
  | NegInf
  | NaN.

Definition ofZ (n : Z) : number := Num (Qc_of_Z n).

Definition nadd (a b : number) : number :=
  match a, b with
  | NaN, _ | _, NaN => NaN
  | Num x, Num y => Num (x + y)
  | PosInf, NegInf | NegInf, PosInf => NaN
  | PosInf, _ | _, PosInf => PosInf
  | NegInf, _ | _, NegInf => NegInf
  end.

Definition nneg (a : number) : number :=
  match a with
  | Num x => Num (- x)
  | PosInf => NegInf
  | NegInf => PosInf
  | NaN => NaN
  end.

Definition nsub (a b : number) : number := nadd a (nneg b).

(** A zero divisor is the positive zero: no value of the analysis is a
    negative zero. *)
Definition ndiv (a b : number) : number :=
  match a, b with
  | NaN, _ | _, NaN => NaN
  | Num x, Num y =>
      if decide (y = 0%Qc) then
        if decide (0 < x)%Qc then PosInf
        else if decide (x < 0)%Qc then NegInf
        else NaN
      else Num (x / y)
  | Num _, (PosInf | NegInf) => Num 0
  | (PosInf | NegInf), (PosInf | NegInf) => NaN
  | PosInf, Num y => if decide (y < 0)%Qc then NegInf else PosInf
  | NegInf, Num y => if decide (y < 0)%Qc then PosInf else NegInf
  end.

(** [Math.abs] *)
Definition nabs (a : number) : number :=
  match a with
  | Num x => Num (Qcabs x)
  | PosInf | NegInf => PosInf
  | NaN => NaN
  end.

(** [a < b]; false when either side is NaN. *)
Definition nltb (a b : number) : bool :=
  match a, b with
  | NaN, _ | _, NaN => false
  | Num x, Num y => bool_decide (x < y)%Qc
  | NegInf, (Num _ | PosInf) => true
  | Num _, PosInf => true
  | _, _ => false
  end.

(** [a > b] *)
Definition ngtb (a b : number) : bool := nltb b a.

(** [xs.reduce((sum, x) => sum + x, 0)] *)
Definition nsum (xs : list number) : number := foldl nadd (ofZ 0) xs.

(** [xs.reduce((sum, x) => sum + x, 0) / xs.length] *)
Definition average (xs : list number) : number :=
  ndiv (nsum xs) (ofZ (Z.of_nat (length xs))).

(** [a - b] on two dates: NaN when one of them is invalid. *)
Definition dateDiff (a b : option Z) : number :=
  match a, b with
  | Some x, Some y => ofZ (x - y)
  | _, _ => NaN
  end.

End JsNumber.

Export JsNumber.

(** ** Objects whose order of properties is observed

    The properties in the order of their creation.  [Object.values] and
    [Object.entries] list the properties whose name is an array index first,
    in ascending order, then the others in the order of their creation. *)

Module JsObject.

Definition object (V : Type) : Type := list (list Z * V).

Fixpoint get {V} (k : list Z) (o : object V) : option V :=
  match o with
  | [] => None
  | (k', v) :: o' => if bool_decide (k' = k) then Some v else get k o'
  end.

(** [o[k] = v] *)
Fixpoint set {V} (k : list Z) (v : V) (o : object V) : object V :=
  match o with
  | [] => [(k, v)]
  | (k', v') :: o' =>
      if bool_decide (k' = k) then (k, v) :: o' else (k', v') :: set k v o'
  end.

(** The array index a property name denotes: a canonical numeral below
    2^32 - 1. *)
Definition arrayIndex (k : list Z) : option Z :=
  match k with
  | [] => None
  | c :: k' =>
      if forallb isDigit k && (negb (c =? code "0") || bool_decide (k' = [])) then
        let n := foldl (λ acc d, acc * 10 + (d - 48)) 0 k in
        if n <? 4294967295 then Some n else None
      else None
  end.

Definition indexEntries {V} (o : object V) : list (Z * (list Z * V)) :=
  omap (λ e, (λ n, (n, e)) <$> arrayIndex e.1) o.

Definition byIndex {V} (a b : Z * (list Z * V)) : Prop := a.1 ≤ b.1.

#[global] Instance byIndex_dec {V} : RelDecision (@byIndex V).
Proof. intros a b. unfold byIndex. apply _. Defined.

Definition entries {V} (o : object V) : list (list Z * V) :=
  (snd <$> merge_sort byIndex (indexEntries o)) ++
  filter (λ e, arrayIndex e.1 = None) o.

Definition values {V} (o : object V) : list V := snd <$> entries o.

End JsObject.

(** ** custom-chat-parser.js *)

Module Parser.

(** One element of the [messages] array. *)
Record message := Message {
  timestamp : option Z;
  date : list Z;
  time : list Z;
  sender : list Z;
  content : list Z;
  isMedia : bool;
  isDeleted : bool;
  lineNumber : nat
}.

(** *** The two header patterns

    [customPattern] is
    [/^\[(\d{2}\/\d{2}\/\d{2}),\s(\d{1,2}:\d{2}:\d{2}\s[AP]M)\]\s(.+?):\s(.+)$/]
    and [altPattern] is the same without the [:\d{2}] of the seconds.  Each
    matcher below consumes one piece of the pattern from the front of the
    text and returns what it matched and the rest. *)

Definition chr (c : Z) (s : list Z) : option (list Z) :=
  match s with
  | x :: s' => if x =? c then Some s' else None
  | [] => None
  end.

(** [\s] *)
Definition space (s : list Z) : option (Z * list Z) :=
  match s with
  | x :: s' => if isSpace x then Some (x, s') else None
  | [] => None
  end.

(** [\d{2}] *)
Definition twoDigits (s : list Z) : option (list Z * list Z) :=
  match s with
  | a :: b :: s' => if isDigit a && isDigit b then Some ([a; b], s') else None
  | _ => None
  end.

(** [\d{1,2}], in a place where a colon must follow: the greedy choice of two
    digits is the only one that can succeed when two digits are there. *)
Definition oneOrTwoDigits (s : list Z) : option (list Z * list Z) :=
  match s with
  | a :: s' =>
      if isDigit a then
        match s' with
        | b :: s'' => if isDigit b then Some ([a; b], s'') else Some ([a], s')
        | [] => Some ([a], s')
        end
      else None
  | [] => None
  end.

(** [[AP]] *)
Definition meridiemLetter (s : list Z) : option (Z * list Z) :=
  match s with
  | x :: s' => if (x =? code "A") || (x =? code "P") then Some (x, s') else None
  | [] => None
  end.

(** [\d{2}\/\d{2}\/\d{2}] *)
Definition dateField (s : list Z) : option (list Z * list Z) :=
  '(dd, s) ← twoDigits s;
  s ← chr (code "/") s;
  '(mm, s) ← twoDigits s;
  s ← chr (code "/") s;
  '(yy, s) ← twoDigits s;
  Some (dd ++ lit "/" ++ mm ++ lit "/" ++ yy, s).

(** [\d{1,2}:\d{2}:\d{2}\s[AP]M] with seconds, [\d{1,2}:\d{2}\s[AP]M]
    without. *)
Definition timeField (seconds : bool) (s : list Z) : option (list Z * list Z) :=
  '(hh, s) ← oneOrTwoDigits s;
  s ← chr (code ":") s;
  '(mi, s) ← twoDigits s;
  '(ss, s) ← (if seconds
              then s ← chr (code ":") s;
                   '(d, s) ← twoDigits s;
                   Some (lit ":" ++ d, s)
              else Some ([], s));
  '(w, s) ← space s;
  '(ap, s) ← meridiemLetter s;
  s ← chr (code "M") s;
  Some (hh ++ lit ":" ++ mi ++ ss ++ [w; ap; code "M"], s).

(** [(.+)$]: the whole rest, not empty, with no line terminator in it. *)
Definition restOfLine (s : list Z) : option (list Z) :=
  match s with
  | [] => None
  | _ => if forallb isDot s then Some s else None
  end.

(** [(.+?):\s(.+)$]: the lazy group takes the shortest sender, at least one
    character, after which a colon, a white space and a rest of line
    follow; [sender] is what the group holds so far. *)
Fixpoint senderContent (sender s : list Z) : option (list Z * list Z) :=
  match s with
  | [] => None
  | c :: s' =>
      let here :=
        match sender with
        | [] => None
        | _ => s1 ← chr (code ":") s; '(_, s2) ← space s1; restOfLine s2
        end in
      match here with
      | Some content => Some (sender, content)
      | None => if isDot c then senderContent (sender ++ [c]) s' else None
      end
  end.

(** The groups [date, time, sender, content] of a match. *)
Definition header (seconds : bool) (line : list Z)
    : option (list Z * list Z * list Z * list Z) :=
  s ← chr (code "[") line;
  '(date, s) ← dateField s;
  s ← chr (code ",") s;
  '(_, s) ← space s;
  '(time, s) ← timeField seconds s;
  s ← chr (code "]") s;
  '(_, s) ← space s;
  '(sender, content) ← senderContent [] s;
  Some (date, time, sender, content).

Definition customPattern : list Z → option (list Z * list Z * list Z * list Z) :=
  header true.
Definition altPattern : list Z → option (list Z * list Z * list Z * list Z) :=
  header false.

(** [line.match(customPattern)], then [line.match(altPattern)] when the
    first is null. *)
Definition matchLine (line : list Z)
    : option (list Z * list Z * list Z * list Z) :=
  match customPattern line with
  | Some m => Some m
  | None => altPattern line
  end.

(** *** Date and time fields *)

(** [parseInt(parts[i])]; a missing element is [undefined], whose [parseInt]
    is NaN. *)
Definition parseIntAt (parts : list (list Z)) (i : nat) : option Z :=
  parts !! i ≫= parseInt.

(** [timeParts[2].replace(/\s[AP]M/, '')]: the first match is removed. *)
Fixpoint removeMeridiem (s : list Z) : list Z :=
  match s with
  | w :: s' =>
      match s' with
      | ap :: m :: rest =>
          if isSpace w && ((ap =? code "A") || (ap =? code "P")) && (m =? code "M")
          then rest
          else w :: removeMeridiem s'
      | _ => s
      end
  | [] => []
  end.

(** The six numbers handed to [new Date]; [None] is NaN. *)
Record fields := Fields {
  year : option Z;
  month : option Z;
  day : option Z;
  hour : option Z;
  minute : option Z;
  second : option Z
}.

(** [if (isPM && hour < 12) hour += 12; else if (!isPM && hour === 12) hour = 0] *)
Definition to24Hour (isPM : bool) (hour : option Z) : option Z :=
  match hour with
  | Some h =>
      if isPM && (h <? 12) then Some (h + 12)
      else if negb isPM && (h =? 12) then Some 0
      else Some h
  | None => None
  end.

Definition dateTimeFields (date time : list Z) : fields :=
  let dateParts := split (code "/") date in
  let day := parseIntAt dateParts 0 in
  let month := (λ m, m - 1) <$> parseIntAt dateParts 1 in
  let year := parseIntAt dateParts 2 in
  let year := (λ y, if y <? 100 then y + 2000 else y) <$> year in
  let isPM := includes (lit "PM") time in
  let timeParts := split (code ":") time in
  let hour := to24Hour isPM (parseIntAt timeParts 0) in
  let minute := parseIntAt timeParts 1 in
  let second :=
    if (2 <? length timeParts)%nat
    then parseInt (removeMeridiem (default [] (timeParts !! 2%nat)))
    else Some 0 in
  Fields year month day hour minute second.

Definition mediaMarkers : list (list Z) :=
  [lit "image omitted"; lit "video omitted"; lit "audio omitted";
   lit "sticker omitted"; lit "GIF omitted"; lit "document omitted"].

Definition deletionMarkers : list (list Z) :=
  [lit "This message was deleted"; lit "You deleted this message"].

Definition includesAny (markers : list (list Z)) (s : list Z) : bool :=
  existsb (λ m, includes m s) markers.

Section host.
Context `{Host}.

Definition timestampOf (f : fields) : option Z :=
  newDate (year f) (month f) (day f) (hour f) (minute f) (second f).

(** The object created for a header line. *)
Definition newMessage (lineIndex : nat) (date time sender content : list Z)
    : message :=
  {| timestamp := timestampOf (dateTimeFields date time);
     date := date;
     time := time;
     sender := trim sender;
     content := content;
     isMedia := includesAny mediaMarkers content;
     isDeleted := includesAny deletionMarkers content;
     lineNumber := lineIndex + 1 |}.

(** [currentMessage.content += '\n' + line] *)
Definition appendLine (m : message) (line : list Z) : message :=
  {| timestamp := timestamp m;
     date := date m;
     time := time m;
     sender := sender m;
     content := content m ++ LF :: line;
     isMedia := isMedia m;
     isDeleted := isDeleted m;
     lineNumber := lineNumber m |}.

(** The variables the callback of [lines.forEach] closes over, and the
    warnings it prints (line number and line). *)
Record state := State {
  messages : list message;
  currentMessage : option message;
  warnings : list (nat * list Z)
}.

(** [messages.push(currentMessage)] when a message is open. *)
Definition pushCurrent (st : state) : list message :=
  match currentMessage st with
  | Some m => messages st ++ [m]
  | None => messages st
  end.

(** The callback of [lines.forEach]. *)
Definition processLine (st : state) (line : list Z) (lineIndex : nat) : state :=
  if bool_decide (trim line = []) then st
  else
    match matchLine line with
    | Some (date, time, sender, content) =>
        {| messages := pushCurrent st;
           currentMessage := Some (newMessage lineIndex date time sender content);
           warnings := warnings st |}
    | None =>
        match currentMessage st with
        | Some m =>
            {| messages := messages st;
               currentMessage := Some (appendLine m line);
               warnings := warnings st |}
        | None =>
            {| messages := messages st;
               currentMessage := None;
               warnings := warnings st ++ [((lineIndex + 1)%nat, line)] |}
        end
    end.

Fixpoint forEach (lines : list (list Z)) (lineIndex : nat) (st : state) : state :=
  match lines with
  | [] => st
  | line :: lines' => forEach lines' (S lineIndex) (processLine st line lineIndex)
  end.

Definition parseLines (lines : list (list Z)) : state :=
  forEach lines 0 (State [] None []).

(** [parseCustomChat], from the text of the file at [filePath]. *)
Definition parseCustomChat (chatText : list Z) : list message :=
  let lines := split LF chatText in
  pushCurrent (parseLines lines).

(** [processChat]: the parsed messages, or [null] when reading, parsing or
    saving threw; the model has no failing file operation and the parser
    itself throws nowhere. *)
Definition processChat (chatText : list Z) : option (list message) :=
  Some (parseCustomChat chatText).

End host.

End Parser.

(** ** data-analyzer.js *)

(** What the analyses share. *)
Module Analysis.

(** [list.forEach((x, index) => ...)] with a callback that may throw; [st]
    is what the callback updates. *)
Fixpoint forEachFrom {A St} (f : St → A → nat → completion St)
    (l : list A) (index : nat) (st : St) : completion St :=
  match l with
  | [] => Normal st
  | x :: l' => st' ← f st x index; forEachFrom f l' (S index) st'
  end.

(** [d.toISOString().slice(0, n)] *)
Definition isoPrefix (n : nat) (d : option Z) : completion (list Z) :=
  s ← toISOString d; Normal (slice0 n s).

(** [o[k] = o[k] || 0; o[k]++] *)
Definition increment (k : list Z) (o : gmap (list Z) Z) : gmap (list Z) Z :=
  <[k := default 0 (o !! k) + 1]> o.

(** [o[k] = o[k] || []; o[k].push(x)] *)
Definition pushTo {V} (k : list Z) (x : V) (o : gmap (list Z) (list V))
    : gmap (list Z) (list V) :=
  <[k := default [] (o !! k) ++ [x]]> o.

(** The same on an object whose order of properties is observed. *)
Definition pushToObject {V} (k : list Z) (x : V) (o : JsObject.object (list V))
    : JsObject.object (list V) :=
  JsObject.set k (default [] (JsObject.get k o) ++ [x]) o.

(** [for (const [k, xs] of Object.entries(o)) avg[k] = average of xs] *)
Definition averages (o : JsObject.object (list number)) : JsObject.object number :=
  foldl (λ avg e, JsObject.set e.1 (average e.2) avg) [] (JsObject.entries o).

(** [x.p] where [x] may be [undefined]. *)
Definition property {A B} (x : option A) (p : A → B) : completion B :=
  match x with
  | Some a => Normal (p a)
  | None => Throw TypeError
  end.

End Analysis.

Module Temporal.
Import Parser Analysis.

(** The four accumulators of [analyzeTemporalPatterns]. *)
Record accumulators := Accumulators {
  byDay : gmap (list Z) Z;
  byHour : list Z;
  byMonth : gmap (list Z) Z;
  responseTimes : gmap (list Z) (list number)
}.

Record temporalAnalysis := TemporalAnalysis {
  messagesByDay : gmap (list Z) Z;
  messagesByHour : list Z;
  messagesByMonth : gmap (list Z) Z;
  responseTimesBySender : gmap (list Z) (list number);
  avgResponseTimes : gmap (list Z) number
}.

Section host.
Context `{Host}.

(** The response time in minutes, [(timestamp - prevTimestamp) / 1000 / 60]. *)
Definition responseTime (timestamp prevTimestamp : option Z) : number :=
  ndiv (ndiv (dateDiff timestamp prevTimestamp) (ofZ 1000)) (ofZ 60).

(** The callback of [messages.forEach]. *)
Definition step (messages : list message) (acc : accumulators)
    (message : message) (index : nat) : completion accumulators :=
  let timestamp := timestamp message in
  let sender := sender message in
  day ← isoPrefix 10 timestamp;
  month ← isoPrefix 7 timestamp;
  let hour := getHours timestamp in
  let messagesByDay := increment day (byDay acc) in
  let messagesByHour :=
    match hour with
    | Some h => alter (λ n, n + 1) (Z.to_nat h) (byHour acc)
    | None => byHour acc
    end in
  let messagesByMonth := increment month (byMonth acc) in
  responseTimesBySender ←
    (if (0 <? index)%nat then
       prevSender ← property (messages !! (index - 1)%nat) Parser.sender;
       if bool_decide (sender ≠ prevSender) then
         prevTimestamp ← property (messages !! (index - 1)%nat) Parser.timestamp;
         let responseTime := responseTime timestamp prevTimestamp in
         if nltb responseTime (ofZ (24 * 60))
         then Normal (pushTo sender responseTime (responseTimes acc))
         else Normal (responseTimes acc)
       else Normal (responseTimes acc)
     else Normal (responseTimes acc));
  Normal (Accumulators messagesByDay messagesByHour messagesByMonth
            responseTimesBySender).

Definition analyzeTemporalPatterns (messages : list message)
    : completion temporalAnalysis :=
  acc ← forEachFrom (step messages) messages 0
          (Accumulators ∅ (replicate 24 0) ∅ ∅);
  Normal {| messagesByDay := byDay acc;
            messagesByHour := byHour acc;
            messagesByMonth := byMonth acc;
            responseTimesBySender := responseTimes acc;
            avgResponseTimes := average <$> responseTimes acc |}.

End host.
End Temporal.

Module Content.
Import Parser Analysis.

(** Of the result of [analyzeContentPatterns], what does not come from the
    [natural] package: its tokenizer gives [wordsBySender], and [TfIdf]
    turns the texts of a month into [topicsByMonth]. *)
Record contentAnalysis := ContentAnalysis {
  avgLengthBySender : JsObject.object number;
  mediaBySender : JsObject.object Z;
  textsByMonth : gmap (list Z) (list (list Z))
}.

(** The callback of the first [messages.forEach]: the lengths and the count
    of media messages of each sender. *)
Definition step (acc : JsObject.object (list number) * JsObject.object Z)
    (message : message) : JsObject.object (list number) * JsObject.object Z :=
  let sender := sender message in
  let lengthsBySender :=
    pushToObject sender (ofZ (Z.of_nat (length (content message)))) acc.1 in
  let media := default 0 (JsObject.get sender acc.2) in
  let mediaBySender :=
    JsObject.set sender (if isMedia message then media + 1 else media) acc.2 in
  (lengthsBySender, mediaBySender).

(** The callback of the second [messages.forEach]: the texts of each
    month. *)
Definition monthStep (acc : gmap (list Z) (list (list Z))) (message : message)
    (index : nat) : completion (gmap (list Z) (list (list Z))) :=
  if negb (isMedia message) then
    month ← isoPrefix 7 (timestamp message);
    Normal (pushTo month (content message) acc)
  else Normal acc.

Definition analyzeContentPatterns (messages : list message)
    : completion contentAnalysis :=
  let '(lengthsBySender, mediaBySender) := foldl step ([], []) messages in
  let avgLengthBySender := averages lengthsBySender in
  messagesByMonth ← forEachFrom monthStep messages 0 ∅;
  Normal (ContentAnalysis avgLengthBySender mediaBySender messagesByMonth).

End Content.

Module Sentiment.
Import Parser Analysis.

(** An element of [sentimentTimeline]. *)
Record entry := Entry {
  timestamp : list Z;
  sender : list Z;
  score : number;
  comparative : number
}.

Record accumulators := Accumulators {
  byMonth : gmap (list Z) (list number);
  bySender : JsObject.object (list number);
  timeline : list entry
}.

Record sentimentAnalysis := SentimentAnalysis {
  sentimentTimeline : list entry;
  avgSentimentByMonth : gmap (list Z) number;
  avgSentimentBySender : JsObject.object number
}.

Section host.
Context `{Host}.

(** The callback of [messages.forEach]. *)
Definition step (acc : accumulators) (message : message) (index : nat)
    : completion accumulators :=
  let sender := Parser.sender message in
  let content := content message in
  month ← isoPrefix 7 (Parser.timestamp message);
  if negb (isMedia message) && negb (isDeleted message) then
    let result := sentimentAnalyze content in
    iso ← toISOString (Parser.timestamp message);
    Normal {| byMonth := pushTo month (Num result.1) (byMonth acc);
              bySender := pushToObject sender (Num result.1) (bySender acc);
              timeline := timeline acc ++
                            [Entry iso sender (Num result.1) (Num result.2)] |}
  else Normal acc.

Definition analyzeSentiment (messages : list message)
    : completion sentimentAnalysis :=
  acc ← forEachFrom step messages 0 (Accumulators ∅ [] []);
  Normal {| sentimentTimeline := timeline acc;
            avgSentimentByMonth := average <$> byMonth acc;
            avgSentimentBySender := averages (bySender acc) |}.

End host.
End Sentiment.

Module Relationship.
Import Parser Analysis.

(** An element of [windowMetrics]; [startDate] and [endDate] are elements of
    an array, [None] when [undefined]. *)
Record windowMetric := WindowMetric {
  startDate : option (list Z);
  endDate : option (list Z);
  messageCount : Z;
  messagesBySender : gmap (list Z) Z;
  messagesPerDay : number;
  responseFrequency : number;
  avgMessageLength : list number;
  avgSentiment : list number
}.

Record shiftMetrics := ShiftMetrics {
  frequencyChange : number;
  responseChange : number
}.

(** An element of [patternShifts]. *)
Record patternShift := PatternShift {
  date : option (list Z);
  metrics : shiftMetrics;
  prevWindow : windowMetric;
  currWindow : windowMetric
}.

Record relationshipAnalysis := RelationshipAnalysis {
  windowMetrics : list windowMetric;
  patternShifts : list patternShift
}.

Definition WINDOW_SIZE : Z := 30.

(** [Math.ceil(WINDOW_SIZE / 2)] *)
Definition windowStep : nat := Z.to_nat ((WINDOW_SIZE + 1) / 2).

(** The callback of the first [messages.forEach]: the messages of each
    day. *)
Definition dayStep (messagesByDay : gmap (list Z) (list message))
    (message : message) (index : nat)
    : completion (gmap (list Z) (list Parser.message)) :=
  day ← isoPrefix 10 (timestamp message);
  Normal (pushTo day message messagesByDay).

(** [Object.keys(messagesByDay).sort()] *)
Definition sortedKeys (messagesByDay : gmap (list Z) (list message))
    : list (list Z) :=
  merge_sort str_le (map_to_list messagesByDay).*1.

(** [sortedDays.slice(i, i + WINDOW_SIZE)] *)
Definition windowDaysAt (sortedDays : list (list Z)) (i : nat) : list (list Z) :=
  take (Z.to_nat WINDOW_SIZE) (drop i sortedDays).

(** [windowDays.forEach(day => windowMessages.push(...messagesByDay[day]))] *)
Definition windowMessagesOf (messagesByDay : gmap (list Z) (list message))
    (windowDays : list (list Z)) : list message :=
  windowDays ≫= (λ day, default [] (messagesByDay !! day)).

(** The loop over [j] that counts the messages whose sender differs from the
    sender of the message before. *)
Definition responseCountOf (windowMessages : list message) : Z :=
  Z.of_nat (length (filter
    (λ j, sender <$> windowMessages !! j ≠ sender <$> windowMessages !! (j - 1)%nat)
    (seq 1 (length windowMessages - 1)))).

Definition countBySender (windowMessages : list message) : gmap (list Z) Z :=
  foldl (λ messagesBySender message, increment (sender message) messagesBySender)
    ∅ windowMessages.

Section host.
Context `{Host}.

(** The body of the loop over the windows, for the window that starts at
    the day of index [i]. *)
Definition windowAt (messagesByDay : gmap (list Z) (list message))
    (sortedDays : list (list Z)) (i : nat) : completion windowMetric :=
  let windowDays := windowDaysAt sortedDays i in
  let windowMessages := windowMessagesOf messagesByDay windowDays in
  let startDate := windowDays !! 0%nat in
  let endDate := windowDays !! (length windowDays - 1)%nat in
  let messagesBySender := countBySender windowMessages in
  let responseCount := responseCountOf windowMessages in
  let messagesPerDay :=
    ndiv (ofZ (Z.of_nat (length windowMessages)))
         (ofZ (Z.of_nat (length windowDays))) in
  contentAnalysis ← Content.analyzeContentPatterns windowMessages;
  sentimentAnalysis ← Sentiment.analyzeSentiment windowMessages;
  Normal {| startDate := startDate;
            endDate := endDate;
            messageCount := Z.of_nat (length windowMessages);
            messagesBySender := messagesBySender;
            messagesPerDay := messagesPerDay;
            responseFrequency :=
              ndiv (ofZ responseCount) (ofZ (Z.of_nat (length windowMessages)));
            avgMessageLength :=
              JsObject.values (Content.avgLengthBySender contentAnalysis);
            avgSentiment :=
              JsObject.values (Sentiment.avgSentimentBySender sentimentAnalysis) |}.

(** [for (let i = 0; i < sortedDays.length - WINDOW_SIZE; i += 15)], from
    the index [i] on; every turn moves [i] up, so [fuel] turns are enough
    when [fuel] is the number of days. *)
Fixpoint windowLoop (fuel : nat) (messagesByDay : gmap (list Z) (list message))
    (sortedDays : list (list Z)) (i : nat) (windowMetrics : list windowMetric)
    : completion (list windowMetric) :=
  match fuel with
  | O => Normal windowMetrics
  | S fuel' =>
      if Z.of_nat i <? Z.of_nat (length sortedDays) - WINDOW_SIZE then
        w ← windowAt messagesByDay sortedDays i;
        windowLoop fuel' messagesByDay sortedDays (i + windowStep)
          (windowMetrics ++ [w])
      else Normal windowMetrics
  end.

End host.

(** [(curr - prev) / prev] *)
Definition relativeChange (curr prev : number) : number :=
  ndiv (nsub curr prev) prev.

(** [0.3] *)
Definition threshold : number := Num (Q2Qc (3 # 10)).

(** The body of the loop over the pairs of windows, at index [i]: the shift
    it pushes, if any. *)
Definition shiftAt (windowMetrics : list windowMetric) (i : nat)
    : option patternShift :=
  prevWindow ← windowMetrics !! (i - 1)%nat;
  currWindow ← windowMetrics !! i;
  let frequencyChange :=
    relativeChange (messagesPerDay currWindow) (messagesPerDay prevWindow) in
  let responseChange :=
    relativeChange (responseFrequency currWindow) (responseFrequency prevWindow) in
  if ngtb (nabs frequencyChange) threshold || ngtb (nabs responseChange) threshold
  then Some {| date := startDate currWindow;
               metrics := ShiftMetrics frequencyChange responseChange;
               prevWindow := prevWindow;
               currWindow := currWindow |}
  else None.

(** [for (let i = 1; i < windowMetrics.length; i++)] *)
Definition detectShifts (windowMetrics : list windowMetric) : list patternShift :=
  omap (shiftAt windowMetrics) (seq 1 (length windowMetrics - 1)).

Section host.
Context `{Host}.

Definition analyzeRelationshipPatterns (messages : list message)
    : completion relationshipAnalysis :=
  messagesByDay ← forEachFrom dayStep messages 0 ∅;
  let sortedDays := sortedKeys messagesByDay in
  windowMetrics ← windowLoop (length sortedDays) messagesByDay sortedDays 0 [];
  Normal {| windowMetrics := windowMetrics;
            patternShifts := detectShifts windowMetrics |}.

End host.
End Relationship.

Module Report.
Import Parser Analysis.

Record basicStats := BasicStats {
  messageCount : Z;
  uniqueSenders : list (list Z);
  firstMessageDate : list Z;
  lastMessageDate : list Z;
  durationDays : number
}.

Record analysis := Analysis {
  stats : basicStats;
  temporalAnalysis : Temporal.temporalAnalysis;
  contentAnalysis : Content.contentAnalysis;
  sentimentAnalysis : Sentiment.sentimentAnalysis;
  relationshipAnalysis : Relationship.relationshipAnalysis
}.

(** [[...new Set(xs)]]: the first occurrence of each element, in order. *)
Fixpoint unique (seen xs : list (list Z)) : list (list Z) :=
  match xs with
  | [] => []
  | x :: xs' =>
      if bool_decide (x ∈ seen) then unique seen xs'
      else x :: unique (x :: seen) xs'
  end.

Section host.
Context `{Host}.

Definition analyzeWhatsAppChat (messages : list message) : completion analysis :=
  let uniqueSenders := unique [] (sender <$> messages) in
  let firstMessage := messages !! 0%nat in
  let lastMessage := messages !! (length messages - 1)%nat in
  lastTimestamp ← property lastMessage timestamp;
  firstTimestamp ← property firstMessage timestamp;
  let duration := dateDiff lastTimestamp firstTimestamp in
  let durationDays := ndiv duration (ofZ (1000 * 60 * 60 * 24)) in
  temporalAnalysis ← Temporal.analyzeTemporalPatterns messages;
  contentAnalysis ← Content.analyzeContentPatterns messages;
  sentimentAnalysis ← Sentiment.analyzeSentiment messages;
  relationshipAnalysis ← Relationship.analyzeRelationshipPatterns messages;
  firstMessageDate ← property firstMessage date;
  lastMessageDate ← property lastMessage date;
  Normal {| stats :=
              {| messageCount := Z.of_nat (length messages);
                 uniqueSenders := uniqueSenders;
                 firstMessageDate := firstMessageDate;
                 lastMessageDate := lastMessageDate;
                 durationDays := durationDays |};
            temporalAnalysis := temporalAnalysis;
            contentAnalysis := contentAnalysis;
            sentimentAnalysis := sentimentAnalysis;
            relationshipAnalysis := relationshipAnalysis |}.

(** What [JSON.parse] of the saved messages gives, seen through
    [new Date(message.timestamp)]: a valid timestamp is saved as its ISO
    text and read back as it was; an invalid one is saved as [null], of
    which [new Date] makes the epoch. *)
Definition reloaded (m : message) : message :=
  {| timestamp := Some (default 0 (timestamp m));
     date := date m; time := time m; sender := sender m;
     content := content m; isMedia := isMedia m; isDeleted := isDeleted m;
     lineNumber := lineNumber m |}.

(** [processAnalysis]: the analysis of the saved messages, or [null] when
    something threw. *)
Definition processAnalysis (saved : list message) : option analysis :=
  catchNull (analyzeWhatsAppChat (reloaded <$> saved)).

End host.
End Report.

(** ** process-chat.js *)

Module Pipeline.
Import Parser.

Section host.
Context `{Host}.
(** [processVisualizationData] of visualization-prep.js, on the saved
    analysis: the data for the views, or [null]. *)
Context {VisData : Type} (processVisualizationData : Report.analysis → option VisData).

(** [runPipeline], from the text of the input file; [None] is the
    [undefined] of an aborted run. *)
Definition runPipeline (chatText : list Z)
    : option (list message * Report.analysis * VisData) :=
  let messages := processChat chatText in
  match messages with
  | None => None
  | Some messages =>
      if bool_decide (length messages = 0%nat) then None
      else
        analysis ← Report.processAnalysis messages;
        visData ← processVisualizationData analysis;
        Some (messages, analysis, visData)
  end.

End host.
End Pipeline.
(** ** The emojis of data-analyzer.js *)

Module Emoji.
Import Parser Analysis.

(** A leading and a trailing surrogate. *)
Definition isHighSurrogate (c : Z) : bool := (55296 <=? c) && (c <=? 56319).
Definition isLowSurrogate (c : Z) : bool := (56320 <=? c) && (c <=? 57343).

(** The code points of a string, as a regular expression with the [u] flag
    reads it: a surrogate pair is one code point, any other code unit is one
    by itself.  Each is given as the code units it is written with. *)
Fixpoint codePoints (s : list Z) : list (list Z) :=
  match s with
  | [] => []
  | c :: s' =>
      match s' with
      | lo :: s'' =>
          if isHighSurrogate c && isLowSurrogate lo then [c; lo] :: codePoints s''
          else [c] :: codePoints s'
      | [] => [[c]]
      end
  end.

(** The number of a code point. *)
Definition codePointOf (cp : list Z) : Z :=
  match cp with
  | [hi; lo] => 65536 + (hi - 55296) * 1024 + (lo - 56320)
  | [c] => c
  | _ => 0
  end.

(** The class of [emojiRegex],
    [[\u{1F600}-\u{1F64F}|\u{1F300}-\u{1F5FF}|\u{1F680}-\u{1F6FF}|\u{2600}-\u{26FF}|\u{2700}-\u{27BF}]]:
    five ranges, and the vertical bar written between them. *)
Definition inEmojiClass (n : Z) : bool :=
  ((128512 <=? n) && (n <=? 128591)) || (n =? code "|") ||
  ((127744 <=? n) && (n <=? 128511)) ||
  ((128640 <=? n) && (n <=? 128767)) ||
  ((9728 <=? n) && (n <=? 9983)) ||
  ((9984 <=? n) && (n <=? 10175)).

(** [content.match(emojiRegex) || []]: with the [g] flag, every match. *)
Definition emojisOf (content : list Z) : list (list Z) :=
  filter (λ cp, inEmojiClass (codePointOf cp) = true) (codePoints content).

(** What the callback of the first [messages.forEach] of
    [analyzeContentPatterns] does to [emojisBySender]: the sender gets an
    object, and the emojis of a message that is no media message are
    counted in it. *)
Definition emojiStep (emojisBySender : gmap (list Z) (gmap (list Z) Z))
    (message : message) : gmap (list Z) (gmap (list Z) Z) :=
  let sender := sender message in
  let emojis := default ∅ (emojisBySender !! sender) in
  <[sender :=
      if isMedia message then emojis
      else foldl (λ counts emoji, increment emoji counts) emojis
             (emojisOf (content message))]> emojisBySender.

(** The [emojisBySender] of the result of [analyzeContentPatterns]. *)
Definition emojisBySender (messages : list message) : gmap (list Z) (gmap (list Z) Z) :=
  foldl emojiStep ∅ messages.

End Emoji.

(** ** visualization-prep.js

    The functions take the analysis as [JSON.parse] reads it from the
    file: a number that was not finite is [null] there.  Of the analysis
    each function is given the parts it reads. *)

Module Visualization.

(** An element of [windowMetrics], as read from the file; [None] is
    [undefined] for a date and [null] for a number. *)
Record window := Window {
  startDate : option (list Z);
  endDate : option (list Z);
  messageCount : Z;
  messagesPerDay : option Qc;
  responseFrequency : option Qc;
  messagesBySender : JsObject.object Z
}.

Record shiftMetrics := ShiftMetrics {
  frequencyChange : option Qc;
  responseChange : option Qc
}.

(** An element of [patternShifts], as read from the file. *)
Record patternShift := PatternShift {
  date : option (list Z);
  metrics : shiftMetrics
}.

(** An element of [evolution]. *)
Record evolutionPoint := EvolutionPoint {
  pointStartDate : option (list Z);
  pointEndDate : option (list Z);
  pointMessageCount : Z;
  pointMessagesPerDay : option Qc;
  pointResponseFrequency : option Qc;
  balanceRatio : number;
  senders : JsObject.object Z
}.

(** An element of [shifts]. *)
Record shiftMark := ShiftMark {
  markDate : option (list Z);
  markFrequencyChange : option Qc;
  markResponseChange : option Qc
}.

Record relationshipEvolution := RelationshipEvolution {
  evolution : list evolutionPoint;
  shifts : list shiftMark
}.

(** [Object.keys(o)] *)
Definition keysOf {V} (o : JsObject.object V) : list (list Z) := (JsObject.entries o).*1.

(** [o[k]] as an operand of [+] and [/]: [undefined] makes NaN. *)
Definition countOf (o : JsObject.object Z) (k : list Z) : number :=
  from_option ofZ NaN (JsObject.get k o).

(** The balance of a window: the part of the first of two senders in the
    messages of both, and 0.5 when the senders are not two. *)
Definition balanceOf (messagesBySender : JsObject.object Z) : number :=
  let senders := keysOf messagesBySender in
  match senders with
  | [sender1; sender2] =>
      let total :=
        nadd (countOf messagesBySender sender1) (countOf messagesBySender sender2) in
      ndiv (countOf messagesBySender sender1) total
  | _ => Num (Q2Qc (1 # 2))
  end.

(** The callback of [windowMetrics.map]. *)
Definition evolutionOf (window : window) : evolutionPoint :=
  {| pointStartDate := startDate window;
     pointEndDate := endDate window;
     pointMessageCount := messageCount window;
     pointMessagesPerDay := messagesPerDay window;
     pointResponseFrequency := responseFrequency window;
     balanceRatio := balanceOf (messagesBySender window);
     senders := messagesBySender window |}.

(** The callback of [patternShifts.map]. *)
Definition markOf (shift : patternShift) : shiftMark :=
  {| markDate := date shift;
     markFrequencyChange := frequencyChange (metrics shift);
     markResponseChange := responseChange (metrics shift) |}.

Definition prepareRelationshipEvolutionData (windowMetrics : list window)
    (patternShifts : list patternShift) : relationshipEvolution :=
  {| evolution := evolutionOf <$> windowMetrics;
     shifts := markOf <$> patternShifts |}.

(** *** Language patterns *)

(** [{ word, count }] and [{ emoji, count }] *)
Record wordCount := WordCount {
  word : list Z;
  count : Z
}.

(** [entries.sort((a, b) => b[1] - a[1])]: the entries by falling count;
    the sort is stable, so entries of one count keep their order.  An entry
    is put before the first of those after it whose count is not greater. *)
Fixpoint insertByCount (e : list Z * Z) (sorted : list (list Z * Z))
    : list (list Z * Z) :=
  match sorted with
  | [] => [e]
  | x :: sorted' =>
      if e.2 <? x.2 then x :: insertByCount e sorted' else e :: sorted
  end.

Definition sortByCount (entries : list (list Z * Z)) : list (list Z * Z) :=
  foldr insertByCount [] entries.

(** [Object.entries(counts).sort(...).slice(0, n).map(...)] *)
Definition topCounts (n : nat) (counts : JsObject.object Z) : list wordCount :=
  (λ e, WordCount e.1 e.2) <$> take n (sortByCount (JsObject.entries counts)).

(** [for (const [sender, counts] of Object.entries(o)) top[sender] = ...] *)
Definition topBySender (n : nat) (o : JsObject.object (JsObject.object Z))
    : JsObject.object (list wordCount) :=
  foldl (λ top e, JsObject.set e.1 (topCounts n e.2) top) [] (JsObject.entries o).

Record languagePatterns := LanguagePatterns {
  topWordsBySender : JsObject.object (list wordCount);
  topEmojisBySender : JsObject.object (list wordCount)
}.

Definition prepareLanguagePatterns
    (wordsBySender emojisBySender : JsObject.object (JsObject.object Z))
    : languagePatterns :=
  {| topWordsBySender := topBySender 20 wordsBySender;
     topEmojisBySender := topBySender 10 emojisBySender |}.

End Visualization.


(** * Properties *)

(** The host used for the worked examples: UTC, and a sentiment score of 0
    for every text. *)
Definition utcHost : Host := {| LocalTZA := λ _ _, 0; sentimentAnalyze := λ _, (0%Qc, 0%Qc) |}.

(** ** Booleans of the character classes, as arithmetic *)

Ltac bool_to_prop :=
  repeat match goal with
  | H : _ && _ = true |- _ => apply andb_true_iff in H; destruct H
  | H : _ || _ = false |- _ => apply orb_false_iff in H; destruct H
  | H : negb _ = true |- _ => apply negb_true_iff in H
  | H : negb _ = false |- _ => apply negb_false_iff in H
  | H : (_ =? _) = true |- _ => apply Z.eqb_eq in H
  | H : (_ =? _) = false |- _ => apply Z.eqb_neq in H
  | H : (_ <=? _) = true |- _ => apply Z.leb_le in H
  | H : (_ <=? _) = false |- _ => apply Z.leb_gt in H
  | H : (_ <? _) = true |- _ => apply Z.ltb_lt in H
  | H : (_ <? _) = false |- _ => apply Z.ltb_ge in H
  end.

Section js_string_facts.

Lemma isDigit_range c : isDigit c = true ↔ 48 ≤ c ≤ 57.
Proof. unfold isDigit. rewrite andb_true_iff, !Z.leb_le. done. Qed.

Lemma isSpace_cases c :
  isSpace c = true →
  c = 9 ∨ c = 10 ∨ c = 11 ∨ c = 12 ∨ c = 13 ∨ c = 32 ∨ c = 160 ∨ c = 5760 ∨
  8192 ≤ c ≤ 8202 ∨ c = 8232 ∨ c = 8233 ∨ c = 8239 ∨ c = 8287 ∨ c = 12288 ∨
  c = 65279.
Proof.
  unfold isSpace, isWhiteSpace, isLineTerminator.
  rewrite !orb_true_iff, !andb_true_iff, !Z.eqb_eq, !Z.leb_le. lia.
Qed.

Lemma isSpace_not_digit c : isSpace c = true → isDigit c = false.
Proof.
  intros Hc%isSpace_cases. apply not_true_is_false. rewrite isDigit_range. lia.
Qed.

(** The order of [sort] on strings is a total order. *)
Lemma str_leb_refl a : str_leb a a = true.
Proof.
  induction a as [|x a IH]; simpl; [done|].
  by rewrite Z.ltb_irrefl, Z.eqb_refl, IH.
Qed.

Lemma str_le_total a b : str_le a b ∨ str_le b a.
Proof.
  unfold str_le. revert b. induction a as [|x a IH]; intros [|y b]; simpl; auto.
  destruct (Z.lt_total x y) as [?|[->|?]].
  - left. by rewrite (proj2 (Z.ltb_lt x y)).
  - rewrite Z.ltb_irrefl, Z.eqb_refl. simpl. apply IH.
  - right. by rewrite (proj2 (Z.ltb_lt y x)).
Qed.

Lemma str_le_trans a b c : str_le a b → str_le b c → str_le a c.
Proof.
  unfold str_le. revert b c.
  induction a as [|x a IH]; intros [|y b] [|z c]; simpl; try done.
  rewrite !orb_true_iff, !andb_true_iff, !Z.ltb_lt, !Z.eqb_eq.
  intros [?|[-> ?]] [?|[-> ?]]; eauto with lia.
Qed.

Lemma str_le_antisym a b : str_le a b → str_le b a → a = b.
Proof.
  unfold str_le. revert b. induction a as [|x a IH]; intros [|y b]; simpl; try done.
  rewrite !orb_true_iff, !andb_true_iff, !Z.ltb_lt, !Z.eqb_eq.
  intros [?|[-> ?]] [?|[? ?]]; try lia. f_equal. by apply IH.
Qed.

#[global] Instance str_le_Total : Total str_le := str_le_total.
#[global] Instance str_le_Trans : Transitive str_le := str_le_trans.
#[global] Instance str_le_AntiSymm : AntiSymm (=) str_le := str_le_antisym.

End js_string_facts.

(** ** Dates *)

Section js_date_facts.

(** [YearFromTime t] is the year of the day of [t]: the one whose first day
    is not after it and whose last day is not before it. *)
Lemma YearFromTime_spec t :
  DayFromYear (YearFromTime t) ≤ Day t < DayFromYear (YearFromTime t + 1).
Proof.
  unfold YearFromTime. generalize (Day t). intros d. cbv zeta.
  destruct (Z.ltb_spec d (DayFromYear (1970 + d * 400 / 146097))).
  - unfold DayFromYear in *. Z.div_mod_to_equations. lia.
  - destruct (Z.leb_spec (DayFromYear (1970 + d * 400 / 146097 + 1)) d); [|lia].
    unfold DayFromYear in *. Z.div_mod_to_equations. lia.
Qed.

Lemma DayFromYear_succ y : DayFromYear (y + 1) = DayFromYear y + DaysInYear y.
Proof.
  unfold DayFromYear, DaysInYear.
  repeat match goal with
  | |- context [?a =? ?b] => destruct (Z.eqb_spec a b); simpl
  end; Z.div_mod_to_equations; lia.
Qed.

Lemma DayWithinYear_range t :
  0 ≤ DayWithinYear t < DaysInYear (YearFromTime t).
Proof.
  unfold DayWithinYear. pose proof (YearFromTime_spec t).
  rewrite DayFromYear_succ in *. lia.
Qed.

End js_date_facts.

Example parseInt_examples :
  parseInt (lit "09") = Some 9 ∧ parseInt (lit "15 PM") = Some 15 ∧
  parseInt (lit "  -12x") = Some (-12) ∧ parseInt (lit "0x1F") = Some 31 ∧
  parseInt (lit "PM") = None ∧ parseInt (lit "") = None ∧ parseInt (lit "+7") = Some 7.
Proof. repeat split; reflexivity. Qed.

(** ** The parser *)

Module ParserFacts.
Import Parser.

(** Value of a run of decimal digits. *)
Definition decimal (ds : list Z) : Z := foldl (λ acc d, acc * 10 + (d - 48)) 0 ds.

(** The text of a date field: day, month and year, two digits each. *)
Definition dateText (d1 d2 m1 m2 y1 y2 : Z) : list Z :=
  [d1; d2; code "/"; m1; m2; code "/"; y1; y2].

(** The text of a time field: the hour digits, the minutes, the seconds when
    present, a white space and the meridiem letter before [M]. *)
Definition timeText (hh mi : list Z) (ss : option (list Z)) (w ap : Z) : list Z :=
  hh ++ code ":" :: mi ++ from_option (λ d, code ":" :: d) [] ss ++ [w; ap; code "M"].

Definition digitRun (n : nat) (ds : list Z) : Prop :=
  length ds = n ∧ Forall (λ c, isDigit c = true) ds.

Lemma twoDigits_inv s ds rest :
  twoDigits s = Some (ds, rest) → digitRun 2 ds ∧ s = ds ++ rest.
Proof.
  unfold twoDigits, digitRun. intros Hs.
  destruct s as [|a [|b s']]; try done.
  destruct (isDigit a) eqn:Ha, (isDigit b) eqn:Hb; simplify_eq/=.
  repeat split; auto.
Qed.

Lemma oneOrTwoDigits_inv s ds rest :
  oneOrTwoDigits s = Some (ds, rest) →
  (digitRun 1 ds ∨ digitRun 2 ds) ∧ s = ds ++ rest ∧
  (digitRun 1 ds → ∀ c rest', rest = c :: rest' → isDigit c = false).
Proof.
  unfold oneOrTwoDigits, digitRun. intros Hs.
  destruct s as [|a s']; try done.
  destruct (isDigit a) eqn:Ha; try done.
  destruct s' as [|b s'']; simplify_eq/=.
  - split; [left|split]; auto. by intros _ ???.
  - destruct (isDigit b) eqn:Hb; simplify_eq/=.
    + split; [right|split]; auto. by intros [? _].
    + split; [left|split]; auto. intros _ ???; by simplify_eq.
Qed.

Lemma chr_inv c s rest : chr c s = Some rest → s = c :: rest.
Proof.
  destruct s as [|x s']; simpl; [done|].
  destruct (Z.eqb_spec x c); intros; by simplify_eq.
Qed.

Lemma space_inv s w rest : space s = Some (w, rest) → isSpace w = true ∧ s = w :: rest.
Proof.
  destruct s as [|x s']; simpl; [done|].
  destruct (isSpace x) eqn:Hx; intros; by simplify_eq.
Qed.

Lemma meridiemLetter_inv s ap rest :
  meridiemLetter s = Some (ap, rest) → (ap = code "A" ∨ ap = code "P") ∧ s = ap :: rest.
Proof.
  destruct s as [|x s']; simpl; [done|].
  destruct (Z.eqb_spec x (code "A")), (Z.eqb_spec x (code "P"));
    simpl; intros; simplify_eq; auto.
Qed.

(** Inversion of a chain of matchers that succeeded. *)
Ltac list_norm := repeat (progress (rewrite <-?app_assoc; simpl)).

Ltac match_inv :=
  repeat match goal with
  | H : (?m ≫= _) = Some _ |- _ =>
      let E := fresh "E" in
      destruct m as [?|] eqn:E; simpl in H; [|discriminate H]
  | H : (let '(_, _) := ?p in _) = Some _ |- _ => destruct p
  | H : Some _ = Some _ |- _ => injection H as H; try subst
  | E : twoDigits _ = Some _ |- _ => apply twoDigits_inv in E; destruct E as [? ?]
  | E : oneOrTwoDigits _ = Some _ |- _ =>
      apply oneOrTwoDigits_inv in E; destruct E as (? & ? & ?)
  | E : chr _ _ = Some _ |- _ => apply chr_inv in E
  | E : space _ = Some _ |- _ => apply space_inv in E; destruct E as [? ?]
  | E : meridiemLetter _ = Some _ |- _ =>
      apply meridiemLetter_inv in E; destruct E as [? ?]
  end.

Lemma digitRun_2 ds :
  digitRun 2 ds → ∃ a b, ds = [a; b] ∧ isDigit a = true ∧ isDigit b = true.
Proof.
  intros [Hl Hd]. destruct ds as [|a [|b [|]]]; try done.
  exists a, b. by inversion Hd as [|?? Ha Hd']; inversion Hd' as [|?? Hb _].
Qed.

Lemma digitRun_1 ds : digitRun 1 ds → ∃ a, ds = [a] ∧ isDigit a = true.
Proof.
  intros [Hl Hd]. destruct ds as [|a [|]]; try done.
  exists a. by inversion Hd.
Qed.

Lemma dateField_inv s d rest :
  dateField s = Some (d, rest) →
  ∃ d1 d2 m1 m2 y1 y2,
    Forall (λ c, isDigit c = true) [d1; d2; m1; m2; y1; y2] ∧
    d = dateText d1 d2 m1 m2 y1 y2 ∧ s = d ++ rest.
Proof.
  unfold dateField. intros Hs. match_inv.
  repeat match goal with
  | H : digitRun 2 _ |- _ => apply digitRun_2 in H; destruct H as (? & ? & ? & ? & ?)
  end.
  simplify_eq/=. eexists _, _, _, _, _, _. split; [|done].
  repeat constructor; done.
Qed.

Lemma timeField_inv b s t rest :
  timeField b s = Some (t, rest) →
  ∃ hh mi ss w ap,
    t = timeText hh mi ss w ap ∧ s = t ++ rest ∧
    (digitRun 1 hh ∨ digitRun 2 hh) ∧ digitRun 2 mi ∧
    (if b then ∃ d, ss = Some d ∧ digitRun 2 d else ss = None) ∧
    isSpace w = true ∧ (ap = code "A" ∨ ap = code "P").
Proof.
  unfold timeField. intros Hs. destruct b; match_inv; simplify_eq/=.
  - eexists _, _, (Some _), _, _.
    split; [unfold timeText; simpl; reflexivity|].
    split; [by list_norm|]. do 2 (split; [eassumption|]). eauto.
  - eexists _, _, None, _, _.
    split; [unfold timeText; simpl; reflexivity|].
    split; [by list_norm|]. do 2 (split; [eassumption|]). eauto.
Qed.


Ltac eval_codes :=
  repeat match goal with
  | |- context [code ?a] =>
      let v := eval vm_compute in (code a) in change (code a) with v
  | H : context [code ?a] |- _ =>
      let v := eval vm_compute in (code a) in change (code a) with v in H
  end.

(** Decides the character tests of the goal from the ranges in the context. *)
Ltac decide_tests :=
  repeat match goal with
  | |- context [?x =? ?y] =>
      first [ replace (x =? y) with false by (symmetry; apply Z.eqb_neq; lia)
            | replace (x =? y) with true by (symmetry; apply Z.eqb_eq; lia) ]
  | |- context [?x <=? ?y] =>
      first [ replace (x <=? y) with false by (symmetry; apply Z.leb_gt; lia)
            | replace (x <=? y) with true by (symmetry; apply Z.leb_le; lia) ]
  | |- context [?x <? ?y] =>
      first [ replace (x <? y) with false by (symmetry; apply Z.ltb_ge; lia)
            | replace (x <? y) with true by (symmetry; apply Z.ltb_lt; lia) ]
  end.

Ltac digit_ranges :=
  repeat match goal with
  | H : isDigit _ = true |- _ => apply isDigit_range in H
  | H : digitRun 2 _ |- _ =>
      apply digitRun_2 in H; destruct H as (? & ? & -> & ? & ?)
  | H : digitRun 1 _ |- _ => apply digitRun_1 in H; destruct H as (? & -> & ?)
  | H : Forall _ (_ :: _) |- _ => apply Forall_cons_1 in H; destruct H as [? ?]
  end.

Lemma digitValue_digit a : 48 ≤ a ≤ 57 → digitValue 10 a = Some (a - 48).
Proof. intros. unfold digitValue, hexValue, isDigit. decide_tests. simpl. by decide_tests. Qed.

Lemma digitValue_space c : isSpace c = true → digitValue 10 c = None.
Proof.
  intros Hc%isSpace_cases. unfold digitValue, hexValue, isDigit.
  repeat match goal with
  | |- context [?x <=? ?y] => destruct (Z.leb_spec x y); simpl; try lia
  end; done.
Qed.

Lemma trimStart_digit a s : 48 ≤ a ≤ 57 → trimStart (a :: s) = a :: s.
Proof.
  intros. unfold trimStart, isSpace, isWhiteSpace, isLineTerminator.
  by decide_tests.
Qed.

Lemma parseInt_digit a : isDigit a = true → parseInt [a] = Some (decimal [a]).
Proof.
  intros. digit_ranges. unfold parseInt. rewrite trimStart_digit by done.
  eval_codes. decide_tests. cbn [digits]. rewrite digitValue_digit by done.
  simpl. f_equal. unfold decimal; simpl. lia.
Qed.

Lemma parseInt_two_digits a b rest :
  isDigit a = true → isDigit b = true →
  (∀ c rest', rest = c :: rest' → isSpace c = true) →
  parseInt (a :: b :: rest) = Some (decimal [a; b]).
Proof.
  intros ?? Hrest. digit_ranges. unfold parseInt. rewrite trimStart_digit by done.
  eval_codes. decide_tests. rewrite andb_false_r.
  cbn [digits]. rewrite !digitValue_digit by done.
  replace (digits 10 _ rest) with (Some ((a - 48) * 10 + (b - 48))).
  { simpl. f_equal. unfold decimal; simpl. lia. }
  destruct rest as [|c rest']; simpl; [f_equal; lia|].
  rewrite digitValue_space by eauto. f_equal; lia.
Qed.


Lemma split_go_cons_ne sep cur c s :
  c ≠ sep → split_go sep cur (c :: s) = split_go sep (cur ++ [c]) s.
Proof. intros. simpl. by decide_tests. Qed.

Lemma split_go_cons_eq sep cur s :
  split_go sep cur (sep :: s) = cur :: split_go sep [] s.
Proof. simpl. by rewrite Z.eqb_refl. Qed.

Lemma includes_cons_ne p0 p c s :
  c ≠ p0 → includes (p0 :: p) (c :: s) = includes (p0 :: p) s.
Proof. intros. cbn [includes startsWith]. by decide_tests. Qed.

Ltac split_steps :=
  repeat first
    [ rewrite split_go_cons_eq
    | rewrite split_go_cons_ne by lia; cbn [app] ].

Lemma split_dateText d1 d2 m1 m2 y1 y2 :
  Forall (λ c, isDigit c = true) [d1; d2; m1; m2; y1; y2] →
  split (code "/") (dateText d1 d2 m1 m2 y1 y2) = [[d1; d2]; [m1; m2]; [y1; y2]].
Proof.
  intros. digit_ranges. unfold split, dateText. eval_codes. by split_steps.
Qed.

Lemma isSpace_range w : isSpace w = true → w ≠ 58 ∧ w ≠ 80 ∧ w ≠ 77 ∧ ¬ 48 ≤ w ≤ 57.
Proof. intros Hw%isSpace_cases. lia. Qed.

Lemma split_timeText hh mi ss w ap :
  (digitRun 1 hh ∨ digitRun 2 hh) → digitRun 2 mi →
  from_option (digitRun 2) True ss →
  isSpace w = true → (ap = code "A" ∨ ap = code "P") →
  split (code ":") (timeText hh mi ss w ap) =
    match ss with
    | Some d => [hh; mi; d ++ [w; ap; code "M"]]
    | None => [hh; mi ++ [w; ap; code "M"]]
    end.
Proof.
  intros Hhh Hmi Hss Hw%isSpace_range Hap. eval_codes.
  destruct ss as [d|]; simpl in Hss; destruct Hhh; digit_ranges;
    unfold split, timeText; eval_codes; cbn [app from_option];
    by split_steps.
Qed.

Lemma includes_PM_timeText hh mi ss w ap :
  (digitRun 1 hh ∨ digitRun 2 hh) → digitRun 2 mi →
  from_option (digitRun 2) True ss →
  isSpace w = true → (ap = code "A" ∨ ap = code "P") →
  includes (lit "PM") (timeText hh mi ss w ap) = (ap =? code "P").
Proof.
  intros Hhh Hmi Hss Hw%isSpace_range Hap.
  change (lit "PM") with [80; 77]. eval_codes.
  destruct ss as [d|]; simpl in Hss; destruct Hhh; digit_ranges;
    unfold timeText; eval_codes; cbn [app from_option];
    rewrite !includes_cons_ne by lia;
    destruct Hap; subst ap; done.
Qed.

Lemma removeMeridiem_seconds a b w ap :
  isDigit a = true → isDigit b = true →
  isSpace w = true → (ap = code "A" ∨ ap = code "P") →
  removeMeridiem [a; b; w; ap; code "M"] = [a; b].
Proof.
  intros Ha Hb Hw Hap.
  assert (isSpace a = false).
  { destruct (isSpace a) eqn:E; [|done]. apply isSpace_not_digit in E. congruence. }
  assert (isSpace b = false).
  { destruct (isSpace b) eqn:E; [|done]. apply isSpace_not_digit in E. congruence. }
  cbn [removeMeridiem]. rewrite H, H0, Hw. simpl.
  destruct Hap; subst ap; done.
Qed.


Lemma decimal_two_digits a b :
  isDigit a = true → isDigit b = true → 0 ≤ decimal [a; b] ≤ 99.
Proof. intros. digit_ranges. unfold decimal; simpl. lia. Qed.

Lemma parseInt_hour hh :
  digitRun 1 hh ∨ digitRun 2 hh → parseInt hh = Some (decimal hh).
Proof.
  intros [?|?]; digit_ranges.
  - by apply parseInt_digit; apply isDigit_range.
  - by apply parseInt_two_digits; [apply isDigit_range..|].
Qed.

(** The numbers read from the date and time texts of a header. *)
Lemma dateTimeFields_texts d1 d2 m1 m2 y1 y2 hh mi ss w ap :
  Forall (λ c, isDigit c = true) [d1; d2; m1; m2; y1; y2] →
  (digitRun 1 hh ∨ digitRun 2 hh) → digitRun 2 mi →
  from_option (digitRun 2) True ss →
  isSpace w = true → (ap = code "A" ∨ ap = code "P") →
  dateTimeFields (dateText d1 d2 m1 m2 y1 y2) (timeText hh mi ss w ap) =
    {| year := Some (decimal [y1; y2] + 2000);
       month := Some (decimal [m1; m2] - 1);
       day := Some (decimal [d1; d2]);
       hour := to24Hour (ap =? code "P") (Some (decimal hh));
       minute := Some (decimal mi);
       second := Some (from_option decimal 0 ss) |}.
Proof.
  intros Hd Hhh Hmi Hss Hw Hap. unfold dateTimeFields.
  rewrite split_dateText, split_timeText, includes_PM_timeText by done.
  pose proof Hd as Hd'. digit_ranges.
  assert (∀ a b, 48 ≤ a ≤ 57 → 48 ≤ b ≤ 57 → parseInt [a; b] = Some (decimal [a; b])) as Htwo.
  { intros. by apply parseInt_two_digits; [apply isDigit_range..|]. }
  unfold parseIntAt. destruct ss as [d|]; simpl in Hss; digit_ranges;
    cbn [lookup list_lookup mbind option_bind length fmap option_fmap option_map
         default from_option Nat.ltb Nat.leb app];
    rewrite !Htwo, ?parseInt_hour by done; cbn [fmap option_fmap option_map].
  - unfold id. rewrite removeMeridiem_seconds, Htwo by (done || by apply isDigit_range).
    f_equal. f_equal.
    assert (decimal [y1; y2] < 100) by (unfold decimal; simpl; lia).
    by decide_tests.
  - rewrite (parseInt_two_digits _ _ [w; ap; code "M"]); cycle 1.
    { by apply isDigit_range. }
    { by apply isDigit_range. }
    { by intros ?? [= <- _]. }
    f_equal. f_equal.
    assert (decimal [y1; y2] < 100) by (unfold decimal; simpl; lia).
    by decide_tests.
Qed.


(** What the pieces of a time text are. *)
Definition wellFormedTime (hh mi : list Z) (ss : option (list Z)) (w ap : Z) : Prop :=
  (digitRun 1 hh ∨ digitRun 2 hh) ∧ digitRun 2 mi ∧
  from_option (digitRun 2) True ss ∧
  isSpace w = true ∧ (ap = code "A" ∨ ap = code "P").

(** The groups of a header: [date] and [time] have the shape the pattern
    asks for, and the time has seconds exactly under [customPattern]. *)
Lemma header_inv b line d t s c :
  header b line = Some (d, t, s, c) →
  ∃ d1 d2 m1 m2 y1 y2 hh mi ss w ap w0 rest,
    d = dateText d1 d2 m1 m2 y1 y2 ∧ t = timeText hh mi ss w ap ∧
    line = code "[" :: d ++ code "," :: w0 :: t ++ rest ∧
    Forall (λ c, isDigit c = true) [d1; d2; m1; m2; y1; y2] ∧
    wellFormedTime hh mi ss w ap ∧
    (if b then is_Some ss else ss = None).
Proof.
  unfold header. intros Hs.
  destruct (chr (code "[") line) as [s0|] eqn:E0; [|done]. simpl in Hs.
  destruct (dateField s0) as [[d' s1]|] eqn:E1; [|done]. simpl in Hs.
  destruct (chr (code ",") s1) as [s2|] eqn:E2; [|done]. simpl in Hs.
  destruct (space s2) as [[w0 s3]|] eqn:E3; [|done]. simpl in Hs.
  destruct (timeField b s3) as [[t' s4]|] eqn:E4; [|done]. simpl in Hs.
  destruct (chr (code "]") s4) as [s5|] eqn:E5; [|done]. simpl in Hs.
  destruct (space s5) as [[w1 s6]|] eqn:E6; [|done]. simpl in Hs.
  destruct (senderContent [] s6) as [[s' c']|] eqn:E7; [|done]. simpl in Hs.
  injection Hs as -> -> -> ->.
  apply chr_inv in E0, E2, E5. apply space_inv in E3 as [_ E3], E6 as [_ E6].
  apply dateField_inv in E1 as (d1 & d2 & m1 & m2 & y1 & y2 & Hd & -> & E1).
  apply timeField_inv in E4
    as (hh & mi & ss & w & ap & -> & E4 & Hhh & Hmi & Hss & Hw & Hap).
  exists d1, d2, m1, m2, y1, y2, hh, mi, ss, w, ap, w0, s4.
  split; [done|]. split; [done|]. split; [by subst|]. split; [done|].
  split.
  - do 2 (split; [done|]). split; [|done]. destruct b; [|by subst].
    by destruct Hss as (? & -> & ?).
  - destruct b; [|done]. destruct Hss as (? & -> & ?). by eexists.
Qed.

Lemma timeText_seconds_differ hh mi d w ap rest hh' mi' w' ap' rest' :
  wellFormedTime hh mi (Some d) w ap → wellFormedTime hh' mi' None w' ap' →
  timeText hh mi (Some d) w ap ++ rest ≠ timeText hh' mi' None w' ap' ++ rest'.
Proof.
  intros (Hhh & Hmi & Hd & Hw & Hap) (Hhh' & Hmi' & _ & Hw'%isSpace_range & Hap').
  simpl in Hd. unfold timeText. eval_codes. cbn [from_option].
  destruct Hhh, Hhh'; digit_ranges; list_norm; intros [=]; lia.
Qed.

(** A line matches at most one of the two patterns. *)
Lemma patterns_exclusive line :
  is_Some (customPattern line) → altPattern line = None.
Proof.
  intros [[[[d t] s] c] Hc].
  destruct (altPattern line) as [[[[d' t'] s'] c']|] eqn:Ha; [|done].
  apply header_inv in Hc
    as (d1 & d2 & m1 & m2 & y1 & y2 & hh & mi & ss & w & ap & w0 & rest &
        -> & -> & Hl & _ & Ht & [d Hss]).
  apply header_inv in Ha
    as (d1' & d2' & m1' & m2' & y1' & y2' & hh' & mi' & ss' & w' & ap' & w0' &
        rest' & -> & -> & Hl' & _ & Ht' & ->).
  subst ss. rewrite Hl in Hl'. unfold dateText in Hl'. simpl in Hl'.
  injection Hl' as ????????. exfalso. by eapply timeText_seconds_differ.
Qed.


Lemma matchLine_inv line d t s c :
  matchLine line = Some (d, t, s, c) →
  ∃ d1 d2 m1 m2 y1 y2 hh mi ss w ap,
    d = dateText d1 d2 m1 m2 y1 y2 ∧ t = timeText hh mi ss w ap ∧
    Forall (λ c, isDigit c = true) [d1; d2; m1; m2; y1; y2] ∧
    wellFormedTime hh mi ss w ap ∧
    (is_Some (altPattern line) → ss = None).
Proof.
  unfold matchLine. intros Hm.
  destruct (customPattern line) as [g|] eqn:Hc.
  - injection Hm as ->. pose proof (patterns_exclusive line) as Hex.
    rewrite Hc in Hex. specialize (Hex (mk_is_Some _ _ eq_refl)).
    apply header_inv in Hc
      as (d1 & d2 & m1 & m2 & y1 & y2 & hh & mi & ss & w & ap & w0 & rest &
          -> & -> & _ & Hd & Ht & _).
    exists d1, d2, m1, m2, y1, y2, hh, mi, ss, w, ap.
    repeat (split; [done|]). rewrite Hex. by intros [? [=]].
  - apply header_inv in Hm
      as (d1 & d2 & m1 & m2 & y1 & y2 & hh & mi & ss & w & ap & w0 & rest &
          -> & -> & _ & Hd & Ht & ->).
    exists d1, d2, m1, m2, y1, y2, hh, mi, None, w, ap. done.
Qed.

(** C4. For every header line the parser accepts, the hour handed to the
    timestamp is the 24-hour value of the 12-hour time field: 12 AM gives 0,
    12 PM gives 12, the PM hours 1 to 11 get 12 added, the AM hours other
    than 12 are unchanged; and the seconds are 0 when the line matches the
    pattern without seconds. *)
Theorem twelve_hour_conversion line d t s c :
  matchLine line = Some (d, t, s, c) →
  ∃ hh mi ss w ap,
    t = timeText hh mi ss w ap ∧ wellFormedTime hh mi ss w ap ∧
    let h := decimal hh in
    let f := dateTimeFields d t in
    (ap = code "A" → h = 12 → hour f = Some 0) ∧
    (ap = code "P" → h = 12 → hour f = Some 12) ∧
    (ap = code "P" → 1 ≤ h ≤ 11 → hour f = Some (h + 12)) ∧
    (ap = code "A" → h ≠ 12 → hour f = Some h) ∧
    (is_Some (altPattern line) → ss = None ∧ second f = Some 0).
Proof.
  intros (d1 & d2 & m1 & m2 & y1 & y2 & hh & mi & ss & w & ap &
          -> & -> & Hd & Ht & Halt)%matchLine_inv.
  exists hh, mi, ss, w, ap. split; [done|]. split; [done|].
  destruct Ht as (Hhh & Hmi & Hss & Hw & Hap).
  rewrite dateTimeFields_texts by done. cbn [hour second to24Hour].
  split_and!.
  - by intros -> ->.
  - by intros -> ->.
  - intros -> ?. eval_codes. cbn [Z.eqb Pos.eqb andb]. by decide_tests.
  - intros -> ?. eval_codes. cbn [Z.eqb Pos.eqb andb negb]. by decide_tests.
  - by intros ->%Halt.
Qed.

Lemma twelve_hour_conversion_witness :
  let line := lit "[01/02/23, 09:15 PM] Alice: see you" in
  let t := lit "09:15 PM" in
  matchLine line = Some (lit "01/02/23", t, lit "Alice", lit "see you") ∧
  ∃ hh mi ss w ap,
    t = timeText hh mi ss w ap ∧ wellFormedTime hh mi ss w ap ∧
    let h := decimal hh in
    let f := dateTimeFields (lit "01/02/23") t in
    (ap = code "A" → h = 12 → hour f = Some 0) ∧
    (ap = code "P" → h = 12 → hour f = Some 12) ∧
    (ap = code "P" → 1 ≤ h ≤ 11 → hour f = Some (h + 12)) ∧
    (ap = code "A" → h ≠ 12 → hour f = Some h) ∧
    (is_Some (altPattern line) → ss = None ∧ second f = Some 0).
Proof.
  split; [reflexivity|].
  apply (twelve_hour_conversion
           (lit "[01/02/23, 09:15 PM] Alice: see you")
           (lit "01/02/23") (lit "09:15 PM") (lit "Alice") (lit "see you")).
  reflexivity.
Defined.

(** The three conversions the specification lists. *)
Example hour_12_30_AM :
  hour (dateTimeFields (lit "01/02/23") (lit "12:30:00 AM")) = Some 0.
Proof. reflexivity. Qed.
Example hour_12_30_PM :
  hour (dateTimeFields (lit "01/02/23") (lit "12:30:00 PM")) = Some 12.
Proof. reflexivity. Qed.
Example hour_09_15_PM :
  hour (dateTimeFields (lit "01/02/23") (lit "09:15 PM")) = Some 21.
Proof. reflexivity. Qed.


(** *** Dates *)

Lemma decimal_hour hh : digitRun 1 hh ∨ digitRun 2 hh → 0 ≤ decimal hh ≤ 99.
Proof. intros [?|?]; digit_ranges; unfold decimal; simpl; lia. Qed.

Lemma to24Hour_range isPM h :
  0 ≤ h ≤ 99 → ∃ h', to24Hour isPM (Some h) = Some h' ∧ 0 ≤ h' ≤ 99.
Proof.
  intros. unfold to24Hour.
  destruct isPM; simpl; repeat case_match; bool_to_prop; eexists; split; done || lia.
Qed.

Lemma daysBeforeMonth_range leap m :
  0 ≤ leap ≤ 1 → 0 ≤ daysBeforeMonth leap m ≤ 366.
Proof. intros. unfold daysBeforeMonth. repeat case_match; lia. Qed.

Lemma InLeapYear_range y : 0 ≤ InLeapYear y ≤ 1.
Proof. unfold InLeapYear. case_match; lia. Qed.

(** The time value built from the fields of a header is far inside the
    range of valid time values. *)
Lemma MakeDate_header_range YY MM DD h mi s :
  0 ≤ YY ≤ 99 → 0 ≤ MM ≤ 99 → 0 ≤ DD ≤ 99 →
  0 ≤ h ≤ 99 → 0 ≤ mi ≤ 99 → 0 ≤ s ≤ 99 →
  0 ≤ MakeDate (MakeDay (MakeFullYear (YY + 2000)) (MM - 1) DD) (MakeTime h mi s 0)
    ≤ 5000000000000.
Proof.
  intros. unfold MakeDate, MakeDay, MakeTime, MakeFullYear.
  replace ((0 <=? YY + 2000) && (YY + 2000 <=? 99)) with false
    by (symmetry; apply andb_false_iff; right; apply Z.leb_gt; lia).
  pose proof (daysBeforeMonth_range
                (InLeapYear (YY + 2000 + (MM - 1) / 12)) ((MM - 1) mod 12)
                (InLeapYear_range _)).
  unfold DayFromYear, msPerDay, msPerHour, msPerMinute, msPerSecond.
  revert H5. generalize (daysBeforeMonth (InLeapYear (YY + 2000 + (MM - 1) / 12))
                           ((MM - 1) mod 12)).
  intros n ?. Z.div_mod_to_equations. lia.
Qed.

(** *** Blank lines and headers *)

Definition blank (line : list Z) : Prop := trim line = [].

Lemma trimStart_nil s : trimStart s = [] ↔ forallb isSpace s = true.
Proof.
  induction s as [|c s IH]; simpl; [done|].
  destruct (isSpace c); simpl; [done|]. split; [done|discriminate].
Qed.

Lemma trimStart_no_space c s : isSpace c = false → trimStart (c :: s) = c :: s.
Proof. intros Hc. simpl. by rewrite Hc. Qed.

Lemma trimEnd_nil s : trimEnd s = [] ↔ forallb isSpace s = true.
Proof.
  unfold trimEnd. rewrite <-(reverse_involutive []), (inj_iff reverse).
  rewrite reverse_nil, trimStart_nil.
  rewrite !forallb_forall. setoid_rewrite <-list_elem_of_In.
  by setoid_rewrite elem_of_reverse.
Qed.

Lemma blank_iff line : blank line ↔ forallb isSpace line = true.
Proof.
  unfold blank, trim. rewrite trimEnd_nil. split.
  - intros Hs. induction line as [|c s IH]; simpl in *; [done|].
    destruct (isSpace c) eqn:Hc; simpl in *; [auto|].
    by rewrite Hc in Hs.
  - intros Hs. apply trimStart_nil in Hs as ->. done.
Qed.

Lemma header_starts_with_bracket b line g :
  header b line = Some g → ∃ rest, line = code "[" :: rest.
Proof.
  unfold header. intros Hs.
  destruct (chr (code "[") line) as [s0|] eqn:E0; [|done].
  apply chr_inv in E0. eauto.
Qed.

Lemma matchLine_not_blank line g : matchLine line = Some g → ¬ blank line.
Proof.
  intros Hm Hb. apply blank_iff in Hb.
  assert (∃ rest, line = code "[" :: rest) as [rest ->].
  { unfold matchLine in Hm. destruct (customPattern line) eqn:E.
    - by eapply header_starts_with_bracket.
    - by eapply header_starts_with_bracket. }
  done.
Qed.

Section host.
Context `{Host}.

Lemma processLine_blank st line i : blank line → processLine st line i = st.
Proof. intros Hb. unfold processLine. by rewrite bool_decide_eq_true_2. Qed.

Lemma processLine_header st line i d t s c :
  matchLine line = Some (d, t, s, c) →
  processLine st line i =
    {| messages := pushCurrent st;
       currentMessage := Some (newMessage i d t s c);
       warnings := warnings st |}.
Proof.
  intros Hm. unfold processLine.
  rewrite bool_decide_eq_false_2 by by eapply matchLine_not_blank.
  by rewrite Hm.
Qed.

Lemma processLine_continuation st line i m :
  ¬ blank line → matchLine line = None → currentMessage st = Some m →
  processLine st line i =
    {| messages := messages st;
       currentMessage := Some (appendLine m line);
       warnings := warnings st |}.
Proof.
  intros Hb Hm Hc. unfold processLine.
  rewrite bool_decide_eq_false_2 by done. by rewrite Hm, Hc.
Qed.


Lemma processLine_continuation_open ms m ws line i :
  ¬ blank line → matchLine line = None →
  processLine (State ms (Some m) ws) line i = State ms (Some (appendLine m line)) ws.
Proof. intros. by erewrite processLine_continuation. Qed.

(** *** Assembly of the messages *)

Lemma forEach_app l1 l2 i st :
  forEach (l1 ++ l2) i st = forEach l2 (i + length l1) (forEach l1 i st).
Proof.
  revert i st. induction l1 as [|l l1 IH]; intros i st; simpl.
  - by rewrite Nat.add_0_r.
  - rewrite IH. f_equal. lia.
Qed.

Lemma forEach_blank ls i st : Forall blank ls → forEach ls i st = st.
Proof.
  intros Hb. revert i. induction Hb as [|l ls Hl _ IH]; intros i; simpl; [done|].
  by rewrite processLine_blank.
Qed.

(** The messages of the header lines among [lines], the first of which has
    index [i]. *)
Fixpoint headerMessages (i : nat) (lines : list (list Z)) : list message :=
  match lines with
  | [] => []
  | l :: ls =>
      match matchLine l with
      | Some (d, t, s, c) => newMessage i d t s c :: headerMessages (S i) ls
      | None => headerMessages (S i) ls
      end
  end.

Lemma forEach_headers lines i st :
  Forall (λ l, is_Some (matchLine l)) lines →
  pushCurrent (forEach lines i st) = pushCurrent st ++ headerMessages i lines.
Proof.
  intros Hh. revert i st.
  induction Hh as [|l ls [[[[d t] s] c] Hl] _ IH]; intros i st; simpl.
  - by rewrite app_nil_r.
  - rewrite Hl, IH, (processLine_header _ _ _ _ _ _ _ Hl).
    unfold pushCurrent at 1. simpl. by rewrite <-app_assoc.
Qed.

Lemma headerMessages_lookup lines i k :
  Forall (λ l, is_Some (matchLine l)) lines →
  headerMessages i lines !! k =
    line ← lines !! k; '(d, t, s, c) ← matchLine line;
    Some (newMessage (i + k) d t s c).
Proof.
  intros Hh. revert i k.
  induction Hh as [|l ls [[[[d t] s] c] Hl] _ IH]; intros i k; simpl; [done|].
  rewrite Hl. destruct k as [|k]; simpl.
  - by rewrite Hl, Nat.add_0_r.
  - rewrite IH. by replace (S i + k)%nat with (i + S k)%nat by lia.
Qed.

Lemma headerMessages_length lines i :
  Forall (λ l, is_Some (matchLine l)) lines →
  length (headerMessages i lines) = length lines.
Proof.
  intros Hh. revert i.
  induction Hh as [|l ls [[[[d t] s] c] Hl] _ IH]; intros i; simpl; [done|].
  by rewrite Hl; simpl; rewrite IH.
Qed.


(** C6. A header line followed by two lines that are not blank and match no
    pattern gives one message, whose content is the header's content, a line
    feed, the second line, a line feed and the third line; blank lines, in
    any place, are skipped: they neither close nor extend the message. *)
Theorem continuation_folding chatText b0 h b1 l2 b2 l3 b3 d t s c :
  split LF chatText = b0 ++ [h] ++ b1 ++ [l2] ++ b2 ++ [l3] ++ b3 →
  Forall blank b0 → Forall blank b1 → Forall blank b2 → Forall blank b3 →
  matchLine h = Some (d, t, s, c) →
  ¬ blank l2 → matchLine l2 = None →
  ¬ blank l3 → matchLine l3 = None →
  ∃ m, parseCustomChat chatText = [m] ∧
       content m = c ++ [LF] ++ l2 ++ [LF] ++ l3 ∧
       m = appendLine (appendLine (newMessage (length b0) d t s c) l2) l3.
Proof.
  intros Hs Hb0 Hb1 Hb2 Hb3 Hh Hn2 Hm2 Hn3 Hm3.
  eexists. split; [|split; [|reflexivity]].
  - unfold parseCustomChat, parseLines. rewrite Hs.
    rewrite !forEach_app. cbn [forEach].
    rewrite (forEach_blank b0) by done.
    rewrite (processLine_header _ _ _ _ _ _ _ Hh).
    rewrite (forEach_blank b1) by done.
    rewrite (processLine_continuation_open _ _ _ l2) by done.
    rewrite (forEach_blank b2) by done.
    rewrite (processLine_continuation_open _ _ _ l3) by done.
    rewrite (forEach_blank b3) by done.
    reflexivity.
  - simpl. by list_norm.
Qed.

(** Content of an open message after the lines [cs], none of them a
    header: the lines that are not blank, each after a line feed. *)
Definition folded (c : list Z) (cs : list (list Z)) : list Z :=
  foldl (λ acc l, if bool_decide (blank l) then acc else acc ++ LF :: l) c cs.

Lemma forEach_continuations cs i st m :
  currentMessage st = Some m →
  Forall (λ l, matchLine l = None) cs →
  forEach cs i st =
    {| messages := messages st;
       currentMessage :=
         Some {| timestamp := timestamp m; date := date m; time := time m;
                 sender := sender m; content := folded (content m) cs;
                 isMedia := isMedia m; isDeleted := isDeleted m;
                 lineNumber := lineNumber m |};
       warnings := warnings st |}.
Proof.
  intros Hc Hcs. revert i st m Hc.
  induction Hcs as [|l cs Hl _ IH]; intros i st m Hc; simpl.
  - destruct st, m; simpl in *; by subst.
  - unfold folded; simpl. case_bool_decide as Hb.
    + rewrite processLine_blank by done. by erewrite IH.
    + erewrite processLine_continuation, IH by done. done.
Qed.

Lemma pushCurrent_open ms m ws : pushCurrent (State ms (Some m) ws) = ms ++ [m].
Proof. done. Qed.

(** The messages pushed stay as they are: the lines that follow add
    messages after them. *)
Lemma processLine_messages_prefix st line i :
  messages st `prefix_of` messages (processLine st line i).
Proof.
  unfold processLine. case_bool_decide; [done|].
  destruct (matchLine line) as [[[[d t] s] c]|]; simpl.
  - unfold pushCurrent. destruct (currentMessage st); [by apply prefix_app_r|done].
  - by destruct (currentMessage st).
Qed.

Lemma forEach_messages_prefix lines i st :
  messages st `prefix_of` pushCurrent (forEach lines i st).
Proof.
  revert i st. induction lines as [|l lines IH]; intros i st; simpl.
  - unfold pushCurrent. destruct (currentMessage st); [by apply prefix_app_r|done].
  - etrans; [apply processLine_messages_prefix|apply IH].
Qed.

(** C8. The flags of a message are those of the content of its header
    line: the lines appended to it change its content and nothing else,
    whatever they contain, and so it is in the result, whatever follows. *)
Theorem flags_fixed_at_header st h cs rest i d t s c :
  matchLine h = Some (d, t, s, c) →
  Forall (λ l, matchLine l = None) cs →
  (∀ l, head rest = Some l → is_Some (matchLine l)) →
  ∃ m, currentMessage (forEach (h :: cs) i st) = Some m ∧
       pushCurrent (forEach (h :: cs ++ rest) i st) !! length (pushCurrent st)
         = Some m ∧
       isMedia m = includesAny mediaMarkers c ∧
       isDeleted m = includesAny deletionMarkers c ∧
       timestamp m = timestamp (newMessage i d t s c) ∧
       sender m = trim s ∧ date m = d ∧ time m = t ∧
       lineNumber m = (i + 1)%nat ∧
       content m = folded c cs.
Proof.
  intros Hh Hcs Hrest.
  rewrite (app_comm_cons cs rest h), forEach_app. cbn [forEach].
  rewrite (processLine_header _ _ _ _ _ _ _ Hh).
  erewrite forEach_continuations by done.
  eexists. split; [reflexivity|]. split; [|done].
  destruct rest as [|h' rest]; cbn [forEach messages].
  - by rewrite pushCurrent_open, list_lookup_middle.
  - destruct (Hrest h' eq_refl) as [[[[d' t'] s'] c'] Hh'].
    rewrite (processLine_header _ _ _ _ _ _ _ Hh').
    eapply prefix_lookup_Some; [|apply forEach_messages_prefix].
    cbn [messages]. by rewrite pushCurrent_open, list_lookup_middle.
Qed.

End host.



(** Two header lines, one of each pattern. *)
Definition twoHeaders : list Z :=
  lit "[01/02/23, 09:15 PM] Alice: hi" ++ LF ::
  lit "[01/02/23, 09:16:30 PM] Bob: yo".


(** A header, an empty line, two lines of text and the empty line after the
    last line feed. *)
Definition threeLines : list Z :=
  lit "[01/02/23, 09:15 PM] Alice: hi" ++ LF :: LF ::
  lit "second line" ++ LF :: lit "third: line" ++ [LF].

Lemma continuation_folding_witness :
  let h := lit "[01/02/23, 09:15 PM] Alice: hi" in
  let l2 := lit "second line" in
  let l3 := lit "third: line" in
  let d := lit "01/02/23" in
  let t := lit "09:15 PM" in
  split LF threeLines = [] ++ [h] ++ [[]] ++ [l2] ++ [] ++ [l3] ++ [[]] ∧
  matchLine h = Some (d, t, lit "Alice", lit "hi") ∧
  ¬ blank l2 ∧ matchLine l2 = None ∧ ¬ blank l3 ∧ matchLine l3 = None ∧
  ∃ m, parseCustomChat (H:=utcHost) threeLines = [m] ∧
       content m = lit "hi" ++ [LF] ++ l2 ++ [LF] ++ l3 ∧
       m = appendLine
             (appendLine (newMessage (H:=utcHost) (length (@nil (list Z))) d t
                            (lit "Alice") (lit "hi")) l2) l3.
Proof.
  assert (∀ l, l ≠ [] → trim l = l → ¬ blank l) as Hnb.
  { intros l Hl Ht Hb. unfold blank in Hb. congruence. }
  assert (Forall blank [@nil Z]) as Hb1 by (by repeat constructor).
  assert (¬ blank (lit "second line")) as Hn2 by (by apply Hnb).
  assert (¬ blank (lit "third: line")) as Hn3 by (by apply Hnb).
  split; [reflexivity|]. split; [reflexivity|].
  split; [exact Hn2|]. split; [reflexivity|].
  split; [exact Hn3|]. split; [reflexivity|].
  exact (continuation_folding (H:=utcHost) threeLines
           [] (lit "[01/02/23, 09:15 PM] Alice: hi") [[]] (lit "second line")
           [] (lit "third: line") [[]]
           (lit "01/02/23") (lit "09:15 PM") (lit "Alice") (lit "hi")
           eq_refl (Forall_nil_2 _) Hb1 (Forall_nil_2 _) Hb1 eq_refl
           Hn2 eq_refl Hn3 eq_refl).
Defined.

Lemma flags_fixed_at_header_witness :
  let h := lit "[01/02/23, 09:15 PM] Alice: look" in
  let cs := [lit "<image omitted>"; []; lit "This message was deleted"] in
  let rest := [lit "[01/02/23, 09:16 PM] Bob: image omitted"; lit "text"] in
  let d := lit "01/02/23" in
  let t := lit "09:15 PM" in
  let c := lit "look" in
  let st := State [] None [] in
  matchLine h = Some (d, t, lit "Alice", c) ∧
  Forall (λ l, matchLine l = None) cs ∧
  (∀ l, head rest = Some l → is_Some (matchLine l)) ∧
  ∃ m, currentMessage (forEach (H:=utcHost) (h :: cs) 0 st) = Some m ∧
       pushCurrent (forEach (H:=utcHost) (h :: cs ++ rest) 0 st)
         !! length (pushCurrent st) = Some m ∧
       isMedia m = includesAny mediaMarkers c ∧
       isDeleted m = includesAny deletionMarkers c ∧
       timestamp m = timestamp (newMessage (H:=utcHost) 0 d t (lit "Alice") c) ∧
       sender m = trim (lit "Alice") ∧ date m = d ∧ time m = t ∧
       lineNumber m = (0 + 1)%nat ∧
       content m = folded c cs.
Proof.
  assert (Forall (λ l, matchLine l = None)
            [lit "<image omitted>"; []; lit "This message was deleted"]) as Hcs.
  { repeat constructor. }
  assert (∀ l, head [lit "[01/02/23, 09:16 PM] Bob: image omitted"; lit "text"]
               = Some l → is_Some (matchLine l)) as Hrest.
  { intros l [= <-]. eexists. vm_compute. reflexivity. }
  split; [reflexivity|]. split; [exact Hcs|]. split; [exact Hrest|].
  exact (flags_fixed_at_header (H:=utcHost) (State [] None [])
           (lit "[01/02/23, 09:15 PM] Alice: look") _ _ 0
           (lit "01/02/23") (lit "09:15 PM") (lit "Alice") (lit "look")
           eq_refl Hcs Hrest).
Defined.

(** The markers of the appended lines do not set the flags, and those of
    the header line do. *)
Example markers_in_continuation_lines :
  (λ m, (isMedia m, isDeleted m)) <$>
    parseCustomChat (H:=utcHost)
      (lit "[01/02/23, 09:15 PM] Alice: look" ++ LF ::
       lit "<image omitted>" ++ LF :: lit "This message was deleted" ++ LF ::
       lit "[01/02/23, 09:16 PM] Bob: image omitted" ++ LF :: lit "text")
  = [(false, false); (true, false)].
Proof. reflexivity. Qed.

(** [split] undoes [join] on lines that hold no separator. *)
Lemma split_go_no_sep sep cur s :
  sep ∉ s → split_go sep cur s = [cur ++ s].
Proof.
  revert cur. induction s as [|c s IH]; intros cur Hs; simpl.
  - by rewrite app_nil_r.
  - apply not_elem_of_cons in Hs as [? ?].
    rewrite (proj2 (Z.eqb_neq c sep)) by done.
    rewrite IH by done. by list_norm.
Qed.

Lemma split_go_app_sep sep cur a s :
  sep ∉ a → split_go sep cur (a ++ sep :: s) = (cur ++ a) :: split_go sep [] s.
Proof.
  revert cur. induction a as [|c a IH]; intros cur Ha; simpl.
  - by rewrite Z.eqb_refl, app_nil_r.
  - apply not_elem_of_cons in Ha as [? ?].
    rewrite (proj2 (Z.eqb_neq c sep)) by done.
    rewrite IH by done. by list_norm.
Qed.

Lemma split_join sep lines :
  lines ≠ [] → Forall (λ l, sep ∉ l) lines → split sep (join sep lines) = lines.
Proof.
  intros Hne Hl. unfold split.
  induction Hl as [|l ls Hl Hls IH]; [done|].
  destruct ls as [|l' ls]; simpl.
  - by rewrite split_go_no_sep.
  - rewrite split_go_app_sep by done. f_equal. by apply IH.
Qed.

Section host.
Context `{Host}.

(** The text made of header lines, one a line, gives their messages. *)
Lemma parseCustomChat_joined_headers lines :
  lines ≠ [] →
  Forall (λ l, LF ∉ l) lines →
  Forall (λ l, is_Some (matchLine l)) lines →
  parseCustomChat (join LF lines) = headerMessages 0 lines.
Proof.
  intros Hne Hlf Hh. unfold parseCustomChat, parseLines.
  rewrite split_join by done. by rewrite forEach_headers.
Qed.

End host.

End ParserFacts.

(** ** Numbers *)

Section number_facts.
Local Open Scope Qc_scope.

Lemma Qc_of_Z_eq_0 n : Qc_of_Z n = 0 ↔ n = 0%Z.
Proof. by rewrite <-Z2Qc_inj_0, Z2Qc_inj_iff. Qed.

Lemma Qc_of_Z_pos n : (0 < n)%Z ↔ 0 < Qc_of_Z n.
Proof. by rewrite <-Z2Qc_inj_0, <-Z2Qc_inj_lt. Qed.

Lemma ndiv_ofZ a b : b ≠ 0%Z → ndiv (ofZ a) (ofZ b) = Num (Qc_of_Z a / Qc_of_Z b).
Proof.
  intros Hb. unfold ndiv, ofZ. rewrite decide_False; [done|].
  by rewrite Qc_of_Z_eq_0.
Qed.

Lemma ndiv_Num x y : y ≠ 0 → ndiv (Num x) (Num y) = Num (x / y).
Proof. intros. unfold ndiv. by rewrite decide_False. Qed.

Lemma Qcdiv_le_1 x y : 0 < y → y ≤ x → 1 ≤ x / y.
Proof.
  intros Hy Hxy. apply Qcmult_lt_0_le_reg_r with y; [done|].
  rewrite Qcmult_1_l, (Qcmult_comm (x / y)), Qcmult_div_r; [done|].
  intros ->. by apply Qclt_not_eq in Hy.
Qed.

Lemma Qcdiv_nonneg x y : 0 ≤ x → 0 < y → 0 ≤ x / y.
Proof.
  intros Hx Hy. apply Qcmult_lt_0_le_reg_r with y; [done|].
  rewrite Qcmult_0_l, (Qcmult_comm (x / y)), Qcmult_div_r; [done|].
  intros ->. by apply Qclt_not_eq in Hy.
Qed.

End number_facts.

(** ** What the analyses share *)

Module AnalysisFacts.
Import Parser Analysis.

(** A message whose timestamp is a valid date. *)
Definition valid (m : message) : Prop := is_Some (timestamp m).

#[global] Instance valid_dec m : Decision (valid m).
Proof. unfold valid. apply _. Defined.

(** The day and the month of a message, as the analyses name them. *)
Definition dayOf (m : message) : list Z := take 10 (isoText (default 0 (timestamp m))).
Definition monthOf (m : message) : list Z := take 7 (isoText (default 0 (timestamp m))).

Lemma isoPrefix_valid n m :
  valid m → isoPrefix n (timestamp m) = Normal (take n (isoText (default 0 (timestamp m)))).
Proof. by intros [t ->]. Qed.

Lemma isoPrefix_invalid n m : timestamp m = None → isoPrefix n (timestamp m) = Throw RangeError.
Proof. by intros ->. Qed.

(** A [forEach] whose callback does not throw on the elements of the list
    is a fold. *)
Lemma forEachFrom_fold {A St} (f : St → A → nat → completion St) (g : St → A → St)
    (P : A → Prop) l i st :
  (∀ st x j, P x → f st x j = Normal (g st x)) →
  Forall P l → forEachFrom f l i st = Normal (foldl g st l).
Proof.
  intros Hf Hl. revert i st.
  induction Hl as [|x l Hx _ IH]; intros i st; simpl; [done|].
  rewrite Hf by done. simpl. apply IH.
Qed.

Lemma forEachFrom_Normal {A St} (f : St → A → nat → completion St)
    (P : A → Prop) l i st :
  (∀ st x j, P x → ∃ st', f st x j = Normal st') →
  Forall P l → ∃ st', forEachFrom f l i st = Normal st'.
Proof.
  intros Hf Hl. revert i st.
  induction Hl as [|x l Hx _ IH]; intros i st; simpl; [by eexists|].
  destruct (Hf st x i Hx) as [st' ->]. simpl. apply IH.
Qed.

(** The callback throws at the first element on which it can. *)
Lemma forEachFrom_throw {A St} (f : St → A → nat → completion St) e
    (P : A → Prop) l i st :
  (∀ st x j, ¬ P x → f st x j = Throw e) →
  (∀ st x j, P x → ∃ st', f st x j = Normal st') →
  (∀ x, Decision (P x)) →
  ¬ Forall P l → forEachFrom f l i st = Throw e.
Proof.
  intros Hthrow Hok Hdec Hl. revert i st.
  induction l as [|x l IH]; intros i st; simpl.
  - destruct Hl. constructor.
  - destruct (decide (P x)) as [Hx|Hx].
    + destruct (Hok st x i Hx) as [st' ->]. simpl. apply IH.
      intros Hl'. apply Hl. by constructor.
    + by rewrite Hthrow.
Qed.

Lemma omap_ext_elem_of {A B} (f g : A → option B) (l : list A) :
  (∀ x, x ∈ l → f x = g x) → omap f l = omap g l.
Proof.
  induction l as [|x l IH]; intros Hfg; [done|]. csimpl.
  rewrite (Hfg x) by left. rewrite IH; [done|]. intros y Hy. apply Hfg. by right.
Qed.

(** Every element of a list with the element before it: the pairs of
    consecutive messages, or of adjacent windows. *)
Definition consecutivePairs {A} (l : list A) : list (A * A) := zip l (drop 1 l).

Lemma consecutivePairs_snoc {A} (l : list A) x :
  consecutivePairs (l ++ [x]) =
    consecutivePairs l ++ from_option (λ p, [(p, x)]) [] (list.last l).
Proof.
  unfold consecutivePairs. destruct l as [|y l]; [done|]. simpl.
  rewrite drop_0. revert y. induction l as [|z l IH]; intros y; [done|].
  simpl. rewrite IH. done.
Qed.

Lemma consecutivePairs_lookup {A} (l : list A) k prev curr :
  consecutivePairs l !! k = Some (prev, curr) ↔
  l !! k = Some prev ∧ l !! S k = Some curr.
Proof.
  unfold consecutivePairs. rewrite lookup_zip_with_Some, lookup_drop. simpl.
  split.
  - intros (x & y & [= -> ->] & ? & ?). done.
  - intros [? ?]. by exists prev, curr.
Qed.

End AnalysisFacts.

(** ** The temporal aggregator *)

Module TemporalFacts.
Import Parser Analysis AnalysisFacts Temporal.

(** The minutes from [prev] to [curr]. *)
Definition minutesBetween (prev curr : message) : Qc :=
  let elapsed := default 0 (timestamp curr) - default 0 (timestamp prev) in
  (Qc_of_Z elapsed / Qc_of_Z 1000 / Qc_of_Z 60)%Qc.

(** The response time that the pair [(prev, curr)] adds to the samples of
    [who]: none when both have the same sender, none when the sender of
    [curr] is not [who], none from 1440 minutes on. *)
Definition sample (who : list Z) (pair : message * message) : option Qc :=
  if decide (sender pair.2 ≠ sender pair.1 ∧ sender pair.2 = who ∧
             (minutesBetween pair.1 pair.2 < Qc_of_Z 1440)%Qc)
  then Some (minutesBetween pair.1 pair.2)
  else None.

Definition samplesOf (who : list Z) (msgs : list message) : list Qc :=
  omap (sample who) (consecutivePairs msgs).

Definition mean (qs : list Qc) : Qc :=
  (foldr Qcplus 0 qs / Qc_of_Z (Z.of_nat (length qs)))%Qc.

(** A property of an object that holds an array of samples: absent until
    the first sample. *)
Definition recorded {A} (f : list Qc → A) (qs : list Qc) : option A :=
  match qs with
  | [] => None
  | _ => Some (f qs)
  end.

Lemma samplesOf_snoc who msgs x :
  samplesOf who (msgs ++ [x]) =
    samplesOf who msgs ++
    from_option (λ p, from_option (λ q, [q]) [] (sample who (p, x))) [] (list.last msgs).
Proof.
  unfold samplesOf. rewrite consecutivePairs_snoc, omap_app.
  destruct (list.last msgs) as [p|]; simpl; [|done].
  by destruct (sample who (p, x)).
Qed.

Lemma responseTime_valid prev curr :
  valid prev → valid curr →
  responseTime (timestamp curr) (timestamp prev) = Num (minutesBetween prev curr).
Proof.
  intros [p Hp] [t Ht]. unfold responseTime, minutesBetween, dateDiff.
  rewrite Hp, Ht. cbn [from_option]. unfold id.
  rewrite ndiv_ofZ by done. unfold ofZ. rewrite ndiv_Num; [done|].
  by rewrite Qc_of_Z_eq_0.
Qed.

(** Under 1440 minutes is under 86 400 000 milliseconds. *)
Lemma minutesBetween_lt_day prev curr :
  (minutesBetween prev curr < Qc_of_Z 1440)%Qc ↔
  default 0 (timestamp curr) - default 0 (timestamp prev) < 86400000.
Proof.
  unfold minutesBetween.
  generalize (default 0 (timestamp curr) - default 0 (timestamp prev)). intros d.
  cbv zeta. rewrite (Z2Qc_inj_lt d).
  replace (Qc_of_Z 86400000) with (Qc_of_Z 1440 * Qc_of_Z 60 * Qc_of_Z 1000)%Qc
    by (by rewrite <-!Z2Qc_inj_mul).
  assert (0 < Qc_of_Z 60)%Qc by by apply Qc_of_Z_pos.
  assert (0 < Qc_of_Z 1000)%Qc by by apply Qc_of_Z_pos.
  assert (Qc_of_Z d
          = Qc_of_Z d / Qc_of_Z 1000 / Qc_of_Z 60 * Qc_of_Z 60 * Qc_of_Z 1000)%Qc
    as Hd.
  { rewrite <-!(Qcmult_comm (Qc_of_Z 60)), <-!(Qcmult_comm (Qc_of_Z 1000)).
    rewrite !Qcmult_div_r; [done|..]; by apply not_symmetry, Qclt_not_eq. }
  rewrite Hd at 2. split.
  - intros. by do 2 (apply Qcmult_lt_compat_r; [done|]).
  - intros Hlt. apply Qclt_nge. intros Hle. apply Qclt_nge in Hlt. apply Hlt.
    by do 2 (apply Qcmult_le_compat_r; [|by apply Qclt_le_weak]).
Qed.

Lemma nsum_Num qs : nsum (Num <$> qs) = Num (foldr Qcplus 0%Qc qs).
Proof.
  unfold nsum, ofZ. rewrite Z2Qc_inj_0.
  assert (∀ a, foldl nadd (Num a) (Num <$> qs) = Num (a + foldr Qcplus 0 qs)%Qc) as Hf.
  { induction qs as [|q qs IH]; intros a; simpl.
    - by rewrite Qcplus_0_r.
    - by rewrite IH, Qcplus_assoc. }
  by rewrite Hf, Qcplus_0_l.
Qed.

(** The average of the code is the arithmetic mean. *)
Lemma average_Num qs : qs ≠ [] → average (Num <$> qs) = Num (mean qs).
Proof.
  intros Hqs. unfold average, mean. rewrite nsum_Num, length_fmap.
  unfold ofZ. rewrite ndiv_Num; [done|].
  rewrite Qc_of_Z_eq_0. destruct qs; [done|]. simpl. lia.
Qed.

Section host.
Context `{Host}.

Lemma recorded_snoc qs q :
  default [] (recorded (fmap Num) qs) ++ [Num q] = Num <$> (qs ++ [q]).
Proof. rewrite fmap_app. by destruct qs. Qed.

Lemma recorded_snoc_Some {A} (f : list Qc → A) qs q :
  recorded f (qs ++ [q]) = Some (f (qs ++ [q])).
Proof. by destruct qs. Qed.

(** One turn of the loop on a valid message, after the messages [done]. *)
Lemma step_samples msgs done x todo acc :
  msgs = done ++ x :: todo → Forall valid (done ++ [x]) →
  (∀ who, responseTimes acc !! who = recorded (fmap Num) (samplesOf who done)) →
  ∃ acc', step msgs acc x (length done) = Normal acc' ∧
    ∀ who, responseTimes acc' !! who
           = recorded (fmap Num) (samplesOf who (done ++ [x])).
Proof.
  intros -> Hv Hacc.
  assert (valid x) as Hx.
  { apply Forall_app in Hv as [_ Hv]. by apply Forall_cons_1 in Hv as [? _]. }
  apply Forall_app in Hv as [Hv _].
  unfold step. rewrite !isoPrefix_valid by done. simpl.
  destruct done as [|y done' _] using rev_ind.
  { simpl. eexists. split; [done|]. intros who. by rewrite Hacc. }
  rewrite length_app, Nat.add_1_r.
  replace (0 <? S (length done'))%nat with true by done.
  replace (S (length done') - 1)%nat with (length done') by lia.
  replace (((done' ++ [y]) ++ x :: todo) !! length done') with (Some y)
    by (by rewrite <-app_assoc; simpl; rewrite list_lookup_middle).
  simpl.
  assert (valid y) as Hy.
  { apply Forall_app in Hv as [_ Hv]. by apply Forall_cons_1 in Hv as [? _]. }
  assert (∀ who, samplesOf who ((done' ++ [y]) ++ [x]) =
            samplesOf who (done' ++ [y]) ++
            from_option (λ q, [q]) [] (sample who (y, x))) as Hsnoc.
  { intros who. by rewrite (samplesOf_snoc who (done' ++ [y])), list.last_snoc. }
  rewrite responseTime_valid by done.
  case_bool_decide as Hs; simpl.
  - unfold nltb, ofZ. case_bool_decide as Hlt; simpl.
    + eexists. split; [done|]. intros who. simpl. rewrite Hsnoc.
      unfold pushTo. destruct (decide (sender x = who)) as [<-|Hne].
      * rewrite lookup_insert_eq, Hacc.
        unfold sample. rewrite decide_True by done. simpl.
        by rewrite recorded_snoc, recorded_snoc_Some.
      * rewrite lookup_insert_ne, Hacc by done.
        unfold sample. rewrite decide_False by (simpl; tauto).
        simpl. by rewrite app_nil_r.
    + eexists. split; [done|]. intros who. simpl. rewrite Hsnoc, Hacc.
      unfold sample. rewrite decide_False by (simpl; tauto).
      simpl. by rewrite app_nil_r.
  - eexists. split; [done|]. intros who. simpl. rewrite Hsnoc, Hacc.
    unfold sample. rewrite decide_False by (simpl; tauto).
    simpl. by rewrite app_nil_r.
Qed.

(** The callback throws on a message whose timestamp is invalid. *)
Lemma step_throws msgs acc x i :
  ¬ valid x → step msgs acc x i = Throw RangeError.
Proof.
  intros Hx. unfold step.
  assert (timestamp x = None) as Hnone.
  { destruct (timestamp x) eqn:E; [|done]. destruct Hx. by eexists. }
  by rewrite !isoPrefix_invalid.
Qed.

Lemma loop_samples msgs todo : ∀ done acc,
  msgs = done ++ todo → Forall valid done →
  (∀ who, responseTimes acc !! who = recorded (fmap Num) (samplesOf who done)) →
  if decide (Forall valid todo) then
    ∃ acc', forEachFrom (step msgs) todo (length done) acc = Normal acc' ∧
      ∀ who, responseTimes acc' !! who = recorded (fmap Num) (samplesOf who msgs)
  else forEachFrom (step msgs) todo (length done) acc = Throw RangeError.
Proof.
  induction todo as [|x todo IH]; intros done acc Hm Hv Hacc.
  - rewrite decide_True by done. rewrite app_nil_r in Hm. subst. simpl. eauto.
  - cbn [forEachFrom]. destruct (decide (valid x)) as [Hx|Hx].
    + assert (Forall valid (done ++ [x])) as Hv'.
      { apply Forall_app. split; [done|]. by constructor. }
      destruct (step_samples msgs done x todo acc Hm Hv' Hacc) as (acc' & -> & Hacc').
      cbn [mbind completion_bind]. specialize (IH (done ++ [x]) acc').
      rewrite length_app, Nat.add_1_r in IH.
      specialize (IH ltac:(by rewrite <-app_assoc) Hv' Hacc').
      destruct (decide (Forall valid todo)) as [Ht|Ht].
      * rewrite decide_True by by constructor. done.
      * rewrite decide_False; [done|]. by intros [_ ?]%Forall_cons_1.
    + rewrite decide_False by by intros [? _]%Forall_cons_1.
      by rewrite step_throws.
Qed.

Lemma analyzeTemporalPatterns_throws msgs :
  ¬ Forall valid msgs → analyzeTemporalPatterns msgs = Throw RangeError.
Proof.
  intros Hv. unfold analyzeTemporalPatterns.
  pose proof (loop_samples msgs msgs [] (Accumulators ∅ (replicate 24 0) ∅ ∅)
                eq_refl (Forall_nil_2 _) (λ _, eq_refl)) as Hloop.
  rewrite decide_False in Hloop by done.
  change (length []) with 0%nat in Hloop. by rewrite Hloop.
Qed.


End host.

(** Four messages: A, A a minute later, B four minutes after that, and A two
    days later. *)
Definition chat (minute : Z) (who : string) : message :=
  {| timestamp := Some (1672574400000 + minute * 60000);
     date := []; time := []; sender := lit who; content := lit "hello";
     isMedia := false; isDeleted := false; lineNumber := 1 |}.

Definition fourMessages : list message :=
  [chat 0 "A"; chat 1 "A"; chat 5 "B"; chat 2885 "A"].


(** Of the three pairs only the second gives a sample: four minutes, for
    B. *)
Example samples_of_four_messages :
  this <$> samplesOf (lit "B") fourMessages = [4 # 1]%Q ∧
  samplesOf (lit "A") fourMessages = [].
Proof. split; vm_compute; reflexivity. Qed.

End TemporalFacts.

(** ** The relationship window analyzer *)

Module RelationshipFacts.
Import Parser Analysis AnalysisFacts Relationship.

(** *** The messages of each day *)

Definition grouped (msgs : list message) : gmap (list Z) (list message) :=
  foldl (λ byDay m, pushTo (dayOf m) m byDay) ∅ msgs.

(** The messages of the day [d], in their order. *)
Definition bucket (d : list Z) (msgs : list message) : list message :=
  filter (λ m, dayOf m = d) msgs.

Lemma grouping msgs :
  Forall valid msgs → forEachFrom dayStep msgs 0 ∅ = Normal (grouped msgs).
Proof.
  apply forEachFrom_fold. intros byDay m j Hm. unfold dayStep.
  by rewrite isoPrefix_valid.
Qed.

Lemma grouping_throws msgs :
  ¬ Forall valid msgs → forEachFrom dayStep msgs 0 ∅ = Throw RangeError.
Proof.
  apply forEachFrom_throw.
  - intros byDay m j Hm. unfold dayStep. rewrite isoPrefix_invalid; [done|].
    destruct (timestamp m) eqn:E; [|done]. destruct Hm. by eexists.
  - intros byDay m j Hm. unfold dayStep. rewrite isoPrefix_valid by done. eauto.
  - apply _.
Qed.

Lemma grouped_snoc msgs x :
  grouped (msgs ++ [x]) = pushTo (dayOf x) x (grouped msgs).
Proof. unfold grouped. by rewrite foldl_app. Qed.

Lemma grouped_lookup msgs d :
  grouped msgs !! d =
    match bucket d msgs with
    | [] => None
    | _ => Some (bucket d msgs)
    end.
Proof.
  induction msgs as [|x msgs IH] using rev_ind; [done|].
  rewrite grouped_snoc. unfold pushTo, bucket in *. rewrite filter_app.
  destruct (decide (dayOf x = d)) as [<-|Hne].
  - rewrite lookup_insert_eq, IH, filter_cons_True by done.
    destruct (filter _ msgs); simpl; [done|]. by destruct l.
  - rewrite lookup_insert_ne, IH, filter_cons_False by done.
    by rewrite filter_nil, app_nil_r.
Qed.

Lemma grouped_nonempty msgs d l : grouped msgs !! d = Some l → l ≠ [] ∧ l ⊆ msgs.
Proof.
  rewrite grouped_lookup. destruct (bucket d msgs) as [|m l'] eqn:Hb; [done|].
  intros [= <-]. split; [done|]. rewrite <-Hb.
  intros m'. unfold bucket. rewrite list_elem_of_filter. tauto.
Qed.

(** The days that have a message. *)
Lemma grouped_dom msgs : dom (grouped msgs) = list_to_set (dayOf <$> msgs).
Proof.
  apply set_eq. intros d. rewrite elem_of_dom, grouped_lookup, elem_of_list_to_set.
  rewrite list_elem_of_fmap. split.
  - destruct (bucket d msgs) as [|m l] eqn:Hb; [by intros [? ?]|]. intros _.
    assert (m ∈ bucket d msgs) as Hm by (rewrite Hb; left).
    apply list_elem_of_filter in Hm as [? ?]. eauto.
  - intros (m & -> & Hm).
    assert (m ∈ bucket (dayOf m) msgs) as Hb by by apply list_elem_of_filter.
    destruct (bucket (dayOf m) msgs); [by apply elem_of_nil in Hb|]. by eexists.
Qed.

(** *** The sorted days *)

Lemma sortedKeys_Permutation byDay : sortedKeys byDay ≡ₚ (map_to_list byDay).*1.
Proof. apply merge_sort_Permutation. Qed.

Lemma sortedKeys_NoDup byDay : NoDup (sortedKeys byDay).
Proof. rewrite sortedKeys_Permutation. apply NoDup_fst_map_to_list. Qed.

Lemma sortedKeys_elem_of byDay d : d ∈ sortedKeys byDay ↔ is_Some (byDay !! d).
Proof.
  rewrite sortedKeys_Permutation, list_elem_of_fmap. split.
  - intros ([d' l] & -> & Hl). apply elem_of_map_to_list in Hl. by eexists.
  - intros [l Hl]. exists (d, l). split; [done|]. by apply elem_of_map_to_list.
Qed.

Lemma sortedKeys_length byDay : length (sortedKeys byDay) = size byDay.
Proof. by rewrite sortedKeys_Permutation, length_fmap, length_map_to_list. Qed.

(** The days are in ascending order, each once. *)
Lemma sortedKeys_sorted byDay : StronglySorted str_le (sortedKeys byDay).
Proof. apply StronglySorted_merge_sort; apply _. Qed.

(** The number of days of the analysis is the number of distinct days of the
    messages. *)
Lemma sortedKeys_grouped_length msgs :
  length (sortedKeys (grouped msgs))
  = size (list_to_set (dayOf <$> msgs) : gset (list Z)).
Proof. by rewrite sortedKeys_length, <-grouped_dom, size_dom. Qed.

(** *** One window *)

Lemma windowDaysAt_length days i :
  (i + 30 ≤ length days)%nat → length (windowDaysAt days i) = 30%nat.
Proof.
  intros. unfold windowDaysAt. change (Z.to_nat WINDOW_SIZE) with 30%nat.
  rewrite length_take, length_drop. lia.
Qed.

Lemma windowDaysAt_sublist days i : windowDaysAt days i `sublist_of` days.
Proof.
  unfold windowDaysAt. etrans; [apply sublist_take|apply sublist_drop].
Qed.

Lemma windowDaysAt_lookup days i j :
  (j < 30)%nat → windowDaysAt days i !! j = days !! (i + j)%nat.
Proof.
  intros. unfold windowDaysAt. change (Z.to_nat WINDOW_SIZE) with 30%nat.
  by rewrite lookup_take_lt, lookup_drop.
Qed.

(** A window whose days all have a message has at least as many messages as
    days. *)
Lemma windowMessagesOf_length (byDay : gmap (list Z) (list message)) days :
  (∀ d, d ∈ days → ∃ l, byDay !! d = Some l ∧ l ≠ []) →
  (length days ≤ length (windowMessagesOf byDay days))%nat.
Proof.
  unfold windowMessagesOf. induction days as [|d days IH]; intros Hd; [simpl; lia|].
  rewrite bind_cons, length_app.
  destruct (Hd d) as (l & -> & Hl); [left|].
  assert (length days ≤ length (days ≫= λ day, default [] (byDay !! day)))%nat.
  { apply IH. intros d' Hd'. apply Hd. by right. }
  destruct l; [done|]. simpl length. lia.
Qed.

Lemma windowMessagesOf_subseteq (byDay : gmap (list Z) (list message)) days msgs :
  (∀ d l, byDay !! d = Some l → l ⊆ msgs) →
  windowMessagesOf byDay days ⊆ msgs.
Proof.
  intros Hb m. unfold windowMessagesOf. rewrite list_elem_of_bind.
  intros (d & Hm & _). destruct (byDay !! d) as [l|] eqn:Hl; simpl in Hm.
  - by eapply Hb.
  - by apply elem_of_nil in Hm.
Qed.

Section host.
Context `{Host}.

Lemma analyzeContentPatterns_valid msgs :
  Forall valid msgs → ∃ r, Content.analyzeContentPatterns msgs = Normal r.
Proof.
  intros Hv. unfold Content.analyzeContentPatterns.
  destruct (foldl Content.step _ msgs) as [lengths media].
  rewrite (forEachFrom_fold Content.monthStep
             (λ acc m, if negb (isMedia m) then pushTo (monthOf m) (content m) acc
                       else acc) valid); [by eexists| |done].
  intros acc m j Hm. unfold Content.monthStep.
  destruct (isMedia m); simpl; [done|]. by rewrite isoPrefix_valid.
Qed.

Lemma analyzeSentiment_valid msgs :
  Forall valid msgs → ∃ r, Sentiment.analyzeSentiment msgs = Normal r.
Proof.
  intros Hv. unfold Sentiment.analyzeSentiment.
  destruct (forEachFrom_Normal Sentiment.step valid msgs 0
              (Sentiment.Accumulators ∅ [] [])) as [acc' ->]; [|done|by eexists].
  intros acc m j [t Ht]. unfold Sentiment.step, isoPrefix. rewrite Ht. simpl.
  destruct (negb (isMedia m) && negb (isDeleted m)); by eexists.
Qed.

(** The window that starts at the day of index [i], when the 30 days from
    [i] on exist. *)
Lemma windowAt_full msgs i :
  Forall valid msgs →
  let byDay := grouped msgs in
  let days := sortedKeys byDay in
  let windowDays := windowDaysAt days i in
  let windowMessages := windowMessagesOf byDay windowDays in
  (i + 30 ≤ length days)%nat →
  ∃ w, windowAt byDay days i = Normal w ∧
    startDate w = days !! i ∧
    endDate w = days !! (i + 29)%nat ∧
    messageCount w = Z.of_nat (length windowMessages) ∧
    messagesBySender w = countBySender windowMessages ∧
    messagesPerDay w
      = Num (Qc_of_Z (Z.of_nat (length windowMessages)) / Qc_of_Z 30)%Qc ∧
    responseFrequency w
      = Num (Qc_of_Z (responseCountOf windowMessages)
             / Qc_of_Z (Z.of_nat (length windowMessages)))%Qc ∧
    (30 ≤ length windowMessages)%nat.
Proof.
  intros Hv byDay days windowDays windowMessages Hi.
  assert (length windowDays = 30%nat) as Hlen by by apply windowDaysAt_length.
  assert (30 ≤ length windowMessages)%nat as Hcount.
  { rewrite <-Hlen. apply windowMessagesOf_length. intros d Hd.
    assert (d ∈ days) as Hd'.
    { revert Hd. apply sublist_subseteq, windowDaysAt_sublist. }
    apply sortedKeys_elem_of in Hd' as [l Hl]. exists l. split; [done|].
    by eapply grouped_nonempty. }
  assert (Forall valid windowMessages) as Hwv.
  { rewrite Forall_forall in Hv. apply Forall_forall. intros m Hm. apply Hv.
    revert m Hm. apply windowMessagesOf_subseteq. intros d l Hl.
    by eapply grouped_nonempty. }
  destruct (analyzeContentPatterns_valid _ Hwv) as [ca Hca].
  destruct (analyzeSentiment_valid _ Hwv) as [sa Hsa].
  unfold windowAt. fold byDay days windowDays windowMessages.
  rewrite Hca, Hsa. simpl. eexists. split; [done|]. simpl.
  rewrite Hlen. split_and!; try done.
  - unfold windowDays. rewrite windowDaysAt_lookup by lia. f_equal. lia.
  - unfold windowDays. rewrite windowDaysAt_lookup by lia. done.
  - rewrite decide_False; [done|]. change (Q2Qc 0) with 0%Qc.
    rewrite Qc_of_Z_eq_0. lia.
Qed.

End host.

(** *** The loop over the windows *)

(** The number of turns of the loop for [n] days. *)
Definition windowCount (n : nat) : nat := ((n - 30 + 14) / 15)%nat.

Lemma windowCount_spec n k : (k < windowCount n ↔ 15 * k + 30 < n)%nat.
Proof.
  unfold windowCount.
  pose proof (Nat.div_mod (n - 30 + 14) 15 ltac:(done)).
  pose proof (Nat.mod_upper_bound (n - 30 + 14) 15 ltac:(done)).
  lia.
Qed.

Section host.
Context `{Host}.

Lemma windowLoop_spec msgs :
  Forall valid msgs →
  let byDay := grouped msgs in
  let days := sortedKeys byDay in
  let n := windowCount (length days) in
  ∀ fuel k acc,
    (n - k ≤ fuel)%nat → (k ≤ n)%nat →
    ∃ ws, windowLoop fuel byDay days (15 * k) acc = Normal (acc ++ ws) ∧
      Forall2 (λ j w, windowAt byDay days (15 * j) = Normal w) (seq k (n - k)) ws.
Proof.
  intros Hv byDay days n fuel.
  induction fuel as [|fuel IH]; intros k acc Hfuel Hk.
  - replace (n - k)%nat with 0%nat by lia. exists []. simpl.
    by rewrite app_nil_r.
  - cbn [windowLoop]. pose proof (windowCount_spec (length days) k) as Hspec.
    fold n in Hspec. change WINDOW_SIZE with 30.
    destruct (decide (k < n)%nat) as [Hlt|Hge].
    + rewrite (proj2 (Z.ltb_lt _ _)) by lia.
      destruct (windowAt_full msgs (15 * k) Hv) as (w & Hw & _); [fold byDay days; lia|].
      fold byDay days in Hw. rewrite Hw. cbn [mbind completion_bind].
      change windowStep with 15%nat.
      replace (15 * k + 15)%nat with (15 * S k)%nat by lia.
      destruct (IH (S k) (acc ++ [w]) ltac:(lia) ltac:(lia)) as (ws & Hloop & Hws).
      exists (w :: ws). rewrite Hloop, <-app_assoc. split; [done|].
      replace (n - k)%nat with (S (n - S k)) by lia. simpl. by constructor.
    + rewrite (proj2 (Z.ltb_ge _ _)) by lia.
      replace (n - k)%nat with 0%nat by lia. exists []. simpl.
      by rewrite app_nil_r.
Qed.

(** The analyzer returns, with one window for every turn of the loop, in
    the order of the turns. *)
Lemma analyzeRelationshipPatterns_windows msgs :
  Forall valid msgs →
  let byDay := grouped msgs in
  let days := sortedKeys byDay in
  ∃ ws, analyzeRelationshipPatterns msgs
          = Normal {| windowMetrics := ws; patternShifts := detectShifts ws |} ∧
    Forall2 (λ j w, windowAt byDay days (15 * j) = Normal w)
      (seq 0 (windowCount (length days))) ws.
Proof.
  intros Hv byDay days. unfold analyzeRelationshipPatterns.
  rewrite grouping by done. simpl. fold byDay days.
  destruct (windowLoop_spec msgs Hv (length days) 0 []) as (ws & Hloop & Hws).
  - fold byDay days. unfold windowCount.
    pose proof (Nat.div_mod (length days - 30 + 14) 15 ltac:(done)).
    pose proof (Nat.mod_upper_bound (length days - 30 + 14) 15 ltac:(done)).
    lia.
  - lia.
  - fold byDay days in Hloop, Hws. simpl in Hloop. rewrite Hloop. simpl.
    exists ws. split; [done|]. by rewrite Nat.sub_0_r in Hws.
Qed.

End host.

(** *** Pattern shifts *)

(** The absolute value of a change is above 0.3. *)
Definition exceeds (x : number) : Prop :=
  match x with
  | Num q => (Q2Qc (3 # 10) < Qcabs q)%Qc
  | PosInf | NegInf => True
  | NaN => False
  end.

#[local] Instance exceeds_dec x : Decision (exceeds x).
Proof. destruct x; simpl; apply _. Defined.

Lemma ngtb_exceeds x : ngtb (nabs x) threshold = true ↔ exceeds x.
Proof.
  unfold ngtb, threshold. destruct x; simpl; [|done..].
  by rewrite bool_decide_eq_true.
Qed.

(** The shift of two adjacent windows, if their change is large enough: it
    has the start date of the second window, the two changes and the two
    windows. *)
Definition shiftOfPair (pair : windowMetric * windowMetric) : option patternShift :=
  let frequencyChange :=
    relativeChange (messagesPerDay pair.2) (messagesPerDay pair.1) in
  let responseChange :=
    relativeChange (responseFrequency pair.2) (responseFrequency pair.1) in
  if decide (exceeds frequencyChange ∨ exceeds responseChange)
  then Some {| date := startDate pair.2;
               metrics := ShiftMetrics frequencyChange responseChange;
               prevWindow := pair.1;
               currWindow := pair.2 |}
  else None.

Lemma shiftAt_pair ws i prev curr :
  ws !! i = Some prev → ws !! S i = Some curr →
  shiftAt ws (S i) = shiftOfPair (prev, curr).
Proof.
  intros Hp Hc. unfold shiftAt, shiftOfPair.
  replace (S i - 1)%nat with i by lia. rewrite Hp, Hc.
  cbn [mbind option_bind fst snd].
  set (fc := relativeChange (messagesPerDay curr) (messagesPerDay prev)).
  set (rc := relativeChange (responseFrequency curr) (responseFrequency prev)).
  pose proof (ngtb_exceeds fc) as Hfc. pose proof (ngtb_exceeds rc) as Hrc.
  destruct (ngtb (nabs fc) threshold), (ngtb (nabs rc) threshold); simpl;
    first [ rewrite decide_True by tauto; done
          | rewrite decide_False; [done|];
            intros [?|?]; [apply Hfc in H|apply Hrc in H]; done ].
Qed.

(** The loop over the indices visits the pairs of adjacent windows, in
    order. *)
Lemma detectShifts_pairs ws :
  detectShifts ws = omap shiftOfPair (consecutivePairs ws).
Proof.
  unfold detectShifts. induction ws as [|x ws IH] using rev_ind; [done|].
  rewrite consecutivePairs_snoc, omap_app, <-IH, length_app. simpl.
  replace (length ws + 1 - 1)%nat with (length ws) by lia.
  destruct ws as [|y ws' _] using rev_ind; [done|].
  rewrite list.last_snoc, length_app. simpl.
  replace (length ws' + 1)%nat with (S (length ws' + 1 - 1)) at 1 by lia.
  rewrite seq_S, omap_app. simpl.
  replace (S (length ws' + 1 - 1)) with (S (length ws')) by lia.
  rewrite (shiftAt_pair _ (length ws') y x).
  - f_equal.
    apply omap_ext_elem_of. intros i Hi. apply elem_of_seq in Hi.
    unfold shiftAt.
    by rewrite !(lookup_app_l (ws' ++ [y])) by (rewrite length_app; simpl; lia).
  - rewrite <-app_assoc. simpl. by rewrite list_lookup_middle.
  - rewrite lookup_app_r by (rewrite length_app; simpl; lia).
    by rewrite length_app, Nat.add_1_r, Nat.sub_diag.
Qed.

(** *** The windows of an analysis *)

Section host.
Context `{Host}.

(** What the analysis of valid messages returns: the window of index [k]
    starts at the day of index [15 * k], which has 30 days from it on and
    at least one more after them. *)
Lemma windows_of_analysis msgs :
  Forall valid msgs →
  let byDay := grouped msgs in
  let days := sortedKeys byDay in
  ∃ r, analyzeRelationshipPatterns msgs = Normal r ∧
    patternShifts r = detectShifts (windowMetrics r) ∧
    length (windowMetrics r) = windowCount (length days) ∧
    ∀ k w, windowMetrics r !! k = Some w →
      (15 * k + 30 < length days)%nat ∧
      windowAt byDay days (15 * k) = Normal w.
Proof.
  intros Hv byDay days.
  destruct (analyzeRelationshipPatterns_windows msgs Hv) as (ws & Hr & Hws).
  fold byDay days in Hws. eexists. split; [done|]. simpl. split; [done|].
  split.
  - apply Forall2_length in Hws. by rewrite length_seq in Hws.
  - intros k w Hk.
    destruct (Forall2_lookup_r _ _ _ _ _ Hws Hk) as (j & Hj & Hw).
    apply lookup_seq in Hj as [-> Hlt]. simpl in Hw.
    split; [by apply windowCount_spec|done].
Qed.

End host.

(** The start indices of the windows of [n] days: the multiples of 15 with
    more than 30 days from them on.  Those the specification asks for are
    the multiples of 15 with at least 30 days from them on. *)
Definition multiplesOf15 (n : nat) : list nat := (λ k, 15 * k)%nat <$> seq 0 n.

Definition windowStarts (n : nat) : list nat :=
  filter (λ s, s + 30 < n)%nat (multiplesOf15 n).

Definition claimedStarts (n : nat) : list nat :=
  filter (λ s, s + 30 ≤ n)%nat (multiplesOf15 n).

Lemma filter_all {A} (P : A → Prop) `{∀ x, Decision (P x)} (l : list A) :
  Forall P l → filter P l = l.
Proof.
  induction 1 as [|x l Hx _ IH]; [done|]. by rewrite filter_cons_True, IH.
Qed.

Lemma filter_none {A} (P : A → Prop) `{∀ x, Decision (P x)} (l : list A) :
  Forall (λ x, ¬ P x) l → filter P l = [].
Proof.
  induction 1 as [|x l Hx _ IH]; [done|]. by rewrite filter_cons_False, IH.
Qed.

Lemma filter_fmap {A B} (f : A → B) (P : B → Prop) `{∀ y, Decision (P y)}
    (l : list A) :
  filter P (f <$> l) = f <$> filter (λ x, P (f x)) l.
Proof.
  induction l as [|x l IH]; [done|]. csimpl.
  destruct (decide (P (f x))).
  - rewrite !filter_cons_True by done. csimpl. by rewrite IH.
  - by rewrite !filter_cons_False, IH.
Qed.

Lemma filter_seq_lt (P : nat → Prop) `{∀ k, Decision (P k)} c n :
  (c ≤ n)%nat → (∀ k, P k ↔ k < c)%nat → filter P (seq 0 n) = seq 0 c.
Proof.
  intros Hc HP. replace n with (c + (n - c))%nat by lia.
  rewrite seq_app, filter_app. simpl.
  rewrite filter_all, filter_none.
  - by rewrite app_nil_r.
  - apply Forall_forall. intros k Hk%elem_of_seq. rewrite HP. lia.
  - apply Forall_forall. intros k Hk%elem_of_seq. apply HP. lia.
Qed.

Lemma windowStarts_count n :
  windowStarts n = (λ k, 15 * k)%nat <$> seq 0 (windowCount n).
Proof.
  unfold windowStarts, multiplesOf15. rewrite filter_fmap.
  rewrite (filter_seq_lt _ (windowCount n) n); [done| |].
  - unfold windowCount.
    pose proof (Nat.div_mod (n - 30 + 14) 15 ltac:(done)).
    pose proof (Nat.mod_upper_bound (n - 30 + 14) 15 ltac:(done)). lia.
  - intros k. simpl. rewrite windowCount_spec. lia.
Qed.

(** The starts of the specification are those of the loop, and one more
    when the days after the first 30 are a multiple of 15. *)
Lemma claimedStarts_count n :
  claimedStarts n =
    (λ k, 15 * k)%nat <$> seq 0 (if decide (n < 30)%nat then 0 else (n - 30) / 15 + 1)%nat.
Proof.
  unfold claimedStarts, multiplesOf15. rewrite filter_fmap.
  pose proof (Nat.div_mod (n - 30) 15 ltac:(done)).
  pose proof (Nat.mod_upper_bound (n - 30) 15 ltac:(done)).
  rewrite (filter_seq_lt _ (if decide (n < 30)%nat then 0 else (n - 30) / 15 + 1)%nat n);
    [done|..]; case_decide; try lia; intros k; cbn beta; lia.
Qed.

Lemma claimedStarts_windowStarts n :
  claimedStarts n =
    windowStarts n ++
    (if decide (30 ≤ n ∧ (n - 30) mod 15 = 0)%nat then [n - 30]%nat else []).
Proof.
  rewrite claimedStarts_count, windowStarts_count. unfold windowCount.
  pose proof (Nat.div_mod (n - 30) 15 ltac:(done)).
  pose proof (Nat.mod_upper_bound (n - 30) 15 ltac:(done)).
  pose proof (Nat.div_mod (n - 30 + 14) 15 ltac:(done)).
  pose proof (Nat.mod_upper_bound (n - 30 + 14) 15 ltac:(done)).
  repeat case_decide; try lia.
  - replace ((n - 30 + 14) / 15)%nat with 0%nat by lia. by rewrite app_nil_r.
  - replace ((n - 30) / 15 + 1)%nat with (S ((n - 30 + 14) / 15)) by lia.
    rewrite seq_S, fmap_app. f_equal. cbn [fmap list_fmap]. f_equal. lia.
  - replace ((n - 30) / 15 + 1)%nat with ((n - 30 + 14) / 15)%nat by lia.
    by rewrite app_nil_r.
Qed.

Section host.
Context `{Host}.

(** With an invalid timestamp among the messages the analyzer throws. *)
Lemma analyzeRelationshipPatterns_throws msgs :
  ¬ Forall valid msgs → analyzeRelationshipPatterns msgs = Throw RangeError.
Proof.
  intros Hv. unfold analyzeRelationshipPatterns. by rewrite grouping_throws.
Qed.

(** The windows of [n] distinct days start at the days of index 0, 15,
    30, ... that have more than 30 days from them on: the loop stops at
    [i < n - 30], so that the last 30 days make no window when [n - 30] is a
    multiple of 15. *)
Lemma windows_start_every_15_days msgs :
  Forall valid msgs →
  let days := sortedKeys (grouped msgs) in
  ∃ r, analyzeRelationshipPatterns msgs = Normal r ∧
    startDate <$> windowMetrics r = (λ s, days !! s) <$> windowStarts (length days).
Proof.
  intros Hv days.
  destruct (windows_of_analysis msgs Hv) as (r & Hr & _ & Hlen & Hw).
  fold days in Hlen, Hw. exists r. split; [done|].
  rewrite windowStarts_count, <-list_fmap_compose.
  apply list_eq. intros k. rewrite !list_lookup_fmap.
  destruct (windowMetrics r !! k) as [w|] eqn:Hk; simpl.
  - destruct (Hw k w Hk) as [Hlt Hwin].
    destruct (windowAt_full msgs (15 * k) Hv) as (w' & Hw' & Hstart & _).
    { fold days. lia. }
    fold days in Hw', Hstart. rewrite Hwin in Hw'. injection Hw' as <-.
    rewrite lookup_seq_lt; [by simpl; f_equal|].
    apply lookup_lt_Some in Hk. by rewrite <-Hlen.
  - apply lookup_ge_None in Hk. rewrite Hlen in Hk.
    by rewrite lookup_seq_ge.
Qed.

End host.

(** One message a day for [n] days from noon of the first of January 2023
    (UTC) on; [who k] sends the message of day [k]. *)
Definition dailyMessage (who : nat → list Z) (k : nat) : message :=
  {| timestamp := Some (1672574400000 + Z.of_nat k * msPerDay);
     Parser.date := []; time := []; sender := who k; content := lit "hello";
     isMedia := false; isDeleted := false; lineNumber := S k |}.

Definition dailyMessages (who : nat → list Z) (n : nat) : list message :=
  dailyMessage who <$> seq 0 n.

Definition alone : nat → list Z := λ _, lit "A".

(** C1, at 30 days.  Messages on 30 distinct days have the 30 days of a
    window, which the specification asks for at the day of index 0; the
    analyzer returns no window. *)
Theorem thirty_days_give_no_window :
  let msgs := dailyMessages alone 30 in
  length (sortedKeys (grouped msgs)) = 30%nat ∧
  claimedStarts 30 = [0%nat] ∧
  windowStarts 30 = [] ∧
  analyzeRelationshipPatterns (H:=utcHost) msgs
    = Normal {| windowMetrics := []; patternShifts := [] |}.
Proof. repeat split; vm_compute; reflexivity. Qed.

(** At 61 days the windows are the three of the specification; at 60 days
    the third is missing. *)
Example sixty_one_days_give_three_windows :
  (λ r, startDate <$> windowMetrics r) <$>
    analyzeRelationshipPatterns (H:=utcHost) (dailyMessages alone 61)
  = Normal [Some (lit "2023-01-01"); Some (lit "2023-01-16"); Some (lit "2023-01-31")]
  ∧ windowStarts 61 = [0; 15; 30]%nat ∧ claimedStarts 61 = [0; 15; 30]%nat.
Proof. repeat split; vm_compute; reflexivity. Qed.

Example sixty_days_give_two_windows :
  (λ r, startDate <$> windowMetrics r) <$>
    analyzeRelationshipPatterns (H:=utcHost) (dailyMessages alone 60)
  = Normal [Some (lit "2023-01-01"); Some (lit "2023-01-16")]
  ∧ windowStarts 60 = [0; 15]%nat ∧ claimedStarts 60 = [0; 15; 30]%nat.
Proof. repeat split; vm_compute; reflexivity. Qed.

(** The two changes of the specification: from 10 to 14 messages a day,
    and from 10 to 12. *)
Lemma change_10_to_14 : exceeds (relativeChange (ofZ 14) (ofZ 10)).
Proof. by vm_compute. Qed.

Lemma change_10_to_12 : ¬ exceeds (relativeChange (ofZ 12) (ofZ 10)).
Proof. by vm_compute. Qed.

Section host.
Context `{Host}.


End host.

(** *** Divisions *)

(** Messages of one sender have no response among them. *)
Lemma responseCountOf_one_sender wm who :
  (∀ m, m ∈ wm → sender m = who) → responseCountOf wm = 0.
Proof.
  intros Hwho. unfold responseCountOf. rewrite filter_none; [done|].
  apply Forall_forall. intros j Hj%elem_of_seq Hne. apply Hne.
  destruct (lookup_lt_is_Some_2 wm j) as [m Hm]; [lia|].
  destruct (lookup_lt_is_Some_2 wm (j - 1)) as [m' Hm']; [lia|].
  rewrite Hm, Hm'. simpl. f_equal.
  rewrite (Hwho m), (Hwho m'); [done|by eapply list_elem_of_lookup_2..].
Qed.

(** A change from zero is no finite number: it is the division of a number
    by zero. *)
Lemma relativeChange_from_zero curr q : relativeChange curr (Num 0) ≠ Num q.
Proof.
  unfold relativeChange, nsub, nneg, nadd, ndiv.
  destruct curr; repeat case_decide; done.
Qed.

Lemma relativeChange_finite a b :
  b ≠ 0%Qc → ∃ q, relativeChange (Num a) (Num b) = Num q.
Proof.
  intros Hb. unfold relativeChange, nsub, nneg, nadd.
  rewrite ndiv_Num by done. by eexists.
Qed.

(** One message a day for 46 days: of A alone for 30 days, then of A and B
    in turn. *)
Definition thenBoth : nat → list Z :=
  λ k, if (k <? 30)%nat then lit "A" else if Nat.even k then lit "A" else lit "B".

(** The first window of these messages has no response, and the change of
    the response frequency to the second window is a division by zero: it
    is infinite, and makes a shift. *)
Lemma response_change_by_zero :
  ∃ r prev curr,
    analyzeRelationshipPatterns (H:=utcHost) (dailyMessages thenBoth 46) = Normal r ∧
    windowMetrics r = [prev; curr] ∧
    responseFrequency prev = Num 0 ∧
    relativeChange (responseFrequency curr) (responseFrequency prev) = PosInf ∧
    length (patternShifts r) = 1%nat.
Proof.
  eexists _, _, _. split; [vm_compute; reflexivity|].
  split; [reflexivity|].
  split; [simpl; by apply (f_equal Num), Qc_is_canon|].
  split; [by vm_compute|reflexivity].
Qed.

Section host.
Context `{Host}.


End host.



(** *** Ten messages a day, then fourteen or twelve *)

(** The messages of [n] days, [perDay k] of them on the day [k], a minute
    apart, of A and B in turn. *)
Definition busyDay (perDay : nat → nat) (k : nat) : list message :=
  (λ j, {| timestamp := Some (1672574400000 + Z.of_nat k * msPerDay
                              + Z.of_nat j * msPerMinute);
           Parser.date := []; time := [];
           sender := if Nat.even j then lit "A" else lit "B";
           content := lit "hello";
           isMedia := false; isDeleted := false; lineNumber := S j |})
  <$> seq 0 (perDay k).

Definition busyDays (perDay : nat → nat) (n : nat) : list message :=
  seq 0 n ≫= busyDay perDay.

(** 10 messages a day for 30 days and 18 a day after them: the windows have
    10 and 14 messages a day, and there is a shift at the second. *)
Example shift_from_10_to_14 :
  let r := analyzeRelationshipPatterns (H:=utcHost)
             (busyDays (λ k, if (k <? 30)%nat then 10 else 18)%nat 46) in
  (λ r, messageCount <$> windowMetrics r) <$> r = Normal [300; 420] ∧
  (λ r, date <$> patternShifts r) <$> r = Normal [Some (lit "2023-01-16")].
Proof. split; vm_compute; reflexivity. Qed.

(** With 14 a day after the 30 days the windows have 10 and 12 messages a
    day, and there is no shift. *)
Example no_shift_from_10_to_12 :
  let r := analyzeRelationshipPatterns (H:=utcHost)
             (busyDays (λ k, if (k <? 30)%nat then 10 else 14)%nat 46) in
  (λ r, messageCount <$> windowMetrics r) <$> r = Normal [300; 360] ∧
  (λ r, length (patternShifts r)) <$> r = Normal 0%nat.
Proof. split; vm_compute; reflexivity. Qed.

End RelationshipFacts.

(** ** The orchestrator and the pipeline *)

Module ReportFacts.
Import Parser Analysis AnalysisFacts Report Pipeline.

Section host.
Context `{Host}.

(** The analysis of messages that are there, with valid timestamps,
    returns. *)
Lemma analyzeWhatsAppChat_returns msgs :
  msgs ≠ [] → Forall valid msgs → ∃ r, analyzeWhatsAppChat msgs = Normal r.
Proof.
  intros Hne Hv. unfold analyzeWhatsAppChat.
  destruct (lookup_lt_is_Some_2 msgs 0) as [first Hfirst].
  { destruct msgs; [done|]. simpl. lia. }
  destruct (lookup_lt_is_Some_2 msgs (length msgs - 1)) as [last Hlast].
  { destruct msgs; [done|]. simpl. lia. }
  rewrite Hfirst, Hlast. simpl.
  pose proof (TemporalFacts.loop_samples msgs msgs []
                (Temporal.Accumulators ∅ (replicate 24 0) ∅ ∅)
                eq_refl (Forall_nil_2 _) (λ _, eq_refl)) as Hloop.
  rewrite decide_True in Hloop by done. destruct Hloop as (acc & Hacc & _).
  unfold Temporal.analyzeTemporalPatterns.
  change (length []) with 0%nat in Hacc. rewrite Hacc.
  destruct (RelationshipFacts.analyzeContentPatterns_valid msgs Hv) as [ca ->].
  destruct (RelationshipFacts.analyzeSentiment_valid msgs Hv) as [sa ->].
  destruct (RelationshipFacts.windows_of_analysis msgs Hv) as (ra & -> & _).
  simpl. by eexists.
Qed.

(** The messages read back from the saved file have valid timestamps. *)
Lemma reloaded_valid saved : Forall valid (reloaded <$> saved).
Proof. apply Forall_fmap, Forall_forall. intros m _. by eexists. Qed.

Context {VisData : Type} (processVisualizationData : analysis → option VisData).

(** C9. Given no message the orchestrator throws: it reads the timestamp of
    a last message that is not there.  [processAnalysis] then has no
    analysis to save or return, and the pipeline does not come to it: it
    stops when the parser returns no message. *)
Theorem empty_sequence_aborts :
  analyzeWhatsAppChat [] = Throw TypeError ∧
  processAnalysis [] = None ∧
  ∀ chatText,
    runPipeline processVisualizationData chatText =
      if bool_decide (parseCustomChat chatText = []) then None
      else
        analysis ← processAnalysis (parseCustomChat chatText);
        visData ← processVisualizationData analysis;
        Some (parseCustomChat chatText, analysis, visData).
Proof.
  split; [done|]. split; [done|]. intros chatText.
  unfold runPipeline, processChat.
  destruct (parseCustomChat chatText) as [|m ms]; done.
Qed.

End host.

(** A file with no header line gives no message, and the pipeline stops
    before the analysis. *)
Example pipeline_without_messages {VisData} (vis : analysis → option VisData) :
  parseCustomChat (H:=utcHost) (lit "no header here") = [] ∧
  runPipeline (H:=utcHost) vis (lit "no header here") = None.
Proof. split; reflexivity. Qed.

End ReportFacts.
(** ** The parser on whole transcripts *)

Module TranscriptFacts.
Import Parser ParserFacts.

(** The header lines of a transcript, each with its index. *)
Definition headerLines (lines : list (list Z)) : list (nat * list Z) :=
  filter (λ il, is_Some (matchLine il.2)) (imap pair lines).

(** The header lines among [lines], the first of which has index [i]. *)
Fixpoint headerLinesFrom (i : nat) (lines : list (list Z)) : list (nat * list Z) :=
  match lines with
  | [] => []
  | l :: ls =>
      if decide (is_Some (matchLine l)) then (i, l) :: headerLinesFrom (S i) ls
      else headerLinesFrom (S i) ls
  end.

Lemma headerLinesFrom_imap i lines :
  headerLinesFrom i lines
  = filter (λ il, is_Some (matchLine il.2)) (imap (λ j l, ((i + j)%nat, l)) lines).
Proof.
  revert i. induction lines as [|l ls IH]; intros i; [done|].
  rewrite imap_cons. cbn [headerLinesFrom]. rewrite filter_cons. cbn [snd].
  rewrite Nat.add_0_r, IH.
  replace (imap ((λ j l0, ((i + j)%nat, l0)) ∘ S) ls)
    with (imap (λ j l0, ((S i + j)%nat, l0)) ls); [done|].
  apply imap_ext. intros j x _. simpl. f_equal. lia.
Qed.

Lemma headerLines_from lines : headerLines lines = headerLinesFrom 0 lines.
Proof. by rewrite headerLinesFrom_imap. Qed.

Section host.
Context `{Host}.

(** The message [m] was opened by the header line [il.2] of index [il.1]:
    all but its content is as the header made it, and its content starts
    with the content of the header. *)
Definition openedBy (m : message) (il : nat * list Z) : Prop :=
  ∃ d t s c,
    matchLine il.2 = Some (d, t, s, c) ∧
    lineNumber m = S il.1 ∧
    timestamp m = timestamp (newMessage il.1 d t s c) ∧
    date m = d ∧ time m = t ∧ sender m = trim s ∧
    isMedia m = includesAny mediaMarkers c ∧
    isDeleted m = includesAny deletionMarkers c ∧
    c `prefix_of` content m.

Lemma openedBy_newMessage i line d t s c :
  matchLine line = Some (d, t, s, c) → openedBy (newMessage i d t s c) (i, line).
Proof.
  intros Hm. exists d, t, s, c. simpl. split_and!; try done. lia.
Qed.

Lemma openedBy_appendLine m il line : openedBy m il → openedBy (appendLine m line) il.
Proof.
  intros (d & t & s & c & ? & ? & ? & ? & ? & ? & ? & ? & ?).
  exists d, t, s, c. simpl. split_and!; try done. by apply prefix_app_r.
Qed.

Lemma forEach_openedBy lines : ∀ i st prev,
  Forall2 openedBy (pushCurrent st) prev →
  Forall2 openedBy (pushCurrent (forEach lines i st)) (prev ++ headerLinesFrom i lines).
Proof.
  induction lines as [|l ls IH]; intros i st prev Hprev; simpl.
  - by rewrite app_nil_r.
  - destruct (decide (blank l)) as [Hb|Hb].
    { rewrite processLine_blank by done.
      rewrite decide_False; [by apply IH|].
      intros [g Hg]. by eapply matchLine_not_blank. }
    destruct (matchLine l) as [[[[d t] s] c]|] eqn:Hl.
    + rewrite decide_True by done.
      rewrite (processLine_header _ _ _ _ _ _ _ Hl).
      replace (prev ++ (i, l) :: headerLinesFrom (S i) ls)
        with ((prev ++ [(i, l)]) ++ headerLinesFrom (S i) ls) by by rewrite <-app_assoc.
      apply IH. rewrite pushCurrent_open. apply Forall2_app; [done|].
      constructor; [|done]. by apply openedBy_newMessage.
    + rewrite decide_False by by intros [? [=]].
      destruct st as [ms [m|] ws].
      * rewrite processLine_continuation_open by done.
        apply IH. rewrite pushCurrent_open in *.
        apply Forall2_app_inv_l in Hprev as (p1 & p2 & Hp1 & Hp2 & ->).
        apply Forall2_app; [done|].
        inversion Hp2 as [|???? Hm Hnil]; subst. constructor; [|done].
        by apply openedBy_appendLine.
      * apply IH. unfold processLine.
        rewrite bool_decide_eq_false_2, Hl by done. done.
Qed.

(** The parser returns one message for every header line of the text and
    no other, in the order of the lines: the message of a header line has
    its line number, its date, time and trimmed sender, the timestamp and the
    flags computed from it, and a content that starts with its content. *)
Theorem one_message_per_header_line chatText :
  Forall2 openedBy (parseCustomChat chatText) (headerLines (split LF chatText)).
Proof.
  unfold parseCustomChat, parseLines. rewrite headerLines_from.
  apply (forEach_openedBy _ 0 _ []). constructor.
Qed.

(** *** Text before the first header *)

(** The messages do not depend on the warnings printed so far. *)
Lemma forEach_warnings_irrelevant lines : ∀ i ms cur ws ws',
  messages (forEach lines i (State ms cur ws))
    = messages (forEach lines i (State ms cur ws')) ∧
  currentMessage (forEach lines i (State ms cur ws))
    = currentMessage (forEach lines i (State ms cur ws')).
Proof.
  induction lines as [|l ls IH]; intros i ms cur ws ws'; [done|].
  cbn [forEach]. unfold processLine. cbn [messages currentMessage warnings].
  case_bool_decide; [apply IH|].
  destruct (matchLine l) as [[[[d t] s] c]|]; [apply IH|].
  destruct cur; apply IH.
Qed.

(** Once a message is open no line is warned about. *)
Lemma forEach_open_warnings lines : ∀ i st,
  is_Some (currentMessage st) → warnings (forEach lines i st) = warnings st.
Proof.
  induction lines as [|l ls IH]; intros i st Hc; [done|].
  cbn [forEach]. rewrite IH.
  - unfold processLine. case_bool_decide; [done|].
    destruct (matchLine l) as [[[[d t] s] c]|]; [done|].
    by destruct Hc as [m ->].
  - unfold processLine. case_bool_decide; [done|].
    destruct (matchLine l) as [[[[d t] s] c]|]; [done|].
    by destruct Hc as [m ->].
Qed.

(** The warnings for the lines of [pre], the first of which has index
    [i]. *)
Definition warned (i : nat) (pre : list (list Z)) : list (nat * list Z) :=
  filter (λ w, ¬ blank w.2) (imap (λ j l, (S (i + j), l)) pre).

Lemma forEach_no_header pre : ∀ i ws,
  Forall (λ l, matchLine l = None) pre →
  forEach pre i (State [] None ws) = State [] None (ws ++ warned i pre).
Proof.
  induction pre as [|l ls IH]; intros i ws Hpre.
  - unfold warned. simpl. by rewrite app_nil_r.
  - apply Forall_cons_1 in Hpre as [Hl Hls]. cbn [forEach].
    unfold warned. rewrite imap_cons, filter_cons. cbn [snd]. rewrite Nat.add_0_r.
    replace (imap ((λ j l0, (S (i + j), l0)) ∘ S) ls)
      with (imap (λ j l0, (S (S i + j), l0)) ls)
      by (apply imap_ext; intros j x _; simpl; do 2 f_equal; lia).
    destruct (decide (blank l)) as [Hb|Hb].
    + rewrite processLine_blank by done.
      rewrite decide_False by tauto. by apply IH.
    + rewrite decide_True by done.
      unfold processLine. rewrite bool_decide_eq_false_2, Hl by done.
      cbn [currentMessage messages warnings].
      rewrite IH by done. unfold warned. rewrite <-app_assoc.
      by replace (i + 1)%nat with (S i) by lia.
Qed.

(** Until the first header line, a line that is not blank is reported with
    its number and lost: no message holds it.  From the first header on no
    line is reported, and the messages are those of the lines from that
    header on. *)
Theorem text_before_first_header chatText pre rest :
  split LF chatText = pre ++ rest →
  Forall (λ l, matchLine l = None) pre →
  (∀ l, head rest = Some l → is_Some (matchLine l)) →
  warnings (parseLines (split LF chatText))
    = filter (λ w, ¬ blank w.2) (imap (λ j l, (S j, l)) pre) ∧
  parseCustomChat chatText
    = pushCurrent (forEach rest (length pre) (State [] None [])).
Proof.
  intros Hs Hpre Hrest. unfold parseCustomChat, parseLines. rewrite Hs.
  rewrite forEach_app, forEach_no_header by done. cbn [app Nat.add].
  split.
  - destruct rest as [|h rest]; [done|].
    destruct (Hrest h eq_refl) as [[[[d t] s] c] Hh].
    cbn [forEach]. rewrite (processLine_header _ _ _ _ _ _ _ Hh).
    by rewrite forEach_open_warnings.
  - unfold pushCurrent.
    destruct (forEach_warnings_irrelevant rest (length pre) [] None (warned 0 pre) [])
      as [-> ->]. done.
Qed.

End host.

Lemma text_before_first_header_witness :
  let header := lit "[01/02/23, 10:00:00 AM] Ann: hi" in
  let chatText := lit "Messages are encrypted." ++ [LF] ++ [LF] ++ header in
  let pre := [lit "Messages are encrypted."; []] in
  split LF chatText = pre ++ [header] ∧
  warnings (parseLines (H:=utcHost) (split LF chatText))
    = filter (λ w, ¬ blank w.2) (imap (λ j l, (S j, l)) pre) ∧
  parseCustomChat (H:=utcHost) chatText
    = pushCurrent (forEach (H:=utcHost) [header] (length pre) (State [] None [])).
Proof.
  split; [reflexivity|].
  apply (text_before_first_header (H:=utcHost)
           (lit "Messages are encrypted." ++ [LF] ++ [LF] ++
            lit "[01/02/23, 10:00:00 AM] Ann: hi")
           [lit "Messages are encrypted."; []]
           [lit "[01/02/23, 10:00:00 AM] Ann: hi"]).
  - reflexivity.
  - repeat constructor.
  - intros l [= <-]. by eexists.
Defined.

(** *** The shape of a header line *)

(** A header line from its groups and the white spaces between them. *)
Definition headerText (d t : list Z) (w0 w1 : Z) (s : list Z) (w2 : Z) (c : list Z)
    : list Z :=
  code "[" :: d ++ code "," :: w0 :: t ++ code "]" :: w1 :: s ++ code ":" :: w2 :: c.

(** A text that [.+] matches to its end. *)
Definition dotText (s : list Z) : Prop := s ≠ [] ∧ forallb isDot s = true.

Lemma restOfLine_inv s c : restOfLine s = Some c → c = s ∧ dotText s.
Proof.
  unfold restOfLine, dotText. destruct s as [|x s]; [done|].
  destruct (forallb isDot (x :: s)); [|done]. by intros [= <-].
Qed.

Lemma restOfLine_dotText s : dotText s → restOfLine s = Some s.
Proof.
  unfold restOfLine, dotText. intros [Hne Hs]. destruct s as [|x s]; [done|].
  by rewrite Hs.
Qed.

Lemma senderContent_inv s : ∀ acc snd c,
  senderContent acc s = Some (snd, c) →
  ∃ mid w, s = mid ++ code ":" :: w :: c ∧ snd = acc ++ mid ∧ snd ≠ [] ∧
    isSpace w = true ∧ dotText c ∧ forallb isDot mid = true.
Proof.
  induction s as [|x s IH]; intros acc snd c Hs; [done|].
  cbn [senderContent] in Hs.
  destruct (match acc with
            | [] => None
            | _ :: _ => s1 ← chr (code ":") (x :: s); '(_, s2) ← space s1; restOfLine s2
            end) as [content|] eqn:Hhere.
  - injection Hs as <- <-. destruct acc as [|a acc]; [done|].
    destruct (chr (code ":") (x :: s)) as [s1|] eqn:E1; [|done]. simpl in Hhere.
    destruct (space s1) as [[w s2]|] eqn:E2; [|done]. simpl in Hhere.
    apply chr_inv in E1. apply space_inv in E2 as [Hw ->].
    apply restOfLine_inv in Hhere as [-> Hc].
    exists [], w. by rewrite app_nil_r.
  - destruct (isDot x) eqn:Hx; [|done].
    apply IH in Hs as (mid & w & -> & -> & Hne & Hw & Hc & Hmid).
    exists (x :: mid), w. rewrite <-app_assoc in *. simpl in *.
    by rewrite Hx, Hmid.
Qed.

Lemma senderContent_text mid : ∀ acc w c,
  acc ++ mid ≠ [] → code ":" ∉ mid → forallb isDot mid = true →
  isSpace w = true → dotText c →
  senderContent acc (mid ++ code ":" :: w :: c) = Some (acc ++ mid, c).
Proof.
  induction mid as [|x mid IH]; intros acc w c Hne Hcolon Hmid Hw Hc.
  - rewrite app_nil_r in *. destruct acc as [|a acc]; [done|].
    cbn [app senderContent chr]. rewrite Z.eqb_refl. cbn [mbind option_bind space].
    rewrite Hw. cbn [mbind option_bind]. by rewrite restOfLine_dotText.
  - apply not_elem_of_cons in Hcolon as [Hx Hcolon].
    cbn [forallb] in Hmid. apply andb_true_iff in Hmid as [Hdot Hmid].
    cbn [app senderContent chr].
    rewrite (proj2 (Z.eqb_neq x (code ":"))) by done. cbn [mbind option_bind].
    replace (match acc with [] => None | _ :: _ => None end)
      with (@None (list Z)) by by destruct acc.
    rewrite Hdot, IH; try done.
    + by rewrite <-app_assoc.
    + by destruct acc.
Qed.

(** The groups of a header line and the characters between them give the
    line back: the line is an opening bracket, the date, a comma, a white
    space, the time, a closing bracket, a white space, the sender, a colon,
    a white space and the content; the sender and the content are not empty
    and hold no line terminator. *)
Lemma header_shape b line d t s c :
  header b line = Some (d, t, s, c) →
  ∃ w0 w1 w2,
    line = headerText d t w0 w1 s w2 c ∧
    isSpace w0 = true ∧ isSpace w1 = true ∧ isSpace w2 = true ∧
    dotText s ∧ dotText c.
Proof.
  unfold header. intros Hs.
  destruct (chr (code "[") line) as [s0|] eqn:E0; [|done]. simpl in Hs.
  destruct (dateField s0) as [[d' s1]|] eqn:E1; [|done]. simpl in Hs.
  destruct (chr (code ",") s1) as [s2|] eqn:E2; [|done]. simpl in Hs.
  destruct (space s2) as [[w0 s3]|] eqn:E3; [|done]. simpl in Hs.
  destruct (timeField b s3) as [[t' s4]|] eqn:E4; [|done]. simpl in Hs.
  destruct (chr (code "]") s4) as [s5|] eqn:E5; [|done]. simpl in Hs.
  destruct (space s5) as [[w1 s6]|] eqn:E6; [|done]. simpl in Hs.
  destruct (senderContent [] s6) as [[s' c']|] eqn:E7; [|done]. simpl in Hs.
  injection Hs as -> -> -> ->.
  apply chr_inv in E0, E2, E5. apply space_inv in E3 as [Hw0 E3], E6 as [Hw1 E6].
  apply dateField_inv in E1 as (d1 & d2 & m1 & m2 & y1 & y2 & Hd & -> & E1).
  apply timeField_inv in E4 as (hh & mi & ss & w & ap & -> & E4 & _).
  apply senderContent_inv in E7 as (mid & w2 & E7 & Hmid & Hne & Hw2 & Hc & Hdot).
  simpl in Hmid. subst mid.
  exists w0, w1, w2. split_and!; try done.
  unfold headerText. by subst.
Qed.

Lemma matchLine_header line g : matchLine line = Some g → ∃ b, header b line = Some g.
Proof.
  unfold matchLine. intros Hm. destruct (customPattern line) as [g'|] eqn:Hc.
  - injection Hm as ->. by exists true.
  - by exists false.
Qed.

(** A header line gives its groups back with the characters between them:
    it is an opening bracket, the date, a comma, a white space, the time, a
    closing bracket, a white space, the sender, a colon, a white space and
    the content; the sender and the content are not empty and hold no line
    terminator. *)
Theorem header_groups_give_the_line line d t s c :
  matchLine line = Some (d, t, s, c) →
  ∃ w0 w1 w2,
    line = headerText d t w0 w1 s w2 c ∧
    isSpace w0 = true ∧ isSpace w1 = true ∧ isSpace w2 = true ∧
    dotText s ∧ dotText c.
Proof.
  intros [b Hb]%matchLine_header. by eapply header_shape.
Qed.

Lemma header_groups_give_the_line_witness :
  let line := lit "[01/02/23, 9:15 PM] Ann Lee: see: you" in
  matchLine line
    = Some (lit "01/02/23", lit "9:15 PM", lit "Ann Lee", lit "see: you") ∧
  ∃ w0 w1 w2,
    line = headerText (lit "01/02/23") (lit "9:15 PM") w0 w1 (lit "Ann Lee") w2
             (lit "see: you") ∧
    isSpace w0 = true ∧ isSpace w1 = true ∧ isSpace w2 = true ∧
    dotText (lit "Ann Lee") ∧ dotText (lit "see: you").
Proof.
  split; [reflexivity|].
  apply (header_groups_give_the_line (lit "[01/02/23, 9:15 PM] Ann Lee: see: you")).
  reflexivity.
Defined.

(** Runs the matchers of the goal on a text whose characters are known. *)
Ltac run_matchers :=
  repeat first
    [ progress cbn [app mbind option_bind chr twoDigits oneOrTwoDigits space andb
                    from_option]
    | rewrite Z.eqb_refl
    | match goal with H : isDigit _ = true |- _ => rewrite H end
    | match goal with H : isDigit _ = false |- _ => rewrite H end
    | match goal with H : isSpace _ = true |- _ => rewrite H end
    | match goal with H : meridiemLetter _ = _ |- _ => rewrite H end ].

Lemma dateField_text d1 d2 m1 m2 y1 y2 rest :
  Forall (λ c, isDigit c = true) [d1; d2; m1; m2; y1; y2] →
  dateField (dateText d1 d2 m1 m2 y1 y2 ++ rest)
    = Some (dateText d1 d2 m1 m2 y1 y2, rest).
Proof.
  intros Hd. repeat (apply Forall_cons_1 in Hd as [? Hd]).
  unfold dateField, dateText. by run_matchers.
Qed.

Lemma timeField_text hh mi ss w ap rest :
  wellFormedTime hh mi ss w ap →
  timeField (bool_decide (is_Some ss)) (timeText hh mi ss w ap ++ rest)
    = Some (timeText hh mi ss w ap, rest).
Proof.
  intros (Hhh & Hmi & Hss & Hw & Hap).
  assert (meridiemLetter (ap :: code "M" :: rest) = Some (ap, code "M" :: rest)) as Hml.
  { unfold meridiemLetter. destruct Hap as [-> | ->]; reflexivity. }
  assert (isDigit (code ":") = false) as Hcolon by reflexivity.
  apply digitRun_2 in Hmi as (a & b & -> & Ha & Hb).
  unfold timeField, timeText.
  destruct ss as [d|]; cbn [from_option] in Hss.
  - apply digitRun_2 in Hss as (x & y & -> & Hx & Hy).
    rewrite bool_decide_eq_true_2 by done.
    destruct Hhh as [Hhh|Hhh].
    + apply digitRun_1 in Hhh as (h1 & -> & Hh1). by run_matchers.
    + apply digitRun_2 in Hhh as (h1 & h2 & -> & Hh1 & Hh2). by run_matchers.
  - rewrite bool_decide_eq_false_2 by by intros [? [=]].
    destruct Hhh as [Hhh|Hhh].
    + apply digitRun_1 in Hhh as (h1 & -> & Hh1). by run_matchers.
    + apply digitRun_2 in Hhh as (h1 & h2 & -> & Hh1 & Hh2). by run_matchers.
Qed.

Lemma header_text d1 d2 m1 m2 y1 y2 hh mi ss w ap w0 w1 s w2 c :
  Forall (λ c, isDigit c = true) [d1; d2; m1; m2; y1; y2] →
  wellFormedTime hh mi ss w ap →
  isSpace w0 = true → isSpace w1 = true → isSpace w2 = true →
  dotText s → code ":" ∉ s → dotText c →
  header (bool_decide (is_Some ss))
    (headerText (dateText d1 d2 m1 m2 y1 y2) (timeText hh mi ss w ap) w0 w1 s w2 c)
  = Some (dateText d1 d2 m1 m2 y1 y2, timeText hh mi ss w ap, s, c).
Proof.
  intros Hd Ht Hw0 Hw1 Hw2 [Hne Hs] Hcolon Hc.
  unfold header, headerText. cbn [chr]. rewrite Z.eqb_refl. cbn [mbind option_bind].
  rewrite dateField_text by done. cbn [mbind option_bind chr].
  rewrite Z.eqb_refl. cbn [mbind option_bind space]. rewrite Hw0.
  cbn [mbind option_bind]. rewrite timeField_text by done.
  cbn [mbind option_bind chr]. rewrite Z.eqb_refl. cbn [mbind option_bind space].
  rewrite Hw1. cbn [mbind option_bind].
  rewrite (senderContent_text s []) by done. done.
Qed.

(** A line put together from a date and a time of the right shape, a sender
    with no colon and a content, neither empty nor with a line terminator,
    is a header line, and its groups are these. *)
Theorem well_formed_header_is_matched d1 d2 m1 m2 y1 y2 hh mi ss w ap w0 w1 s w2 c :
  Forall (λ c, isDigit c = true) [d1; d2; m1; m2; y1; y2] →
  wellFormedTime hh mi ss w ap →
  isSpace w0 = true → isSpace w1 = true → isSpace w2 = true →
  dotText s → code ":" ∉ s → dotText c →
  matchLine
    (headerText (dateText d1 d2 m1 m2 y1 y2) (timeText hh mi ss w ap) w0 w1 s w2 c)
  = Some (dateText d1 d2 m1 m2 y1 y2, timeText hh mi ss w ap, s, c).
Proof.
  intros Hd Ht Hw0 Hw1 Hw2 Hs Hcolon Hc.
  pose proof (header_text _ _ _ _ _ _ _ _ _ _ _ _ _ _ _ _ Hd Ht Hw0 Hw1 Hw2 Hs Hcolon Hc)
    as Hh.
  unfold matchLine. destruct ss as [sec|].
  - rewrite bool_decide_eq_true_2 in Hh by done.
    unfold customPattern. by rewrite Hh.
  - rewrite bool_decide_eq_false_2 in Hh by by intros [? [=]].
    destruct (customPattern _) as [g|] eqn:Hcustom; [|done].
    pose proof (patterns_exclusive _ (mk_is_Some _ _ Hcustom)) as Hex.
    unfold altPattern in Hex. by rewrite Hh in Hex.
Qed.

Lemma well_formed_header_is_matched_witness :
  matchLine
    (headerText (dateText 48 49 48 50 50 51)
       (timeText (lit "9") (lit "15") None 32 (code "P")) 32 32 (lit "Ann Lee") 32
       (lit "see: you"))
  = Some (dateText 48 49 48 50 50 51,
          timeText (lit "9") (lit "15") None 32 (code "P"),
          lit "Ann Lee", lit "see: you").
Proof.
  apply well_formed_header_is_matched; try reflexivity.
  - by repeat constructor.
  - split; [left; split; [reflexivity|by repeat constructor]|].
    split; [split; [reflexivity|by repeat constructor]|].
    split; [exact I|]. split; [reflexivity|]. by right.
  - by split.
  - apply (bool_decide_unpack _). vm_compute. reflexivity.
  - by split.
Defined.

Lemma headerText_content d t w0 w1 s w2 c :
  headerText d t w0 w1 s w2 c
  = (code "[" :: d ++ code "," :: w0 :: t ++ code "]" :: w1 :: s ++ [code ":"; w2]) ++ c.
Proof. unfold headerText. by list_norm. Qed.

(** *** Lines that end with a carriage return *)

Definition CR : Z := 13.

(** The content of a header goes to the end of the line and holds no line
    terminator: a line that ends with one is no header. *)
Lemma matchLine_ends_with_terminator line x :
  isLineTerminator x = true → matchLine (line ++ [x]) = None.
Proof.
  intros Hx. destruct (matchLine (line ++ [x])) as [[[[d t] s] c]|] eqn:Hm; [|done].
  apply matchLine_header in Hm as [b Hb].
  apply header_shape in Hb as (w0 & w1 & w2 & Hl & _ & _ & _ & _ & Hne & Hc).
  exfalso. destruct (list.last c) as [y|] eqn:Hlast.
  - assert (list.last (line ++ [x]) = Some y) as Hy.
    { rewrite Hl, headerText_content, last_app, Hlast. done. }
    rewrite list.last_snoc in Hy. injection Hy as ->.
    apply last_Some in Hlast as [c' ->].
    rewrite forallb_app in Hc. cbn in Hc. unfold isDot in Hc. rewrite Hx in Hc.
    by rewrite andb_false_r in Hc.
  - by apply last_None in Hlast.
Qed.

Lemma split_crlf ls :
  Forall (λ l, LF ∉ l) ls →
  split LF (concat ((λ l, l ++ [CR; LF]) <$> ls)) = ((λ l, l ++ [CR]) <$> ls) ++ [[]].
Proof.
  intros Hls. unfold split. induction Hls as [|l ls Hl _ IH]; [done|].
  cbn [fmap list_fmap concat app].
  replace ((l ++ [CR; LF]) ++ concat ((λ l, l ++ [CR; LF]) <$> ls))
    with ((l ++ [CR]) ++ LF :: concat ((λ l, l ++ [CR; LF]) <$> ls))
    by by rewrite <-!app_assoc.
  rewrite split_go_app_sep, IH; [done|].
  rewrite not_elem_of_app, not_elem_of_cons. split_and!; [done|done|].
  apply not_elem_of_nil.
Qed.

Section host.
Context `{Host}.

(** In a text whose lines end with a carriage return and a line feed no
    line is a header: the parser returns no message, whatever the lines
    are. *)
Theorem crlf_transcript_has_no_message ls :
  Forall (λ l, LF ∉ l) ls →
  parseCustomChat (concat ((λ l, l ++ [CR; LF]) <$> ls)) = [].
Proof.
  intros Hls. unfold parseCustomChat, parseLines.
  rewrite split_crlf, forEach_no_header; [done| |done].
  apply Forall_app. split.
  - apply Forall_fmap, Forall_forall. intros l _. simpl.
    by apply matchLine_ends_with_terminator.
  - by repeat constructor.
Qed.

End host.

Lemma crlf_transcript_has_no_message_witness :
  let ls := [lit "[01/02/23, 10:00:00 AM] Ann: hello";
             lit "[01/02/23, 10:01:00 AM] Bob: hi"] in
  Forall (λ l, LF ∉ l) ls ∧
  parseCustomChat (H:=utcHost) (concat ((λ l, l ++ [CR; LF]) <$> ls)) = [] ∧
  length (parseCustomChat (H:=utcHost) (concat ((λ l, l ++ [LF]) <$> ls))) = 2%nat.
Proof.
  assert (Forall (λ l, LF ∉ l)
            [lit "[01/02/23, 10:00:00 AM] Ann: hello";
             lit "[01/02/23, 10:01:00 AM] Bob: hi"]) as Hls.
  { apply (bool_decide_unpack _). vm_compute. reflexivity. }
  split; [exact Hls|]. split; [|reflexivity].
  exact (crlf_transcript_has_no_message (H:=utcHost) _ Hls).
Defined.

(** *** Senders *)

Lemma trimStart_head s c : head (trimStart s) = Some c → isSpace c = false.
Proof.
  induction s as [|x s IH]; simpl; [done|].
  destruct (isSpace x) eqn:Hx; [done|]. simpl. by intros [= <-].
Qed.

Lemma trimStart_suffix s : trimStart s `suffix_of` s.
Proof.
  induction s as [|x s IH]; simpl; [done|].
  destruct (isSpace x); [by apply suffix_cons_r|done].
Qed.

Lemma trimStart_id s :
  (∀ c, head s = Some c → isSpace c = false) → trimStart s = s.
Proof. destruct s as [|x s]; simpl; [done|]. intros Hs. by rewrite (Hs x). Qed.

Lemma trimEnd_last s c : list.last (trimEnd s) = Some c → isSpace c = false.
Proof.
  unfold trimEnd. rewrite last_reverse. apply trimStart_head.
Qed.

Lemma trimEnd_prefix s : trimEnd s `prefix_of` s.
Proof.
  unfold trimEnd. destruct (trimStart_suffix (reverse s)) as [k Hk].
  exists (reverse k). by rewrite <-reverse_app, <-Hk, reverse_involutive.
Qed.

Lemma trimEnd_id s :
  (∀ c, list.last s = Some c → isSpace c = false) → trimEnd s = s.
Proof.
  intros Hs. unfold trimEnd. rewrite trimStart_id; [apply reverse_involutive|].
  intros c. rewrite head_reverse. apply Hs.
Qed.

(** What [trim] returns neither starts nor ends with a white space. *)
Lemma trim_ends s c :
  head (trim s) = Some c ∨ list.last (trim s) = Some c → isSpace c = false.
Proof.
  unfold trim. intros [Hc|Hc].
  - destruct (trimEnd_prefix (trimStart s)) as [k Hk].
    apply (trimStart_head s). rewrite Hk.
    destruct (trimEnd (trimStart s)); [done|]. done.
  - by eapply trimEnd_last.
Qed.

Lemma trim_idemp s : trim (trim s) = trim s.
Proof.
  unfold trim at 1. rewrite trimStart_id, trimEnd_id; [done|..].
  - intros c Hc. apply (trim_ends s). by right.
  - intros c Hc. apply (trim_ends s). by left.
Qed.

Section host.
Context `{Host}.

(** The sender of every message is trimmed: it neither starts nor ends
    with a white space, and it holds no line terminator.  Nothing keeps it
    from being empty. *)
Theorem senders_are_trimmed chatText :
  Forall (λ m,
      trim (sender m) = sender m ∧
      (∀ c, head (sender m) = Some c ∨ list.last (sender m) = Some c →
            isSpace c = false) ∧
      Forall (λ c, isLineTerminator c = false) (sender m))
    (parseCustomChat chatText).
Proof.
  assert (Forall2 openedBy (parseCustomChat chatText)
            (headerLinesFrom 0 (split LF chatText))) as Hall.
  { apply (forEach_openedBy _ 0 _ []). constructor. }
  apply Forall_lookup. intros k m Hk.
  destruct (Forall2_lookup_l _ _ _ _ _ Hall Hk)
    as (il & _ & d & t & s & c & Hl & _ & _ & _ & _ & -> & _).
  split; [apply trim_idemp|]. split; [apply trim_ends|].
  apply matchLine_header in Hl as [b Hb].
  apply header_shape in Hb as (_ & _ & _ & _ & _ & _ & _ & [_ Hs] & _).
  assert (Forall (λ c, isLineTerminator c = false) s) as Hdots.
  { apply Forall_forall. intros x Hx%list_elem_of_In.
    rewrite forallb_forall in Hs. specialize (Hs x Hx).
    unfold isDot in Hs. by apply negb_true_iff in Hs. }
  destruct (trimStart_suffix s) as [p Hp].
  destruct (trimEnd_prefix (trimStart s)) as [q Hq].
  rewrite Hp, Hq in Hdots.
  by apply Forall_app in Hdots as [_ [? _]%Forall_app].
Qed.

End host.

Example empty_sender :
  sender <$> parseCustomChat (H:=utcHost) (lit "[01/02/23, 10:00:00 AM]  : hello")
  = [[]].
Proof. reflexivity. Qed.

End TranscriptFacts.

(** ** Timestamps of header lines *)

Module TimestampFacts.
Import Parser ParserFacts.

(** Number of days of the month [m] (0-based) of the year [y]. *)
Definition daysInMonth (y m : Z) : Z :=
  daysBeforeMonth (InLeapYear y) (m + 1) - daysBeforeMonth (InLeapYear y) m.

Lemma DayFromYear_mono a b : a ≤ b → DayFromYear a ≤ DayFromYear b.
Proof. intros. unfold DayFromYear. Z.div_mod_to_equations. lia. Qed.

Lemma YearFromTime_unique t y :
  DayFromYear y ≤ Day t < DayFromYear (y + 1) → YearFromTime t = y.
Proof.
  intros Hy. pose proof (YearFromTime_spec t) as Ht.
  destruct (Z.lt_trichotomy (YearFromTime t) y) as [Hlt|[Heq|Hgt]]; [|done|].
  - pose proof (DayFromYear_mono (YearFromTime t + 1) y ltac:(lia)). lia.
  - pose proof (DayFromYear_mono (y + 1) (YearFromTime t) ltac:(lia)). lia.
Qed.

Lemma Day_MakeDate d time : 0 ≤ time < msPerDay → Day (MakeDate d time) = d.
Proof.
  intros. unfold Day, MakeDate, msPerDay in *. Z.div_mod_to_equations. lia.
Qed.

Lemma MakeDay_in_year y m dd :
  0 ≤ m ≤ 11 →
  MakeDay y m dd = DayFromYear y + daysBeforeMonth (InLeapYear y) m + dd - 1.
Proof.
  intros. unfold MakeDay. cbv zeta.
  rewrite (Z.div_small m 12), (Z.mod_small m 12), Z.add_0_r by lia. done.
Qed.

Lemma DaysInYear_leap y : DaysInYear y = 365 + InLeapYear y.
Proof.
  unfold InLeapYear, DaysInYear. repeat case_match; bool_to_prop; lia.
Qed.

(** The calendar fields of a time value made from a year, a month, a day
    of that month and a time of day are that year, month and day. *)
Lemma calendar_of_MakeDate y m dd time :
  0 ≤ m ≤ 11 → 1 ≤ dd ≤ daysInMonth y m → 0 ≤ time < msPerDay →
  let t := MakeDate (MakeDay y m dd) time in
  YearFromTime t = y ∧ MonthFromTime t = m ∧ DateFromTime t = dd.
Proof.
  intros Hm Hdd Htime t.
  assert (Day t = DayFromYear y + daysBeforeMonth (InLeapYear y) m + dd - 1) as Hday.
  { unfold t. by rewrite Day_MakeDate, MakeDay_in_year. }
  pose proof (InLeapYear_range y) as Hleap.
  assert (YearFromTime t = y) as Hy.
  { apply YearFromTime_unique. rewrite Hday, DayFromYear_succ, DaysInYear_leap.
    unfold daysInMonth in Hdd.
    assert (m = 0 ∨ m = 1 ∨ m = 2 ∨ m = 3 ∨ m = 4 ∨ m = 5 ∨ m = 6 ∨ m = 7 ∨
            m = 8 ∨ m = 9 ∨ m = 10 ∨ m = 11) as Hcases by lia.
    destruct Hcases as [->|[->|[->|[->|[->|[->|[->|[->|[->|[->|[->| ->]]]]]]]]]]];
      simpl in *; lia. }
  assert (DayWithinYear t = daysBeforeMonth (InLeapYear y) m + dd - 1) as Hwithin.
  { unfold DayWithinYear. rewrite Hy, Hday. lia. }
  assert (MonthFromTime t = m) as Hmonth.
  { unfold MonthFromTime. rewrite Hwithin, Hy. cbv zeta.
    unfold daysInMonth in Hdd.
    assert (m = 0 ∨ m = 1 ∨ m = 2 ∨ m = 3 ∨ m = 4 ∨ m = 5 ∨ m = 6 ∨ m = 7 ∨
            m = 8 ∨ m = 9 ∨ m = 10 ∨ m = 11) as Hcases by lia.
    destruct Hcases as [->|[->|[->|[->|[->|[->|[->|[->|[->|[->|[->| ->]]]]]]]]]]];
      simpl in *; repeat case_match; bool_to_prop; lia. }
  split; [done|]. split; [done|].
  unfold DateFromTime. rewrite Hwithin, Hy, Hmonth. lia.
Qed.

Lemma clock_of_MakeDate d h mi s :
  0 ≤ h ≤ 23 → 0 ≤ mi ≤ 59 → 0 ≤ s ≤ 59 →
  let t := MakeDate d (MakeTime h mi s 0) in
  0 ≤ MakeTime h mi s 0 < msPerDay ∧
  HourFromTime t = h ∧ MinFromTime t = mi ∧ SecFromTime t = s ∧ msFromTime t = 0.
Proof.
  intros ??? t. subst t.
  unfold HourFromTime, MinFromTime, SecFromTime, msFromTime, MakeDate,
    MakeTime, msPerDay, msPerHour, msPerMinute, msPerSecond.
  split_and!; try lia.
  - rewrite <-(Z.div_unique_pos _ 3600000 (24 * d + h) (mi * 60000 + s * 1000)) by lia.
    symmetry. apply (Z.mod_unique_pos _ 24 d); lia.
  - rewrite <-(Z.div_unique_pos _ 60000 (60 * (24 * d + h) + mi) (s * 1000)) by lia.
    symmetry. apply (Z.mod_unique_pos _ 60 (24 * d + h)); lia.
  - rewrite <-(Z.div_unique_pos _ 1000 (60 * (60 * (24 * d + h) + mi) + s) 0) by lia.
    symmetry. apply (Z.mod_unique_pos _ 60 (60 * (24 * d + h) + mi)); lia.
  - symmetry. apply (Z.mod_unique_pos _ 1000 (60 * (60 * (24 * d + h) + mi) + s)); lia.
Qed.

(** *** Digits *)

Lemma padDigits_two a b :
  isDigit a = true → isDigit b = true → padDigits 2 (decimal [a; b]) = [a; b].
Proof.
  intros Ha%isDigit_range Hb%isDigit_range. unfold decimal. cbn [foldl padDigits app].
  f_equal; [|f_equal]; Z.div_mod_to_equations; lia.
Qed.

Lemma padDigits_year a b :
  isDigit a = true → isDigit b = true →
  isoYear (decimal [a; b] + 2000) = lit "20" ++ [a; b].
Proof.
  intros Ha%isDigit_range Hb%isDigit_range. unfold isoYear, decimal. cbn [foldl].
  replace ((0 <=? _) && (_ <=? 9999)) with true
    by (symmetry; apply andb_true_iff; rewrite !Z.leb_le; lia).
  cbn [padDigits app lit]. eval_codes.
  f_equal; [|f_equal; [|f_equal; [|f_equal]]]; Z.div_mod_to_equations; lia.
Qed.

(** The 24-hour value of the hour [hh] of a time field with the meridiem
    letter [ap]. *)
Definition clockHour (ap : Z) (hh : list Z) : Z :=
  default 0 (to24Hour (ap =? code "P") (Some (decimal hh))).

Lemma to24Hour_clockHour ap hh :
  to24Hour (ap =? code "P") (Some (decimal hh)) = Some (clockHour ap hh).
Proof. unfold clockHour, to24Hour. by repeat case_match. Qed.

Lemma clockHour_range ap hh :
  digitRun 1 hh ∨ digitRun 2 hh → 0 ≤ clockHour ap hh ≤ 99.
Proof.
  intros Hhh%decimal_hour. unfold clockHour, to24Hour.
  repeat case_match; bool_to_prop; simpl; lia.
Qed.

Section host.
Context `{Host}.

(** The local time a header stands for, as the [Date] constructor reads
    its fields. *)
Definition localTimeOf (d1 d2 m1 m2 y1 y2 : Z) (hh mi : list Z)
    (ss : option (list Z)) (ap : Z) : Z :=
  MakeDate (MakeDay (decimal [y1; y2] + 2000) (decimal [m1; m2] - 1) (decimal [d1; d2]))
           (MakeTime (clockHour ap hh) (decimal mi) (from_option decimal 0 ss) 0).

Lemma timestamp_of_header i d1 d2 m1 m2 y1 y2 hh mi ss w ap s c :
  (∀ t, Z.abs (LocalTZA t false) ≤ msPerDay) →
  Forall (λ c, isDigit c = true) [d1; d2; m1; m2; y1; y2] →
  wellFormedTime hh mi ss w ap →
  timestamp (newMessage i (dateText d1 d2 m1 m2 y1 y2) (timeText hh mi ss w ap) s c)
  = Some (UTC (localTimeOf d1 d2 m1 m2 y1 y2 hh mi ss ap)).
Proof.
  intros Htz Hd (Hhh & Hmi & Hss & Hw & Hap).
  unfold newMessage, timestampOf. cbn [timestamp].
  rewrite dateTimeFields_texts by done.
  cbn [year month day hour minute second]. rewrite to24Hour_clockHour.
  unfold newDate. cbn [mbind option_bind].
  pose proof (clockHour_range ap hh Hhh).
  assert (0 ≤ decimal mi ≤ 99).
  { apply digitRun_2 in Hmi as (? & ? & -> & ? & ?). by apply decimal_two_digits. }
  assert (0 ≤ from_option decimal 0 ss ≤ 99).
  { destruct ss as [d|]; simpl in *; [|lia].
    apply digitRun_2 in Hss as (? & ? & -> & ? & ?). by apply decimal_two_digits. }
  assert (0 ≤ decimal [y1; y2] ≤ 99 ∧ 0 ≤ decimal [m1; m2] ≤ 99 ∧
          0 ≤ decimal [d1; d2] ≤ 99) as (? & ? & ?).
  { repeat (apply Forall_cons_1 in Hd as [? Hd]).
    split_and!; by apply decimal_two_digits. }
  pose proof (MakeDate_header_range (decimal [y1; y2]) (decimal [m1; m2])
                (decimal [d1; d2]) (clockHour ap hh) (decimal mi)
                (from_option decimal 0 ss)) as Hr.
  do 6 (specialize (Hr ltac:(done))).
  unfold MakeFullYear in *.
  replace ((0 <=? decimal [y1; y2] + 2000) && (decimal [y1; y2] + 2000 <=? 99))
    with false in *
    by (symmetry; apply andb_false_iff; right; apply Z.leb_gt; lia).
  unfold localTimeOf, TimeClip, UTC.
  specialize (Htz (MakeDate
    (MakeDay (decimal [y1; y2] + 2000) (decimal [m1; m2] - 1) (decimal [d1; d2]))
    (MakeTime (clockHour ap hh) (decimal mi) (from_option decimal 0 ss) 0))).
  unfold msPerDay in Htz. case_match; [|done]. bool_to_prop. lia.
Qed.

(** In a time zone with a fixed offset from UTC, the hour under which the
    message of a header is counted is the hour of its time field on the
    24-hour clock, whatever its date is. *)
Theorem hour_of_header_is_clock_hour tz i d1 d2 m1 m2 y1 y2 hh mi ss w ap s c :
  (∀ t isUTC, LocalTZA t isUTC = tz) → Z.abs tz ≤ msPerDay →
  Forall (λ c, isDigit c = true) [d1; d2; m1; m2; y1; y2] →
  wellFormedTime hh mi ss w ap →
  clockHour ap hh ≤ 23 → decimal mi ≤ 59 → from_option decimal 0 ss ≤ 59 →
  getHours
    (timestamp (newMessage i (dateText d1 d2 m1 m2 y1 y2) (timeText hh mi ss w ap) s c))
  = Some (clockHour ap hh).
Proof.
  intros Htz Hbound Hd Ht Hh Hmi Hss.
  rewrite timestamp_of_header; [|by intros; rewrite Htz|done..].
  destruct Ht as (Hhh & Hmi' & Hss' & _).
  pose proof (clockHour_range ap hh Hhh).
  assert (0 ≤ decimal mi).
  { apply digitRun_2 in Hmi' as (? & ? & -> & ? & ?).
    by apply decimal_two_digits. }
  assert (0 ≤ from_option decimal 0 ss).
  { destruct ss as [d|]; simpl in *; [|lia].
    apply digitRun_2 in Hss' as (? & ? & -> & ? & ?). by apply decimal_two_digits. }
  unfold getHours, LocalTime, UTC. cbn [mbind option_bind]. rewrite !Htz.
  f_equal. unfold localTimeOf.
  match goal with |- HourFromTime ?t = _ =>
    replace t with (MakeDate
      (MakeDay (decimal [y1; y2] + 2000) (decimal [m1; m2] - 1) (decimal [d1; d2]))
      (MakeTime (clockHour ap hh) (decimal mi) (from_option decimal 0 ss) 0)) by lia
  end.
  by apply clock_of_MakeDate; lia.
Qed.

(** With the host at UTC, a header with a date of the calendar and a time
    of the clock has the timestamp its texts spell: the ISO text of the
    timestamp is the year after [20], the month and the day of the date
    field, the hour on the 24-hour clock and the minutes and seconds of the
    time field.  The day and the month under which the message is grouped
    are the prefixes of this text. *)
Theorem iso_text_of_header i d1 d2 m1 m2 y1 y2 hh mi ss w ap s c :
  (∀ t isUTC, LocalTZA t isUTC = 0) →
  Forall (λ c, isDigit c = true) [d1; d2; m1; m2; y1; y2] →
  wellFormedTime hh mi ss w ap →
  1 ≤ decimal [m1; m2] ≤ 12 →
  1 ≤ decimal [d1; d2] ≤ daysInMonth (decimal [y1; y2] + 2000) (decimal [m1; m2] - 1) →
  clockHour ap hh ≤ 23 → decimal mi ≤ 59 → from_option decimal 0 ss ≤ 59 →
  let stamp :=
    timestamp (newMessage i (dateText d1 d2 m1 m2 y1 y2) (timeText hh mi ss w ap) s c) in
  toISOString stamp
    = Normal (lit "20" ++ [y1; y2] ++ lit "-" ++ [m1; m2] ++ lit "-" ++ [d1; d2] ++
              lit "T" ++ padDigits 2 (clockHour ap hh) ++ lit ":" ++ mi ++ lit ":" ++
              from_option id (lit "00") ss ++ lit ".000Z") ∧
  Analysis.isoPrefix 10 stamp
    = Normal (lit "20" ++ [y1; y2] ++ lit "-" ++ [m1; m2] ++ lit "-" ++ [d1; d2]) ∧
  Analysis.isoPrefix 7 stamp = Normal (lit "20" ++ [y1; y2] ++ lit "-" ++ [m1; m2]).
Proof.
  intros Htz Hd Ht Hmonth Hday Hh Hmi Hss stamp.
  assert (stamp = Some (localTimeOf d1 d2 m1 m2 y1 y2 hh mi ss ap)) as Hstamp.
  { unfold stamp. rewrite timestamp_of_header; [|by intros; rewrite Htz|done..].
    unfold UTC. rewrite Htz. f_equal. lia. }
  destruct Ht as (Hhh & Hmi' & Hss' & _).
  pose proof (clockHour_range ap hh Hhh).
  apply digitRun_2 in Hmi' as (i1 & i2 & -> & Hi1 & Hi2).
  pose proof (decimal_two_digits _ _ Hi1 Hi2).
  assert (0 ≤ from_option decimal 0 ss ∧
          padDigits 2 (from_option decimal 0 ss) = from_option id (lit "00") ss)
    as [? Hsec].
  { destruct ss as [d|]; simpl in *; [|done].
    apply digitRun_2 in Hss' as (? & ? & -> & ? & ?).
    split; [by apply decimal_two_digits|by apply padDigits_two]. }
  pose proof Hd as Hd'. repeat (apply Forall_cons_1 in Hd' as [? Hd']).
  destruct (calendar_of_MakeDate (decimal [y1; y2] + 2000) (decimal [m1; m2] - 1)
              (decimal [d1; d2])
              (MakeTime (clockHour ap hh) (decimal [i1; i2]) (from_option decimal 0 ss) 0))
    as (Hy & Hm & Hdd); [lia|done|apply (clock_of_MakeDate 0); lia|].
  destruct (clock_of_MakeDate
              (MakeDay (decimal [y1; y2] + 2000) (decimal [m1; m2] - 1) (decimal [d1; d2]))
              (clockHour ap hh) (decimal [i1; i2]) (from_option decimal 0 ss))
    as (_ & Hhour & Hmin & Hs & Hms); [lia..|].
  assert (isoText (localTimeOf d1 d2 m1 m2 y1 y2 hh [i1; i2] ss ap)
          = lit "20" ++ [y1; y2] ++ lit "-" ++ [m1; m2] ++ lit "-" ++ [d1; d2] ++
            lit "T" ++ padDigits 2 (clockHour ap hh) ++ lit ":" ++ [i1; i2] ++ lit ":" ++
            from_option id (lit "00") ss ++ lit ".000Z") as Hiso.
  { unfold isoText, localTimeOf. rewrite Hy, Hm, Hdd, Hhour, Hmin, Hs, Hms.
    rewrite padDigits_year by done.
    replace (decimal [m1; m2] - 1 + 1) with (decimal [m1; m2]) by lia.
    rewrite !padDigits_two, Hsec by done. by rewrite <-!app_assoc. }
  unfold Analysis.isoPrefix. rewrite Hstamp. unfold toISOString.
  cbn [mbind completion_bind]. rewrite Hiso. done.
Qed.

End host.

Lemma hour_of_header_is_clock_hour_witness :
  let host := {| LocalTZA := λ _ _, 3600000; sentimentAnalyze := λ _, (0%Qc, 0%Qc) |} in
  getHours (H:=host)
    (timestamp (newMessage (H:=host) 0 (lit "01/02/23") (lit "9:15 PM")
                  (lit "Ann") (lit "hi")))
  = Some 21.
Proof.
  intros host.
  apply (hour_of_header_is_clock_hour (H:=host) 3600000 0 48 49 48 50 50 51
           (lit "9") (lit "15") None 32 (code "P") (lit "Ann") (lit "hi")).
  - done.
  - unfold msPerDay. simpl. lia.
  - by repeat constructor.
  - split; [left; split; [reflexivity|by repeat constructor]|].
    split; [split; [reflexivity|by repeat constructor]|].
    split; [exact I|]. split; [reflexivity|]. by right.
  - vm_compute. discriminate.
  - vm_compute. discriminate.
  - vm_compute. discriminate.
Defined.

Lemma iso_text_of_header_witness :
  let stamp :=
    timestamp (newMessage (H:=utcHost) 0 (lit "29/02/24") (lit "12:05:09 AM")
                 (lit "Ann") (lit "hi")) in
  toISOString stamp = Normal (lit "2024-02-29T00:05:09.000Z") ∧
  Analysis.isoPrefix 10 stamp = Normal (lit "2024-02-29") ∧
  Analysis.isoPrefix 7 stamp = Normal (lit "2024-02").
Proof.
  apply (iso_text_of_header (H:=utcHost) 0 50 57 48 50 50 52
           (lit "12") (lit "05") (Some (lit "09")) 32 (code "A") (lit "Ann") (lit "hi")).
  - done.
  - by repeat constructor.
  - split; [right; split; [reflexivity|by repeat constructor]|].
    split; [split; [reflexivity|by repeat constructor]|].
    split; [split; [reflexivity|by repeat constructor]|].
    split; [reflexivity|]. by left.
  - vm_compute. split; discriminate.
  - vm_compute. split; discriminate.
  - vm_compute. discriminate.
  - vm_compute. discriminate.
  - vm_compute. discriminate.
Defined.

End TimestampFacts.

(** ** Objects whose order of properties is observed *)

Module ObjectFacts.
Import JsObject Analysis.

(** The names of the properties, in the order of their creation. *)
Definition keys {V} (o : object V) : list (list Z) := o.*1.

Section object.
Context {V : Type}.
Implicit Types (o : object V) (k : list Z) (v : V).

Lemma get_set_eq k v o : get k (set k v o) = Some v.
Proof.
  induction o as [|[k' v'] o IH]; simpl.
  - by rewrite bool_decide_eq_true_2.
  - case_bool_decide as Hk; simpl.
    + by rewrite bool_decide_eq_true_2.
    + by rewrite bool_decide_eq_false_2.
Qed.

Lemma get_set_ne k k' v o : k ≠ k' → get k' (set k v o) = get k' o.
Proof.
  intros Hne. induction o as [|[k0 v0] o IH]; simpl.
  - by rewrite bool_decide_eq_false_2.
  - case_bool_decide as Hk; simpl.
    + subst k0. by rewrite !bool_decide_eq_false_2.
    + by rewrite IH.
Qed.

Lemma get_None k o : get k o = None ↔ k ∉ keys o.
Proof.
  unfold keys. induction o as [|[k' v'] o IH]; simpl.
  - split; [intros _; apply not_elem_of_nil|done].
  - rewrite not_elem_of_cons. case_bool_decide as Hk.
    + split; [done|]. intros [? _]. by subst.
    + rewrite IH. split; [|tauto]. intros ?. split; [congruence|done].
Qed.

Lemma get_Some k v o : NoDup (keys o) → get k o = Some v ↔ (k, v) ∈ o.
Proof.
  unfold keys. induction o as [|[k' v'] o IH]; simpl; intros Hnd.
  - by rewrite elem_of_nil.
  - apply NoDup_cons in Hnd as [Hk' Hnd]. rewrite elem_of_cons.
    case_bool_decide as Hk.
    + subst k'. split.
      * intros [= <-]. by left.
      * intros [[= <-]|Hin]; [done|]. destruct Hk'.
        apply list_elem_of_fmap. by exists (k, v).
    + rewrite IH by done. split; [tauto|]. intros [[= ??]|?]; [by subst|done].
Qed.

(** A property set is created after those that are there, when it is not
    among them. *)
Lemma keys_set k v o :
  keys (set k v o) = if decide (k ∈ keys o) then keys o else keys o ++ [k].
Proof.
  unfold keys. induction o as [|[k' v'] o IH].
  - cbn [set fmap list_fmap fst app]. case_decide as Hd; [|done].
    by apply elem_of_nil in Hd.
  - cbn [set]. case_bool_decide as Hk.
    + subst k'. cbn [fmap list_fmap fst]. by rewrite decide_True by by left.
    + cbn [fmap list_fmap fst] in *. rewrite IH.
      destruct (decide (k ∈ o.*1)) as [Hin|Hin].
      * by rewrite decide_True by by right.
      * rewrite decide_False; [done|]. rewrite elem_of_cons. by intros [->|?].
Qed.

Lemma NoDup_keys_set k v o : NoDup (keys o) → NoDup (keys (set k v o)).
Proof.
  intros Hnd. rewrite keys_set. case_decide; [done|].
  apply NoDup_app. split_and!; [done| |apply NoDup_singleton].
  intros x Hx ->%list_elem_of_singleton. done.
Qed.

Lemma get_Permutation k o o' : NoDup (keys o) → o ≡ₚ o' → get k o = get k o'.
Proof.
  intros Hnd Hp.
  assert (NoDup (keys o')) as Hnd' by (unfold keys in *; by rewrite <-Hp).
  destruct (get k o) as [v|] eqn:Hg.
  - symmetry. apply get_Some; [done|]. rewrite <-Hp. by apply get_Some.
  - symmetry. apply get_None. apply get_None in Hg. unfold keys in *. by rewrite <-Hp.
Qed.

Lemma indexEntries_cons (e : list Z * V) o :
  indexEntries (e :: o)
  = match arrayIndex e.1 with
    | Some n => (n, e) :: indexEntries o
    | None => indexEntries o
    end.
Proof. unfold indexEntries. simpl. by destruct (arrayIndex e.1). Qed.

(** [Object.entries] lists every property once. *)
Lemma entries_Permutation o : entries o ≡ₚ o.
Proof.
  unfold entries, object in *. rewrite merge_sort_Permutation.
  induction o as [|e o IH]; [done|].
  rewrite indexEntries_cons, filter_cons.
  destruct (arrayIndex e.1) as [n|] eqn:Hk.
  - rewrite decide_False by done. cbn [fmap list_fmap snd app]. by rewrite IH.
  - rewrite decide_True by done. rewrite <-Permutation_middle. by rewrite IH.
Qed.

Lemma values_length o : length (values o) = length o.
Proof. unfold values. by rewrite length_fmap, entries_Permutation. Qed.

End object.

Section building.
Context {A V W : Type}.

(** The object made by setting, for every entry of [l] in turn, its key to
    a value made from its value. *)
Lemma get_foldl_set (f : V → W) (l : object V) : ∀ (init : object W) k,
  NoDup (keys l) →
  get k (foldl (λ acc e, set e.1 (f e.2) acc) init l)
  = match get k l with
    | Some v => Some (f v)
    | None => get k init
    end.
Proof.
  induction l as [|[k0 v0] l IH]; intros init k Hnd; [done|].
  apply NoDup_cons in Hnd as [Hk0 Hnd]. cbn [foldl fst snd get].
  rewrite IH by done. case_bool_decide as Hk.
  - subst k0. apply get_None in Hk0. cbn [fst] in Hk0. by rewrite Hk0, get_set_eq.
  - destruct (get k l); [done|]. by rewrite get_set_ne.
Qed.

Lemma keys_foldl_set (f : V → W) (l : object V) : ∀ init : object W,
  NoDup (keys init ++ keys l) →
  keys (foldl (λ acc e, set e.1 (f e.2) acc) init l) = keys init ++ keys l.
Proof.
  induction l as [|[k0 v0] l IH]; intros init Hnd; simpl.
  - by rewrite app_nil_r.
  - simpl in Hnd.
    assert (k0 ∉ keys init) as Hk0.
    { apply NoDup_app in Hnd as (_ & Hdis & _). intros Hin.
      apply (Hdis _ Hin). by left. }
    assert (keys (set k0 (f v0) init) = keys init ++ [k0]) as Hset.
    { rewrite keys_set. by rewrite decide_False. }
    rewrite IH; rewrite Hset, <-app_assoc; done.
Qed.

(** The keys of the object made by [pushToObject] for the elements of [l]:
    those that are there, then the new ones in the order in which they
    first come. *)
Lemma unique_ext seen seen' xs :
  (∀ x, x ∈ seen ↔ x ∈ seen') → Report.unique seen xs = Report.unique seen' xs.
Proof.
  revert seen seen'. induction xs as [|x xs IH]; intros seen seen' Hs; [done|].
  cbn [Report.unique]. rewrite (bool_decide_ext _ _ (Hs x)).
  case_bool_decide; [by apply IH|]. f_equal. apply IH.
  intros y. rewrite !elem_of_cons, Hs. done.
Qed.

Lemma keys_pushToObject k (x : V) (o : object (list V)) :
  keys (pushToObject k x o) = if decide (k ∈ keys o) then keys o else keys o ++ [k].
Proof. apply keys_set. Qed.

Lemma keys_foldl_pushToObject (key : A → list Z) (val : A → V) (l : list A) :
  ∀ o : object (list V),
  keys (foldl (λ o x, pushToObject (key x) (val x) o) o l)
  = keys o ++ Report.unique (keys o) (key <$> l).
Proof.
  induction l as [|x l IH]; intros o; simpl.
  - by rewrite app_nil_r.
  - rewrite IH, keys_pushToObject. case_bool_decide as Hk.
    + by rewrite decide_True.
    + rewrite decide_False by done. rewrite <-app_assoc. simpl. do 2 f_equal.
      apply unique_ext. intros y. rewrite elem_of_app, !elem_of_cons, elem_of_nil.
      tauto.
Qed.

Lemma NoDup_keys_foldl_pushToObject (key : A → list Z) (val : A → V) (l : list A) :
  ∀ o : object (list V),
  NoDup (keys o) → NoDup (keys (foldl (λ o x, pushToObject (key x) (val x) o) o l)).
Proof.
  induction l as [|x l IH]; intros o Hnd; [done|].
  simpl. apply IH. by apply NoDup_keys_set.
Qed.

Lemma get_foldl_pushToObject (key : A → list Z) (val : A → V) (l : list A) :
  ∀ (o : object (list V)) k,
  get k (foldl (λ o x, pushToObject (key x) (val x) o) o l)
  = match filter (λ x, key x = k) l with
    | [] => get k o
    | ms => Some (default [] (get k o) ++ (val <$> ms))
    end.
Proof.
  induction l as [|x l IH]; intros o k; [done|].
  cbn [foldl]. rewrite IH, filter_cons. unfold pushToObject.
  destruct (decide (key x = k)) as [<-|Hne].
  - rewrite get_set_eq. cbn [default].
    destruct (filter (λ y, key y = key x) l) as [|m ms]; simpl.
    + done.
    + by rewrite <-app_assoc.
  - by rewrite get_set_ne.
Qed.

End building.

(** [[...new Set(xs)]] has every element of [xs] once. *)
Lemma unique_spec xs : ∀ seen,
  NoDup (Report.unique seen xs) ∧ ∀ x, x ∈ Report.unique seen xs ↔ x ∈ xs ∧ x ∉ seen.
Proof.
  induction xs as [|y xs IH]; intros seen.
  - split; [constructor|]. intros x. simpl. rewrite elem_of_nil. tauto.
  - cbn [Report.unique]. case_bool_decide as Hy.
    + destruct (IH seen) as [Hnd Hel]. split; [done|].
      intros x. rewrite Hel, elem_of_cons. split; [tauto|].
      intros [[->|?] ?]; tauto.
    + destruct (IH (y :: seen)) as [Hnd Hel]. split.
      * constructor; [|done]. rewrite Hel, elem_of_cons. tauto.
      * intros x. rewrite !elem_of_cons, Hel, elem_of_cons.
        destruct (decide (x = y)) as [->|]; tauto.
Qed.

(** The averages of an object of arrays: one for every property. *)
Lemma get_averages o k :
  NoDup (keys o) → get k (averages o) = average <$> get k o.
Proof.
  intros Hnd. unfold averages.
  rewrite (get_foldl_set average).
  - rewrite (get_Permutation k (entries o) o).
    + by destruct (get k o).
    + unfold keys. by rewrite entries_Permutation.
    + apply entries_Permutation.
  - unfold keys. by rewrite entries_Permutation.
Qed.

Lemma length_averages o : NoDup (keys o) → length (averages o) = length o.
Proof.
  intros Hnd.
  assert (length (keys (averages o)) = length o) as Hlen.
  { unfold averages. rewrite (keys_foldl_set average).
    - unfold keys. simpl. by rewrite length_fmap, entries_Permutation.
    - unfold keys. simpl. by rewrite entries_Permutation. }
  unfold keys in Hlen. by rewrite length_fmap in Hlen.
Qed.

End ObjectFacts.

(** ** Counts and averages of the analyses *)

Module AggregateFacts.
Import Parser Analysis AnalysisFacts.

(** A property of an object of counts: absent until the first element that
    counts, then their number. *)
Definition counted {A} (P : A → Prop) `{∀ x, Decision (P x)} (l : list A) : option Z :=
  match filter P l with
  | [] => None
  | ms => Some (Z.of_nat (length ms))
  end.

Lemma foldl_increment {A} (f : A → list Z) (l : list A) : ∀ o k,
  foldl (λ o x, increment (f x) o) o l !! k =
    match filter (λ x, f x = k) l with
    | [] => o !! k
    | ms => Some (default 0 (o !! k) + Z.of_nat (length ms))
    end.
Proof.
  induction l as [|x l IH]; intros o k; [done|].
  cbn [foldl]. rewrite IH, filter_cons. unfold increment.
  destruct (decide (f x = k)) as [<-|Hne].
  - rewrite lookup_insert_eq. cbn [default].
    destruct (filter (λ y, f y = f x) l) as [|m ms]; simpl; f_equal; lia.
  - by rewrite lookup_insert_ne.
Qed.

Lemma foldl_increment_empty {A} (f : A → list Z) (l : list A) k :
  foldl (λ o x, increment (f x) o) ∅ l !! k = counted (λ x, f x = k) l.
Proof.
  rewrite foldl_increment, lookup_empty. unfold counted.
  destruct (filter _ l); [done|]. simpl. f_equal.
Qed.

Lemma foldl_alter_length {A} (f : A → nat) (l : list A) : ∀ a : list Z,
  length (foldl (λ a x, alter (λ n, n + 1) (f x) a) a l) = length a.
Proof.
  induction l as [|x l IH]; intros a; [done|].
  cbn [foldl]. by rewrite IH, length_alter.
Qed.

Lemma foldl_alter_lookup {A} (f : A → nat) (l : list A) : ∀ (a : list Z) j,
  foldl (λ a x, alter (λ n, n + 1) (f x) a) a l !! j
  = (λ n, n + Z.of_nat (length (filter (λ x, f x = j) l))) <$> a !! j.
Proof.
  induction l as [|x l IH]; intros a j.
  - rewrite filter_nil. cbn [foldl length].
    destruct (a !! j); cbn; [f_equal; lia|done].
  - cbn [foldl]. rewrite IH, filter_cons.
    destruct (decide (f x = j)) as [<-|Hne].
    + rewrite list_lookup_alter. cbn [length].
      destruct (a !! f x); cbn; rewrite decide_True by done; [|done].
      cbn. f_equal. lia.
    + by rewrite list_lookup_alter_ne.
Qed.

Lemma foldr_add_alter (a : list Z) : ∀ j,
  (j < length a)%nat →
  foldr Z.add 0 (alter (λ n, n + 1) j a) = Z.succ (foldr Z.add 0 a).
Proof.
  unfold alter. induction a as [|x a IH]; intros [|j] Hj; simpl in *; try lia.
  rewrite IH by lia. lia.
Qed.

Section host.
Context `{Host}.

(** The local hour of a message. *)
Definition hourOf (m : message) : Z :=
  HourFromTime (LocalTime (default 0 (timestamp m))).

Lemma hourOf_range m : 0 ≤ hourOf m < 24.
Proof. unfold hourOf, HourFromTime. apply Z.mod_pos_bound. lia. Qed.

Lemma step_counts msgs acc x i acc' :
  valid x → Temporal.step msgs acc x i = Normal acc' →
  Temporal.byDay acc' = increment (dayOf x) (Temporal.byDay acc) ∧
  Temporal.byMonth acc' = increment (monthOf x) (Temporal.byMonth acc) ∧
  Temporal.byHour acc'
    = alter (λ n, n + 1) (Z.to_nat (hourOf x)) (Temporal.byHour acc).
Proof.
  intros [t Ht] Hs. unfold Temporal.step in Hs.
  rewrite !isoPrefix_valid in Hs by by eexists.
  cbn [mbind completion_bind] in Hs.
  match type of Hs with (?c ≫= _) = _ => destruct c as [rt|e]; [|done] end.
  cbn [mbind completion_bind] in Hs. injection Hs as <-. cbn.
  unfold dayOf, monthOf, hourOf, getHours. rewrite Ht. done.
Qed.

Lemma loop_counts msgs todo : ∀ i acc acc',
  Forall valid todo →
  forEachFrom (Temporal.step msgs) todo i acc = Normal acc' →
  Temporal.byDay acc'
    = foldl (λ o m, increment (dayOf m) o) (Temporal.byDay acc) todo ∧
  Temporal.byMonth acc'
    = foldl (λ o m, increment (monthOf m) o) (Temporal.byMonth acc) todo ∧
  Temporal.byHour acc'
    = foldl (λ a m, alter (λ n, n + 1) (Z.to_nat (hourOf m)) a)
        (Temporal.byHour acc) todo.
Proof.
  induction todo as [|x todo IH]; intros i acc acc' Hv Hloop.
  - by injection Hloop as <-.
  - apply Forall_cons_1 in Hv as [Hx Hv]. cbn [forEachFrom] in Hloop.
    destruct (Temporal.step msgs acc x i) as [acc1|e] eqn:Hstep; [|done].
    cbn [mbind completion_bind] in Hloop.
    destruct (step_counts _ _ _ _ _ Hx Hstep) as (Hd & Hm & Hh).
    destruct (IH _ _ _ Hv Hloop) as (-> & -> & ->).
    cbn [foldl]. by rewrite Hd, Hm, Hh.
Qed.


End host.


End AggregateFacts.

(** ** What the analyses return and when they throw *)

Module OutcomeFacts.
Import Parser Analysis AnalysisFacts Report ObjectFacts.

(** A message whose timestamp is read by the content analysis: one that is
    no media message. *)
Definition dated (m : message) : Prop := isMedia m = true ∨ valid m.

#[global] Instance dated_dec m : Decision (dated m).
Proof. unfold dated. apply _. Defined.

Section host.
Context `{Host}.

Lemma analyzeSentiment_throws msgs :
  ¬ Forall valid msgs → Sentiment.analyzeSentiment msgs = Throw RangeError.
Proof.
  intros Hv. unfold Sentiment.analyzeSentiment.
  rewrite (forEachFrom_throw _ RangeError valid); try done.
  - intros st x j Hx. unfold Sentiment.step.
    assert (timestamp x = None) as Hnone.
    { destruct (timestamp x) eqn:E; [|done]. destruct Hx. by eexists. }
    by rewrite isoPrefix_invalid.
  - intros st x j [t Ht]. unfold Sentiment.step, isoPrefix. rewrite Ht. simpl.
    destruct (negb (isMedia x) && negb (isDeleted x)); by eexists.
  - apply _.
Qed.

Lemma monthStep_dated acc x j :
  dated x → ∃ acc', Content.monthStep acc x j = Normal acc'.
Proof.
  intros Hx. unfold Content.monthStep. destruct (isMedia x) eqn:Hm; simpl.
  - by eexists.
  - destruct Hx as [Hx|Hx]; [congruence|].
    rewrite isoPrefix_valid by done. by eexists.
Qed.

Lemma monthStep_throws acc x j :
  ¬ dated x → Content.monthStep acc x j = Throw RangeError.
Proof.
  intros Hx. unfold Content.monthStep. destruct (isMedia x) eqn:Hm; simpl.
  - destruct Hx. by left.
  - assert (timestamp x = None) as Hnone.
    { destruct (timestamp x) eqn:E; [|done]. destruct Hx. right. by eexists. }
    by rewrite isoPrefix_invalid.
Qed.

Lemma analyzeContentPatterns_outcome msgs :
  if decide (Forall dated msgs)
  then ∃ r, Content.analyzeContentPatterns msgs = Normal r
  else Content.analyzeContentPatterns msgs = Throw RangeError.
Proof.
  unfold Content.analyzeContentPatterns.
  destruct (foldl Content.step ([], []) msgs) as [lengths media].
  destruct (decide (Forall dated msgs)) as [Hd|Hd].
  - destruct (forEachFrom_Normal Content.monthStep dated msgs 0 ∅) as [acc ->];
      [by intros; apply monthStep_dated|done|].
    by eexists.
  - rewrite (forEachFrom_throw _ RangeError dated); try done.
    + by intros; apply monthStep_throws.
    + by intros; apply monthStep_dated.
    + apply _.
Qed.





End host.


End OutcomeFacts.

(** ** The content and the sentiment analysis *)

Module SenderFacts.
Import Parser Analysis AnalysisFacts ObjectFacts.

(** The length of the content of a message, in code units. *)
Definition contentLength (m : message) : Qc := Qc_of_Z (Z.of_nat (length (content m))).

Definition lengthStep (o : JsObject.object (list number)) (m : message)
    : JsObject.object (list number) :=
  pushToObject (sender m) (ofZ (Z.of_nat (length (content m)))) o.

Definition mediaStep (o : JsObject.object Z) (m : message) : JsObject.object Z :=
  let media := default 0 (JsObject.get (sender m) o) in
  JsObject.set (sender m) (if isMedia m then media + 1 else media) o.

Lemma foldl_step msgs : ∀ a b,
  foldl Content.step (a, b) msgs = (foldl lengthStep a msgs, foldl mediaStep b msgs).
Proof.
  induction msgs as [|m msgs IH]; intros a b; [done|]. cbn [foldl].
  change (Content.step (a, b) m) with (lengthStep a m, mediaStep b m). by rewrite IH.
Qed.

Lemma get_foldl_mediaStep msgs : ∀ o k,
  JsObject.get k (foldl mediaStep o msgs)
  = match filter (λ m, sender m = k) msgs with
    | [] => JsObject.get k o
    | ms => Some (default 0 (JsObject.get k o)
                  + Z.of_nat (length (filter (λ m, isMedia m = true) ms)))
    end.
Proof.
  induction msgs as [|m msgs IH]; intros o k; [done|].
  cbn [foldl]. rewrite IH, filter_cons. unfold mediaStep.
  destruct (decide (sender m = k)) as [<-|Hne].
  - rewrite get_set_eq. cbn [default].
    set (F := filter (λ y, sender y = sender m) msgs).
    rewrite (filter_cons (λ m, isMedia m = true) m F).
    destruct (isMedia m) eqn:Hm.
    + rewrite decide_True by done.
      destruct F as [|x xs]; rewrite ?filter_nil; cbn [length]; unfold id; f_equal; lia.
    + rewrite decide_False by done.
      destruct F as [|x xs]; rewrite ?filter_nil; cbn [length]; unfold id; f_equal; lia.
  - by rewrite get_set_ne.
Qed.



(** *** Sentiment *)

Lemma foldl_filter {A B} (P : A → Prop) `{∀ x, Decision (P x)} (g : B → A → B)
    (l : list A) : ∀ b,
  foldl (λ acc x, if decide (P x) then g acc x else acc) b l = foldl g b (filter P l).
Proof.
  induction l as [|x l IH]; intros b; [done|].
  cbn [foldl]. rewrite filter_cons, IH. by destruct (decide (P x)).
Qed.

Lemma lookup_foldl_pushTo {A V} (key : A → list Z) (val : A → V) (l : list A) :
  ∀ (o : gmap (list Z) (list V)) k,
  foldl (λ o x, pushTo (key x) (val x) o) o l !! k
  = match filter (λ x, key x = k) l with
    | [] => o !! k
    | ms => Some (default [] (o !! k) ++ (val <$> ms))
    end.
Proof.
  induction l as [|x l IH]; intros o k; [done|].
  cbn [foldl]. rewrite IH, filter_cons. unfold pushTo.
  destruct (decide (key x = k)) as [<-|Hne].
  - rewrite lookup_insert_eq. cbn [default].
    destruct (filter (λ y, key y = key x) l) as [|m ms]; simpl; [done|].
    by rewrite <-app_assoc.
  - by rewrite lookup_insert_ne.
Qed.

Section host.
Context `{Host}.

(** A message that gets a sentiment score: neither a media message nor a
    deleted one. *)
Definition scored (m : message) : Prop := isMedia m = false ∧ isDeleted m = false.

(** The score of the content of a message. *)
Definition scoreOf (m : message) : Qc := (sentimentAnalyze (content m)).1.

(** The element of the timeline for a message. *)
Definition entryOf (m : message) : Sentiment.entry :=
  {| Sentiment.timestamp := isoText (default 0 (timestamp m));
     Sentiment.sender := sender m;
     Sentiment.score := Num (sentimentAnalyze (content m)).1;
     Sentiment.comparative := Num (sentimentAnalyze (content m)).2 |}.

(** The mean score of messages: none of no message. *)
Definition meanScore (ms : list message) : option number :=
  match ms with
  | [] => None
  | _ => Some (Num (TemporalFacts.mean (scoreOf <$> ms)))
  end.

Definition scoreStep (acc : Sentiment.accumulators) (m : message)
    : Sentiment.accumulators :=
  {| Sentiment.byMonth := pushTo (monthOf m) (Num (scoreOf m)) (Sentiment.byMonth acc);
     Sentiment.bySender :=
       pushToObject (sender m) (Num (scoreOf m)) (Sentiment.bySender acc);
     Sentiment.timeline := Sentiment.timeline acc ++ [entryOf m] |}.

Lemma step_scored acc m j :
  valid m →
  Sentiment.step acc m j = Normal (if decide (scored m) then scoreStep acc m else acc).
Proof.
  intros [t Ht]. unfold Sentiment.step, isoPrefix, scoreStep, entryOf, monthOf,
    scoreOf. rewrite Ht. simpl.
  destruct (decide (scored m)) as [[-> ->]|Hs]; [done|].
  destruct (isMedia m) eqn:Hm, (isDeleted m) eqn:Hd; try done.
  destruct Hs. by split.
Qed.

Lemma foldl_scoreStep l : ∀ acc,
  Sentiment.byMonth (foldl scoreStep acc l)
    = foldl (λ o m, pushTo (monthOf m) (Num (scoreOf m)) o) (Sentiment.byMonth acc) l ∧
  Sentiment.bySender (foldl scoreStep acc l)
    = foldl (λ o m, pushToObject (sender m) (Num (scoreOf m)) o)
        (Sentiment.bySender acc) l ∧
  Sentiment.timeline (foldl scoreStep acc l)
    = Sentiment.timeline acc ++ (entryOf <$> l).
Proof.
  induction l as [|m l IH]; intros acc.
  - simpl. by rewrite app_nil_r.
  - cbn [foldl]. destruct (IH (scoreStep acc m)) as (-> & -> & ->).
    cbn [scoreStep Sentiment.byMonth Sentiment.bySender Sentiment.timeline].
    by rewrite <-app_assoc.
Qed.

(** The senders that have a mean score are those of the scored messages,
    in the order in which they first come. *)
Lemma sentiment_of_scored_parts msgs :
  Forall valid msgs →
  ∃ r, Sentiment.analyzeSentiment msgs = Normal r ∧
    length (Sentiment.avgSentimentBySender r)
    = length (Report.unique [] (sender <$> filter scored msgs)).
Proof.
  intros Hv. unfold Sentiment.analyzeSentiment.
  rewrite (forEachFrom_fold Sentiment.step
             (λ acc m, if decide (scored m) then scoreStep acc m else acc) valid);
    [|by intros; apply step_scored|done].
  rewrite foldl_filter. cbn [mbind completion_bind].
  eexists. split; [done|]. cbn [Sentiment.avgSentimentBySender].
  destruct (foldl_scoreStep (filter scored msgs) (Sentiment.Accumulators ∅ [] []))
    as (_ & -> & _).
  cbn [Sentiment.bySender].
  rewrite length_averages by by apply NoDup_keys_foldl_pushToObject, NoDup_nil_2.
  rewrite <-(length_fmap fst). change (fst <$> ?x) with (keys x).
  by rewrite keys_foldl_pushToObject.
Qed.


End host.


End SenderFacts.

(** ** The windows of the relationship analysis *)

Module WindowFacts.
Import Parser Analysis AnalysisFacts Relationship RelationshipFacts.
Import AggregateFacts ObjectFacts SenderFacts.

(** The sum of the counts of an object of counts. *)
Definition total (o : gmap (list Z) Z) : Z := map_fold (λ _ n sum, n + sum) 0 o.

Lemma total_increment k o : total (increment k o) = total o + 1.
Proof.
  unfold total, increment. destruct (o !! k) as [n|] eqn:Hk; cbn [default].
  - rewrite <-(insert_delete_eq o k (n + 1)).
    rewrite map_fold_insert_L; [|intros; lia|by rewrite lookup_delete_eq].
    rewrite (map_fold_delete_L _ _ k n o); [lia|intros; lia|done].
  - rewrite map_fold_insert_L; [lia|intros; lia|done].
Qed.

Lemma total_countBySender wm : total (countBySender wm) = Z.of_nat (length wm).
Proof.
  unfold countBySender. induction wm as [|m wm IH] using rev_ind; [done|].
  rewrite foldl_snoc, total_increment, IH, length_app. simpl. lia.
Qed.

Lemma dom_countBySender wm :
  dom (countBySender wm) = list_to_set (sender <$> wm).
Proof.
  unfold countBySender. induction wm as [|m wm IH] using rev_ind.
  - simpl. by rewrite dom_empty_L.
  - rewrite foldl_snoc, fmap_app, list_to_set_app_L. unfold increment at 1.
    rewrite dom_insert_L, IH. simpl. by rewrite union_empty_r_L, (comm_L (∪)).
Qed.

Lemma length_unique xs :
  length (Report.unique [] xs) = size (list_to_set xs : gset (list Z)).
Proof.
  destruct (unique_spec xs []) as [Hnd Hel].
  rewrite <-(size_list_to_set (C:=gset (list Z)) (Report.unique [] xs)) by done.
  f_equal. apply set_eq. intros x. rewrite !elem_of_list_to_set, Hel, elem_of_nil. tauto.
Qed.

(** Fewer than one response a message. *)
Lemma responseCountOf_bound wm : 0 ≤ responseCountOf wm ≤ Z.of_nat (length wm) - 1 ∨ wm = [].
Proof.
  destruct wm as [|m wm]; [by right|]. left. unfold responseCountOf.
  pose proof (length_filter
    (λ j, sender <$> (m :: wm) !! j ≠ sender <$> (m :: wm) !! (j - 1)%nat)
    (seq 1 (length (m :: wm) - 1))) as Hlen.
  rewrite length_seq in Hlen. simpl in *. lia.
Qed.

Lemma Qcdiv_lt_1 (x y : Qc) : (0 < y → x < y → x / y < 1)%Qc.
Proof.
  intros Hy Hxy. apply (Qcmult_lt_mono_pos_r _ _ y Hy)%Qc.
  rewrite Qcmult_1_l. unfold Qcdiv.
  rewrite <-Qcmult_assoc, (Qcmult_comm (/ y)), Qcmult_inv_r, Qcmult_1_r; [done|].
  intros ->. by apply Qclt_not_eq in Hy.
Qed.

Section host.
Context `{Host}.

(** What a window is made of. *)
Lemma windowAt_fields byDay days i w :
  windowAt byDay days i = Normal w →
  let wm := windowMessagesOf byDay (windowDaysAt days i) in
  ∃ ca sa,
    Content.analyzeContentPatterns wm = Normal ca ∧
    Sentiment.analyzeSentiment wm = Normal sa ∧
    messageCount w = Z.of_nat (length wm) ∧
    messagesBySender w = countBySender wm ∧
    responseFrequency w
      = ndiv (ofZ (responseCountOf wm)) (ofZ (Z.of_nat (length wm))) ∧
    avgMessageLength w = JsObject.values (Content.avgLengthBySender ca) ∧
    avgSentiment w = JsObject.values (Sentiment.avgSentimentBySender sa).
Proof.
  intros Hw wm. unfold windowAt in Hw. fold wm in Hw.
  destruct (Content.analyzeContentPatterns wm) as [ca|]; [|done].
  destruct (Sentiment.analyzeSentiment wm) as [sa|]; [|done].
  cbn [mbind completion_bind] in Hw. injection Hw as <-.
  exists ca, sa. done.
Qed.



End host.



End WindowFacts.

(** ** The order of the day keys *)

Module DayOrderFacts.
Import Parser ParserFacts Analysis AnalysisFacts Relationship RelationshipFacts TimestampFacts.

(** The date of a time value as one number: year, month and day, two digits
    for each of the last two. *)
Definition dateCode (t : Z) : Z :=
  YearFromTime t * 10000 + (MonthFromTime t + 1) * 100 + DateFromTime t.

Lemma month_day_range leap w :
  0 ≤ leap ≤ 1 → 0 ≤ w < 365 + leap →
  let m :=
    if w <? daysBeforeMonth leap 1 then 0
    else if w <? daysBeforeMonth leap 2 then 1
    else if w <? daysBeforeMonth leap 3 then 2
    else if w <? daysBeforeMonth leap 4 then 3
    else if w <? daysBeforeMonth leap 5 then 4
    else if w <? daysBeforeMonth leap 6 then 5
    else if w <? daysBeforeMonth leap 7 then 6
    else if w <? daysBeforeMonth leap 8 then 7
    else if w <? daysBeforeMonth leap 9 then 8
    else if w <? daysBeforeMonth leap 10 then 9
    else if w <? daysBeforeMonth leap 11 then 10
    else 11 in
  0 ≤ m ≤ 11 ∧ daysBeforeMonth leap m ≤ w < daysBeforeMonth leap (m + 1) ∧
  1 ≤ w - daysBeforeMonth leap m + 1 ≤ 31.
Proof.
  intros Hleap Hw. cbv zeta. simpl daysBeforeMonth.
  repeat case_match; bool_to_prop; simpl; lia.
Qed.

Lemma daysBeforeMonth_mono leap m m' :
  0 ≤ leap ≤ 1 → 0 ≤ m → m ≤ m' → m' ≤ 12 →
  daysBeforeMonth leap m ≤ daysBeforeMonth leap m'.
Proof.
  intros.
  assert (m = 0 ∨ m = 1 ∨ m = 2 ∨ m = 3 ∨ m = 4 ∨ m = 5 ∨ m = 6 ∨ m = 7 ∨
          m = 8 ∨ m = 9 ∨ m = 10 ∨ m = 11 ∨ m = 12) as Hm by lia.
  assert (m' = 0 ∨ m' = 1 ∨ m' = 2 ∨ m' = 3 ∨ m' = 4 ∨ m' = 5 ∨ m' = 6 ∨ m' = 7 ∨
          m' = 8 ∨ m' = 9 ∨ m' = 10 ∨ m' = 11 ∨ m' = 12) as Hm' by lia.
  destruct Hm as [->|[->|[->|[->|[->|[->|[->|[->|[->|[->|[->|[->| ->]]]]]]]]]]]];
  destruct Hm' as [->|[->|[->|[->|[->|[->|[->|[->|[->|[->|[->|[->| ->]]]]]]]]]]]];
  simpl; lia.
Qed.

Lemma calendar_of_time t :
  DayFromYear (YearFromTime t) ≤ Day t < DayFromYear (YearFromTime t + 1) ∧
  0 ≤ MonthFromTime t ≤ 11 ∧ 1 ≤ DateFromTime t ≤ 31 ∧
  Day t = DayFromYear (YearFromTime t)
          + daysBeforeMonth (InLeapYear (YearFromTime t)) (MonthFromTime t)
          + DateFromTime t - 1 ∧
  daysBeforeMonth (InLeapYear (YearFromTime t)) (MonthFromTime t) + DateFromTime t - 1
    < daysBeforeMonth (InLeapYear (YearFromTime t)) (MonthFromTime t + 1).
Proof.
  pose proof (YearFromTime_spec t) as Hy.
  pose proof (DayWithinYear_range t) as Hw. rewrite DaysInYear_leap in Hw.
  pose proof (InLeapYear_range (YearFromTime t)) as Hleap.
  pose proof (month_day_range _ _ Hleap Hw) as Hm. cbv zeta in Hm.
  unfold DateFromTime. fold (MonthFromTime t) in Hm.
  unfold DayWithinYear in *. lia.
Qed.

(** A later day has a greater date. *)
Lemma dateCode_lt t1 t2 : Day t1 < Day t2 → dateCode t1 < dateCode t2.
Proof.
  intros Hlt. unfold dateCode.
  destruct (calendar_of_time t1) as (Hy1 & Hm1 & Hd1 & He1 & Hb1).
  destruct (calendar_of_time t2) as (Hy2 & Hm2 & Hd2 & He2 & Hb2).
  destruct (Z.lt_trichotomy (YearFromTime t1) (YearFromTime t2)) as [?|[Heq|Hgt]].
  - lia.
  - rewrite Heq in *.
    pose proof (InLeapYear_range (YearFromTime t2)) as Hleap.
    destruct (Z.lt_trichotomy (MonthFromTime t1) (MonthFromTime t2)) as [?|[Hmeq|Hmgt]].
    + lia.
    + rewrite Hmeq in *. lia.
    + pose proof (daysBeforeMonth_mono (InLeapYear (YearFromTime t2))
                    (MonthFromTime t2 + 1) (MonthFromTime t1) Hleap). lia.
  - pose proof (DayFromYear_mono (YearFromTime t2 + 1) (YearFromTime t1) ltac:(lia)).
    lia.
Qed.

Lemma dateCode_le t1 t2 : dateCode t1 ≤ dateCode t2 ↔ Day t1 ≤ Day t2.
Proof.
  split.
  - intros Hle. destruct (Z.le_gt_cases (Day t1) (Day t2)) as [?|Hgt]; [done|].
    apply dateCode_lt in Hgt. lia.
  - intros Hle. destruct (Z.eq_dec (Day t1) (Day t2)) as [Heq|Hne].
    + apply Z.eq_le_incl.
      unfold dateCode, DateFromTime, MonthFromTime, DayWithinYear, YearFromTime.
      by rewrite Heq.
    + pose proof (dateCode_lt t1 t2). lia.
Qed.

(** The day key of a time value in the years 0 to 9999, digit by digit. *)
Lemma dayKey_digits t :
  0 ≤ YearFromTime t ≤ 9999 →
  ∃ a b c d e f g h,
    0 ≤ a ≤ 9 ∧ 0 ≤ b ≤ 9 ∧ 0 ≤ c ≤ 9 ∧ 0 ≤ d ≤ 9 ∧
    0 ≤ e ≤ 9 ∧ 0 ≤ f ≤ 9 ∧ 0 ≤ g ≤ 9 ∧ 0 ≤ h ≤ 9 ∧
    take 10 (isoText t)
      = [48 + a; 48 + b; 48 + c; 48 + d; 45; 48 + e; 48 + f; 45; 48 + g; 48 + h] ∧
    dateCode t = a * 10000000 + b * 1000000 + c * 100000 + d * 10000
                 + e * 1000 + f * 100 + g * 10 + h.
Proof.
  intros Hy. destruct (calendar_of_time t) as (_ & Hm & Hd & _).
  unfold isoText, isoYear, dateCode.
  replace ((0 <=? YearFromTime t) && (YearFromTime t <=? 9999)) with true
    by (symmetry; apply andb_true_iff; rewrite !Z.leb_le; lia).
  generalize dependent (YearFromTime t). generalize dependent (DateFromTime t).
  generalize dependent (MonthFromTime t). intros M HM D HD Y HY.
  cbn [padDigits app lit take]. eval_codes.
  exists (Y / 10 / 10 / 10 mod 10), (Y / 10 / 10 mod 10), (Y / 10 mod 10), (Y mod 10),
         ((M + 1) / 10 mod 10), ((M + 1) mod 10), (D / 10 mod 10), (D mod 10).
  split_and!; try (Z.div_mod_to_equations; lia). done.
Qed.

Lemma str_leb_digits a b c d e f g h a' b' c' d' e' f' g' h' :
  0 ≤ a ≤ 9 → 0 ≤ b ≤ 9 → 0 ≤ c ≤ 9 → 0 ≤ d ≤ 9 →
  0 ≤ e ≤ 9 → 0 ≤ f ≤ 9 → 0 ≤ g ≤ 9 → 0 ≤ h ≤ 9 →
  0 ≤ a' ≤ 9 → 0 ≤ b' ≤ 9 → 0 ≤ c' ≤ 9 → 0 ≤ d' ≤ 9 →
  0 ≤ e' ≤ 9 → 0 ≤ f' ≤ 9 → 0 ≤ g' ≤ 9 → 0 ≤ h' ≤ 9 →
  str_le [48 + a; 48 + b; 48 + c; 48 + d; 45; 48 + e; 48 + f; 45; 48 + g; 48 + h]
         [48 + a'; 48 + b'; 48 + c'; 48 + d'; 45; 48 + e'; 48 + f'; 45; 48 + g'; 48 + h']
  ↔ a * 10000000 + b * 1000000 + c * 100000 + d * 10000
    + e * 1000 + f * 100 + g * 10 + h
    ≤ a' * 10000000 + b' * 1000000 + c' * 100000 + d' * 10000
      + e' * 1000 + f' * 100 + g' * 10 + h'.
Proof.
  intros. unfold str_le. cbn [str_leb].
  rewrite !orb_true_iff, !andb_true_iff, !Z.ltb_lt, !Z.eqb_eq. lia.
Qed.

(** In the years 0 to 9999 the order of the day keys as texts is the order
    of the days. *)
Lemma dayKey_le t1 t2 :
  0 ≤ YearFromTime t1 ≤ 9999 → 0 ≤ YearFromTime t2 ≤ 9999 →
  str_le (take 10 (isoText t1)) (take 10 (isoText t2)) ↔ Day t1 ≤ Day t2.
Proof.
  intros Hy1 Hy2.
  destruct (dayKey_digits t1 Hy1)
    as (a & b & c & d & e & f & g & h & ? & ? & ? & ? & ? & ? & ? & ? & -> & Hc1).
  destruct (dayKey_digits t2 Hy2)
    as (a' & b' & c' & d' & e' & f' & g' & h' & ? & ? & ? & ? & ? & ? & ? & ? & -> & Hc2).
  rewrite str_leb_digits, <-Hc1, <-Hc2 by done. apply dateCode_le.
Qed.

Lemma StronglySorted_lookup_lt {A} (R : relation A) l i j x y :
  StronglySorted R l → l !! i = Some x → l !! j = Some y → (i < j)%nat → R x y.
Proof.
  intros Hs Hi Hj Hlt. rewrite <-(take_drop j l) in Hs.
  eapply StronglySorted_app_1_elem_of; [done| |].
  - apply list_elem_of_lookup. exists i. by rewrite lookup_take_lt.
  - apply list_elem_of_lookup. exists 0%nat. by rewrite lookup_drop, Nat.add_0_r.
Qed.

(** The days of the messages, sorted as texts, are in the order of time
    when the timestamps are in the years 0 to 9999: a day comes before
    another in [sortedDays] exactly when it is the earlier day. *)
Theorem sorted_days_are_chronological msgs i j m1 m2 :
  Forall (λ m, ∃ t, timestamp m = Some t ∧ 0 ≤ YearFromTime t ≤ 9999) msgs →
  let days := sortedKeys (grouped msgs) in
  m1 ∈ msgs → m2 ∈ msgs →
  days !! i = Some (dayOf m1) → days !! j = Some (dayOf m2) →
  forEachFrom dayStep msgs 0 ∅ = Normal (grouped msgs) ∧
  ((i < j)%nat ↔ Day (default 0 (timestamp m1)) < Day (default 0 (timestamp m2))).
Proof.
  intros Hy days Hm1 Hm2 Hi Hj. split.
  { apply grouping. eapply Forall_impl; [done|]. intros m (t & Ht & _). by eexists. }
  rewrite Forall_forall in Hy.
  destruct (Hy _ Hm1) as (t1 & Ht1 & Hy1). destruct (Hy _ Hm2) as (t2 & Ht2 & Hy2).
  unfold dayOf in Hi, Hj. rewrite Ht1, Ht2 in *. cbn [default] in *.
  unfold id in *.
  pose proof (dayKey_le t1 t2 Hy1 Hy2) as H12.
  pose proof (dayKey_le t2 t1 Hy2 Hy1) as H21.
  pose proof (sortedKeys_sorted (grouped msgs)) as Hsorted.
  pose proof (sortedKeys_NoDup (grouped msgs)) as Hnd. fold days in Hsorted, Hnd.
  assert (i = j ↔ take 10 (isoText t1) = take 10 (isoText t2)) as Hsame.
  { split.
    - intros ->. rewrite Hi in Hj. by injection Hj.
    - intros Heq. rewrite <-Heq in Hj. by eapply NoDup_lookup. }
  assert (take 10 (isoText t1) = take 10 (isoText t2) ↔ Day t1 = Day t2) as Hkey.
  { split.
    - intros Heq. rewrite Heq in H12, H21.
      pose proof (proj1 H12 (str_leb_refl _)).
      pose proof (proj1 H21 (str_leb_refl _)). lia.
    - intros Heq. apply str_le_antisym; [apply H12|apply H21]; lia. }
  split.
  - intros Hlt.
    pose proof (StronglySorted_lookup_lt _ _ _ _ _ _ Hsorted Hi Hj Hlt) as Hle.
    apply H12 in Hle. destruct (decide (Day t1 = Day t2)) as [Heq|?]; [|lia].
    apply Hkey, Hsame in Heq. lia.
  - intros Hlt. destruct (Nat.lt_trichotomy i j) as [?|[Heq|Hgt]]; [done|..].
    + apply Hsame, Hkey in Heq. lia.
    + pose proof (StronglySorted_lookup_lt _ _ _ _ _ _ Hsorted Hj Hi Hgt) as Hle.
      apply H21 in Hle. lia.
Qed.

Lemma sorted_days_are_chronological_witness :
  let msgs := dailyMessages alone 3 in
  let m1 := dailyMessage alone 0 in
  let m2 := dailyMessage alone 2 in
  let days := sortedKeys (grouped msgs) in
  days = [lit "2023-01-01"; lit "2023-01-02"; lit "2023-01-03"] ∧
  forEachFrom dayStep msgs 0 ∅ = Normal (grouped msgs) ∧
  ((0 < 2)%nat ↔ Day (default 0 (timestamp m1)) < Day (default 0 (timestamp m2))).
Proof.
  split; [by vm_compute|].
  apply (sorted_days_are_chronological (dailyMessages alone 3) 0 2
           (dailyMessage alone 0) (dailyMessage alone 2)).
  - repeat constructor; eexists; (split; [reflexivity|]); vm_compute; split; discriminate.
  - by left.
  - right. right. by left.
  - by vm_compute.
  - by vm_compute.
Defined.

(** Beyond the year 9999 the text of a year starts with a sign, and the
    order of the texts is no longer the order of the days. *)
Example day_keys_of_five_digit_years :
  let last := 253402300799999 in
  take 10 (isoText last) = lit "9999-12-31" ∧
  take 10 (isoText (last + 1)) = lit "+010000-01" ∧
  Day last < Day (last + 1) ∧
  str_le (take 10 (isoText (last + 1))) (take 10 (isoText last)).
Proof. by vm_compute. Qed.

End DayOrderFacts.

(** ** From the parser to the analysis *)

Module PipelineFacts.
Import Parser ParserFacts Analysis AnalysisFacts Report.
Import TranscriptFacts TimestampFacts OutcomeFacts.

Lemma YearFromTime_bounds t :
  -86400000 ≤ t ≤ 5000086400000 → 1969 ≤ YearFromTime t ≤ 2128.
Proof.
  intros Ht. pose proof (YearFromTime_spec t) as Hy.
  assert (-1 ≤ Day t ≤ 57871) as Hd.
  { unfold Day, msPerDay. Z.div_mod_to_equations. lia. }
  split.
  - destruct (Z.le_gt_cases 1969 (YearFromTime t)) as [?|Hlt]; [done|].
    pose proof (DayFromYear_mono (YearFromTime t + 1) 1969 ltac:(lia)) as Hm.
    change (DayFromYear 1969) with (-365) in Hm. lia.
  - destruct (Z.le_gt_cases (YearFromTime t) 2128) as [?|Hgt]; [done|].
    pose proof (DayFromYear_mono 2129 (YearFromTime t) ltac:(lia)) as Hm.
    change (DayFromYear 2129) with 58074 in Hm. lia.
Qed.

Section host.
Context `{Host}.

(** The timestamp of the message of a header line is a valid date of the
    years 1969 to 2128. *)
Lemma timestamp_of_matched line d t s c i :
  (∀ t, Z.abs (LocalTZA t false) ≤ msPerDay) →
  matchLine line = Some (d, t, s, c) →
  ∃ ms, timestamp (newMessage i d t s c) = Some ms ∧ 1969 ≤ YearFromTime ms ≤ 2128.
Proof.
  intros Htz Hm.
  apply matchLine_inv in Hm
    as (d1 & d2 & m1 & m2 & y1 & y2 & hh & mi & ss & w & ap & -> & -> & Hd & Ht & _).
  rewrite timestamp_of_header by done. eexists. split; [done|].
  apply YearFromTime_bounds.
  pose proof Ht as (Hhh & Hmi & Hss & _).
  pose proof (clockHour_range ap hh Hhh).
  assert (0 ≤ decimal mi ≤ 99).
  { apply digitRun_2 in Hmi as (? & ? & -> & ? & ?). by apply decimal_two_digits. }
  assert (0 ≤ from_option decimal 0 ss ≤ 99).
  { destruct ss as [x|]; simpl in *; [|lia].
    apply digitRun_2 in Hss as (? & ? & -> & ? & ?). by apply decimal_two_digits. }
  assert (0 ≤ decimal [y1; y2] ≤ 99 ∧ 0 ≤ decimal [m1; m2] ≤ 99 ∧
          0 ≤ decimal [d1; d2] ≤ 99) as (? & ? & ?).
  { repeat (apply Forall_cons_1 in Hd as [? Hd]).
    split_and!; by apply decimal_two_digits. }
  pose proof (MakeDate_header_range (decimal [y1; y2]) (decimal [m1; m2])
                (decimal [d1; d2]) (clockHour ap hh) (decimal mi)
                (from_option decimal 0 ss)) as Hr.
  do 6 (specialize (Hr ltac:(done))).
  unfold MakeFullYear in Hr.
  replace ((0 <=? decimal [y1; y2] + 2000) && (decimal [y1; y2] + 2000 <=? 99))
    with false in Hr
    by (symmetry; apply andb_false_iff; right; apply Z.leb_gt; lia).
  unfold UTC, localTimeOf.
  specialize (Htz (MakeDate
    (MakeDay (decimal [y1; y2] + 2000) (decimal [m1; m2] - 1) (decimal [d1; d2]))
    (MakeTime (clockHour ap hh) (decimal mi) (from_option decimal 0 ss) 0))).
  unfold msPerDay in Htz. lia.
Qed.


End host.


End PipelineFacts.

(** ** The data for the views *)

Module VisualizationFacts.
Import Visualization ObjectFacts.

Lemma entries_NoDup {V} (o : JsObject.object V) :
  NoDup (keys o) → NoDup (keys (JsObject.entries o)).
Proof. unfold keys. by rewrite entries_Permutation. Qed.

Lemma get_entries {V} (o : JsObject.object V) k v :
  NoDup (keys o) → (k, v) ∈ JsObject.entries o → JsObject.get k o = Some v.
Proof.
  intros Hnd Hin. apply get_Some; [done|]. by rewrite <-(entries_Permutation o).
Qed.

Lemma Qcdiv_pos (x y : Qc) : (0 < x → 0 < y → 0 < x / y)%Qc.
Proof. intros Hx Hy. unfold Qcdiv. by apply Qcmult_pos_pos, Qcinv_pos. Qed.

Lemma balanceOf_two (o : JsObject.object Z) s1 a s2 b :
  NoDup (keys o) → JsObject.entries o = [(s1, a); (s2, b)] →
  balanceOf o = ndiv (ofZ a) (ofZ (a + b)).
Proof.
  intros Hnd He. unfold balanceOf, keysOf, countOf. rewrite He.
  cbn [fmap list_fmap fst].
  rewrite (get_entries o s1 a), (get_entries o s2 b); try done.
  - cbn [from_option nadd ofZ]. unfold ofZ. by rewrite Z2Qc_inj_add.
  - rewrite He. right. by left.
  - rewrite He. by left.
Qed.

Lemma balanceOf_not_two (o : JsObject.object Z) :
  length o ≠ 2%nat → balanceOf o = Num (Q2Qc (1 # 2)).
Proof.
  intros Hlen. unfold balanceOf.
  assert (length (keysOf o) = length o) as Hk.
  { unfold keysOf. by rewrite length_fmap, entries_Permutation. }
  destruct (keysOf o) as [|k1 [|k2 [|k3 l]]]; done.
Qed.

(** The balance of a window is a number only between two senders: the part
    of the one whose name comes first among the properties, which is above 0
    and below 1 when both have messages, and becomes the part of the other
    when the names change places.  A window in which one sender alone
    writes, or three or more, has the 0.5 of an even exchange. *)
Theorem balance_of_a_window windowMetrics patternShifts k w :
  windowMetrics !! k = Some w →
  let o := messagesBySender w in
  NoDup (keys o) →
  ∃ p, evolution (prepareRelationshipEvolutionData windowMetrics patternShifts) !! k
       = Some p ∧
    senders p = o ∧
    (length o ≠ 2%nat → balanceRatio p = Num (Q2Qc (1 # 2))) ∧
    (∀ s1 a s2 b, JsObject.entries o = [(s1, a); (s2, b)] → 0 < a → 0 < b →
       ∃ q, balanceRatio p = Num q ∧ (0 < q)%Qc ∧ (q < 1)%Qc ∧
            q = (Qc_of_Z a / Qc_of_Z (a + b))%Qc ∧
            ∀ o', NoDup (keys o') → JsObject.entries o' = [(s2, b); (s1, a)] →
                  balanceOf o' = Num (1 - q)%Qc).
Proof.
  intros Hk o Hnd. exists (evolutionOf w). split.
  { cbn [prepareRelationshipEvolutionData evolution]. by rewrite list_lookup_fmap, Hk. }
  split; [done|]. cbn [evolutionOf balanceRatio]. fold o.
  split; [apply balanceOf_not_two|].
  intros s1 a s2 b He Ha Hb.
  assert (Qc_of_Z (a + b) ≠ 0%Qc) as Hne by (rewrite Qc_of_Z_eq_0; lia).
  exists (Qc_of_Z a / Qc_of_Z (a + b))%Qc. split_and!.
  - rewrite (balanceOf_two o s1 a s2 b) by done. by rewrite ndiv_ofZ by lia.
  - apply Qcdiv_pos; rewrite <-Qc_of_Z_pos; lia.
  - apply WindowFacts.Qcdiv_lt_1; [rewrite <-Qc_of_Z_pos; lia|].
    rewrite <-Z2Qc_inj_lt. lia.
  - done.
  - intros o' Hnd' He'. rewrite (balanceOf_two o' s2 b s1 a) by done.
    rewrite ndiv_ofZ by lia. f_equal.
    rewrite (Z.add_comm b a). rewrite Z2Qc_inj_add in *. field. done.
Qed.

Lemma balance_of_a_window_witness :
  let o := [(lit "Ann", 30); (lit "Bob", 10)] in
  let w := {| startDate := Some (lit "2023-01-01"); endDate := Some (lit "2023-01-30");
              messageCount := 40; messagesPerDay := Some (Q2Qc (4 # 3));
              responseFrequency := Some (Q2Qc (1 # 2)); messagesBySender := o |} in
  NoDup (keys o) ∧
  ∃ p, evolution (prepareRelationshipEvolutionData [w] []) !! 0%nat = Some p ∧
    senders p = o ∧
    (length o ≠ 2%nat → balanceRatio p = Num (Q2Qc (1 # 2))) ∧
    (∀ s1 a s2 b, JsObject.entries o = [(s1, a); (s2, b)] → 0 < a → 0 < b →
       ∃ q, balanceRatio p = Num q ∧ (0 < q)%Qc ∧ (q < 1)%Qc ∧
            q = (Qc_of_Z a / Qc_of_Z (a + b))%Qc ∧
            ∀ o', NoDup (keys o') → JsObject.entries o' = [(s2, b); (s1, a)] →
                  balanceOf o' = Num (1 - q)%Qc).
Proof.
  assert (NoDup (keys [(lit "Ann", 30); (lit "Bob", 10)])) as Hnd.
  { apply (bool_decide_unpack _). vm_compute. reflexivity. }
  split; [exact Hnd|].
  exact (balance_of_a_window
           [{| startDate := Some (lit "2023-01-01"); endDate := Some (lit "2023-01-30");
               messageCount := 40; messagesPerDay := Some (Q2Qc (4 # 3));
               responseFrequency := Some (Q2Qc (1 # 2));
               messagesBySender := [(lit "Ann", 30); (lit "Bob", 10)] |}]
           [] 0 _ eq_refl Hnd).
Defined.

Example balance_of_one_sender :
  balanceOf [(lit "Ann", 40)] = Num (Q2Qc (1 # 2)) ∧
  balanceOf [(lit "Ann", 20); (lit "Bob", 20)] = Num (Q2Qc (1 # 2)).
Proof.
  split; [done|]. rewrite (balanceOf_two _ (lit "Ann") 20 (lit "Bob") 20).
  - rewrite ndiv_ofZ by done. f_equal. by apply Qc_is_canon.
  - apply (bool_decide_unpack _). vm_compute. reflexivity.
  - reflexivity.
Qed.

(** *** The most frequent words and emojis *)

Lemma insertByCount_Permutation e l : insertByCount e l ≡ₚ e :: l.
Proof.
  induction l as [|x l IH]; [done|]. cbn [insertByCount].
  case_match; [|done]. by rewrite IH, Permutation_swap.
Qed.

Lemma sortByCount_Permutation l : sortByCount l ≡ₚ l.
Proof.
  induction l as [|e l IH]; [done|]. cbn [sortByCount foldr].
  fold (sortByCount l). by rewrite insertByCount_Permutation, IH.
Qed.

(** By falling count. *)
Definition byCount (x y : list Z * Z) : Prop := y.2 ≤ x.2.

Lemma insertByCount_sorted e l :
  StronglySorted byCount l → StronglySorted byCount (insertByCount e l).
Proof.
  induction l as [|x l IH]; intros Hs; cbn [insertByCount].
  - repeat constructor.
  - apply StronglySorted_cons in Hs as [Hx Hs].
    destruct (Z.ltb_spec e.2 x.2) as [Hlt|Hge].
    + apply StronglySorted_cons. split; [|by apply IH].
      rewrite insertByCount_Permutation. constructor; [unfold byCount; lia|done].
    + apply StronglySorted_cons. split; [|by apply StronglySorted_cons].
      constructor; [done|]. eapply Forall_impl; [done|].
      unfold byCount. intros y ?. lia.
Qed.

Lemma sortByCount_sorted l : StronglySorted byCount (sortByCount l).
Proof.
  induction l as [|e l IH]; [constructor|]. cbn [sortByCount foldr].
  by apply insertByCount_sorted.
Qed.

(** The sort is stable: the entries of one count keep their order. *)
Lemma insertByCount_stable c e l :
  filter (λ x, x.2 = c) (insertByCount e l) = filter (λ x, x.2 = c) (e :: l).
Proof.
  induction l as [|x l IH]; [done|]. cbn [insertByCount].
  destruct (Z.ltb_spec e.2 x.2) as [Hlt|Hge]; [|done].
  rewrite filter_cons, IH, !filter_cons.
  destruct (decide (x.2 = c)), (decide (e.2 = c)); try done. lia.
Qed.

Lemma sortByCount_stable c l :
  filter (λ x, x.2 = c) (sortByCount l) = filter (λ x, x.2 = c) l.
Proof.
  induction l as [|e l IH]; [done|]. cbn [sortByCount foldr]. fold (sortByCount l).
  by rewrite insertByCount_stable, !filter_cons, IH.
Qed.

(** [top] lists the [n] greatest counts of [counts], or all when there are
    fewer, by falling count, names of one count in the order of the
    properties. *)
Definition greatest (n : nat) (counts : JsObject.object Z) (top : list wordCount)
    : Prop :=
  length top = (n `min` length counts)%nat ∧
  StronglySorted (λ x y, count y ≤ count x) top ∧
  NoDup (word <$> top) ∧
  (∀ x, x ∈ top → JsObject.get (word x) counts = Some (count x)) ∧
  (∀ k c x, JsObject.get k counts = Some c → k ∉ word <$> top → x ∈ top →
            c ≤ count x) ∧
  (∀ c, (λ x, (word x, count x)) <$> filter (λ x, count x = c) top
        `prefix_of` filter (λ e, e.2 = c) (JsObject.entries counts)).

Lemma topCounts_greatest n counts :
  NoDup (keys counts) → greatest n counts (topCounts n counts).
Proof.
  intros Hnd. unfold greatest, topCounts.
  set (S := sortByCount (JsObject.entries counts)).
  assert (S ≡ₚ counts) as HS.
  { unfold S. by rewrite sortByCount_Permutation, entries_Permutation. }
  assert (NoDup S.*1) as HndS by (by rewrite HS).
  pose proof (sortByCount_sorted (JsObject.entries counts)) as Hsorted. fold S in Hsorted.
  assert (∀ e, e ∈ S ↔ JsObject.get e.1 counts = Some e.2) as Hin.
  { intros [k c]. rewrite HS. symmetry. by apply get_Some. }
  split_and!.
  - by rewrite length_fmap, length_take, HS.
  - apply StronglySorted_fmap with (R1 := byCount); [by intros x y|].
    rewrite <-(take_drop n S) in Hsorted. by apply StronglySorted_app_1_l in Hsorted.
  - rewrite <-list_fmap_compose.
    change (word ∘ _) with (fst : list Z * Z → list Z).
    eapply sublist_NoDup; [exact HndS|].
    apply fmap_sublist, sublist_take.
  - intros x (e & -> & He)%list_elem_of_fmap. apply Hin.
    revert He. apply sublist_subseteq, sublist_take.
  - intros k c x Hk Hnot (e & -> & He)%list_elem_of_fmap. cbn [count].
    assert ((k, c) ∈ drop n S) as Hdrop.
    { assert ((k, c) ∈ S) as HkS by by apply Hin.
      rewrite <-(take_drop n S) in HkS. apply elem_of_app in HkS as [Htake|?]; [|done].
      destruct Hnot. apply list_elem_of_fmap. exists (WordCount k c). split; [done|].
      apply list_elem_of_fmap. by exists (k, c). }
    rewrite <-(take_drop n S) in Hsorted.
    apply (StronglySorted_app_1_elem_of _ _ _ _ _ Hsorted He Hdrop).
  - intros c. rewrite (RelationshipFacts.filter_fmap _ (λ x, count x = c)).
    rewrite <-list_fmap_compose. cbn [count].
    rewrite (list_fmap_ext _ id (filter _ (take n S))) by by intros ? [??].
    rewrite list_fmap_id, <-(sortByCount_stable c (JsObject.entries counts)).
    fold S. rewrite <-(take_drop n S) at 2. rewrite filter_app.
    by apply prefix_app_r.
Qed.

Lemma get_topBySender n o s :
  NoDup (keys o) →
  JsObject.get s (topBySender n o) = topCounts n <$> JsObject.get s o.
Proof.
  intros Hnd. unfold topBySender. rewrite (get_foldl_set (topCounts n)).
  - rewrite (get_Permutation s (JsObject.entries o) o).
    + by destruct (JsObject.get s o).
    + unfold keys. by rewrite entries_Permutation.
    + apply entries_Permutation.
  - unfold keys. by rewrite entries_Permutation.
Qed.

(** For every sender the language patterns list the 20 most frequent words
    and the 10 most frequent emojis, or all when there are fewer: by falling
    count, those of one count in the order of their properties; a word or
    emoji left out has no greater count than one that is listed.  A sender
    without words or emojis in the analysis has none here. *)
Theorem most_frequent_words_and_emojis wordsBySender emojisBySender s :
  NoDup (keys wordsBySender) → NoDup (keys emojisBySender) →
  let patterns := prepareLanguagePatterns wordsBySender emojisBySender in
  match JsObject.get s wordsBySender with
  | Some words =>
      NoDup (keys words) →
      ∃ top, JsObject.get s (topWordsBySender patterns) = Some top ∧
             greatest 20 words top
  | None => JsObject.get s (topWordsBySender patterns) = None
  end ∧
  match JsObject.get s emojisBySender with
  | Some emojis =>
      NoDup (keys emojis) →
      ∃ top, JsObject.get s (topEmojisBySender patterns) = Some top ∧
             greatest 10 emojis top
  | None => JsObject.get s (topEmojisBySender patterns) = None
  end.
Proof.
  intros Hw He patterns. unfold patterns, prepareLanguagePatterns.
  cbn [topWordsBySender topEmojisBySender]. rewrite !get_topBySender by done.
  split.
  - destruct (JsObject.get s wordsBySender) as [words|]; [|done].
    intros Hnd. eexists. split; [done|]. by apply topCounts_greatest.
  - destruct (JsObject.get s emojisBySender) as [emojis|]; [|done].
    intros Hnd. eexists. split; [done|]. by apply topCounts_greatest.
Qed.

Lemma most_frequent_words_and_emojis_witness :
  let words := [(lit "Ann", [(lit "the", 3); (lit "of", 7); (lit "us", 3)])] in
  let emojis := [(lit "Ann", [(lit "|", 2)])] in
  let patterns := prepareLanguagePatterns words emojis in
  NoDup (keys words) ∧ NoDup (keys emojis) ∧
  match JsObject.get (lit "Ann") words with
  | Some words =>
      NoDup (keys words) →
      ∃ top, JsObject.get (lit "Ann") (topWordsBySender patterns) = Some top ∧
             greatest 20 words top
  | None => JsObject.get (lit "Ann") (topWordsBySender patterns) = None
  end ∧
  match JsObject.get (lit "Ann") emojis with
  | Some emojis =>
      NoDup (keys emojis) →
      ∃ top, JsObject.get (lit "Ann") (topEmojisBySender patterns) = Some top ∧
             greatest 10 emojis top
  | None => JsObject.get (lit "Ann") (topEmojisBySender patterns) = None
  end.
Proof.
  assert (NoDup (keys [(lit "Ann", [(lit "the", 3); (lit "of", 7); (lit "us", 3)])]))
    as Hw by (apply (bool_decide_unpack _); vm_compute; reflexivity).
  assert (NoDup (keys [(lit "Ann", [(lit "|", 2)])]))
    as He by (apply (bool_decide_unpack _); vm_compute; reflexivity).
  split; [exact Hw|]. split; [exact He|].
  exact (most_frequent_words_and_emojis _ _ (lit "Ann") Hw He).
Defined.

Example words_by_falling_count :
  topCounts 2 [(lit "the", 3); (lit "of", 7); (lit "us", 3)]
  = [WordCount (lit "of") 7; WordCount (lit "the") 3].
Proof. reflexivity. Qed.

End VisualizationFacts.

(** ** Emojis *)

Module EmojiFacts.
Import Parser Analysis AggregateFacts Emoji.

Lemma codePoints_cons c lo s :
  codePoints (c :: lo :: s)
  = if isHighSurrogate c && isLowSurrogate lo then [c; lo] :: codePoints s
    else [c] :: codePoints (lo :: s).
Proof. done. Qed.

(** The vertical bar is a code point of the text as often as it is a code
    unit of it. *)
Lemma codePoints_bars s :
  (∀ c, length (filter (λ e, e = [code "|"]) (codePoints (c :: s)))
        = length (filter (λ x, x = code "|") (c :: s))) ∧
  length (filter (λ e, e = [code "|"]) (codePoints s))
  = length (filter (λ x, x = code "|") s).
Proof.
  induction s as [|lo s [IH1 IH2]].
  - split; [|done]. intros c. cbn [codePoints]. rewrite !filter_cons, !filter_nil.
    destruct (decide ([c] = [code "|"])), (decide (c = code "|")); simplify_eq; done.
  - split; [|apply IH1]. intros c. rewrite codePoints_cons.
    destruct (isHighSurrogate c && isLowSurrogate lo) eqn:Hpair.
    + unfold isHighSurrogate, isLowSurrogate in Hpair. bool_to_prop.
      rewrite !filter_cons. change (code "|") with 124.
      destruct (decide ([c; lo] = [124])), (decide (c = 124)), (decide (lo = 124));
        simplify_eq; try lia. apply IH2.
    + rewrite filter_cons, (filter_cons _ c).
      destruct (decide ([c] = [code "|"])), (decide (c = code "|")); simplify_eq;
        cbn [length]; by rewrite IH1.
Qed.

Lemma filter_filter_eq {A} `{EqDecision A} (P : A → Prop) `{∀ x, Decision (P x)}
    (e : A) (l : list A) :
  P e → filter (λ x, x = e) (filter P l) = filter (λ x, x = e) l.
Proof.
  intros He. induction l as [|x l IH]; [done|]. rewrite !filter_cons.
  destruct (decide (P x)) as [Hx|Hx].
  - rewrite filter_cons, IH. done.
  - rewrite IH. destruct (decide (x = e)) as [->|]; done.
Qed.

(** The messages of a sender that are no media messages. *)
Definition textsOf (s : list Z) (msgs : list message) : list message :=
  filter (λ m, isMedia m = false) (filter (λ m, sender m = s) msgs).

(** The emojis of a sender: those of these messages, in their order. *)
Definition emojisFound (s : list Z) (msgs : list message) : list (list Z) :=
  textsOf s msgs ≫= (λ m, emojisOf (content m)).

Lemma emojisBySender_lookup msgs s :
  emojisBySender msgs !! s
  = match filter (λ m, sender m = s) msgs with
    | [] => None
    | _ => Some (foldl (λ counts emoji, increment emoji counts) ∅ (emojisFound s msgs))
    end.
Proof.
  unfold emojisBySender, emojisFound, textsOf.
  induction msgs as [|m msgs IH] using rev_ind; [done|].
  rewrite foldl_snoc, filter_app, (filter_cons _ m), filter_nil.
  unfold emojiStep at 1.
  destruct (decide (sender m = s)) as [<-|Hne].
  - rewrite lookup_insert_eq, IH. clear IH.
    set (mine := filter (λ x, sender x = sender m) msgs).
    rewrite filter_app, (filter_cons _ m), filter_nil, bind_app, foldl_app.
    assert (mine ++ [m] ≠ []) as Hne by by destruct mine.
    destruct (mine ++ [m]) as [|x xs] eqn:Hx; [done|]. f_equal.
    destruct (isMedia m) eqn:Hm.
    + rewrite decide_False by done. simpl. by destruct mine.
    + rewrite decide_True by done. simpl. rewrite app_nil_r. by destruct mine.
  - rewrite lookup_insert_ne, IH by done. by rewrite app_nil_r.
Qed.

(** The emojis of a message are the code points of its content that
    [emojiRegex] matches, and the vertical bars of the pattern make the
    vertical bar one of them.  A sender of a message has a count for every
    emoji of its messages that are no media messages: the number of times
    the emoji is there; so the count of the vertical bar is the number of
    the vertical bars of these messages. *)
Theorem emoji_counts msgs s :
  match emojisBySender msgs !! s with
  | None => filter (λ m, sender m = s) msgs = []
  | Some counts =>
      filter (λ m, sender m = s) msgs ≠ [] ∧
      (∀ e, counts !! e = counted (λ x, x = e) (emojisFound s msgs)) ∧
      counts !! [code "|"]
      = counted (λ c, c = code "|") (textsOf s msgs ≫= content)
  end.
Proof.
  rewrite emojisBySender_lookup.
  destruct (filter (λ m, sender m = s) msgs) as [|m ms] eqn:Hmine; [done|].
  split; [done|].
  assert (∀ e, foldl (λ counts emoji, increment emoji counts) ∅ (emojisFound s msgs) !! e
               = counted (λ x, x = e) (emojisFound s msgs)) as Hcounts.
  { intros e. rewrite (foldl_increment_empty id). by unfold id. }
  split; [done|]. rewrite Hcounts. unfold counted, emojisFound.
  assert (length (filter (λ x, x = [code "|"])
            (textsOf s msgs ≫= λ m, emojisOf (content m)))
          = length (filter (λ c, c = code "|") (textsOf s msgs ≫= content)))
    as Hlen.
  { induction (textsOf s msgs) as [|x xs IH]; [done|].
    cbn [mbind list_bind]. rewrite !filter_app, !length_app, IH. f_equal.
    unfold emojisOf. rewrite filter_filter_eq by done.
    apply codePoints_bars. }
  destruct (filter (λ x, x = [code "|"]) _) as [|b bs],
    (filter (λ c, c = code "|") _) as [|c cs]; try done.
  by do 2 f_equal.
Qed.

End EmojiFacts.

